(** * XMLConverter: the binary codec for XML-like element trees

    A shallow embedding of [XMLConverter.js] and [lookupTables.js]:
    the variable-length integer format, the two byte-substitution tables,
    the length-prefixed string fields and the recursive element
    encoder/decoder, followed by the properties of the codec.

    Conventions.
    - A [Uint8Array] is a [list byte]; a JavaScript number that holds a
      length, a count or a decoded integer is a [Z].
    - The bitwise operators of JavaScript work on 32-bit integers; their
      wrap-around is written out in [toInt32] and [toUint32].
    - The methods of the class mutate [this]; here they take the converter
      and return the updated one.  A method that may throw returns a
      [result].
    - The call stack of the engine is not part of the state.  The decoder
      carries its recursion depth as a budget; the other recursive
      functions are the functions on a stack that is deep enough for
      their input. *)

From Stdlib Require Import ZArith List Bool Lia.
From Stdlib Require Import Strings.String Strings.Ascii Strings.Byte.
From Stdlib Require Import Arith PeanoNat.
Import ListNotations.

Local Open Scope Z_scope.

(** ** JavaScript numbers and bytes *)

Module JS.

(** [ToInt32] and [ToUint32] of an integral number. *)
Definition toInt32 (z : Z) : Z := (z + 2 ^ 31) mod 2 ^ 32 - 2 ^ 31.
Definition toUint32 (z : Z) : Z := z mod 2 ^ 32.

(** [a & b], [a | b], [a << n], [a >> n], [a >>> n]. *)
Definition and (a b : Z) : Z := toInt32 (Z.land (toInt32 a) (toInt32 b)).
Definition or (a b : Z) : Z := toInt32 (Z.lor (toInt32 a) (toInt32 b)).
Definition shl (a n : Z) : Z := toInt32 (Z.shiftl (toInt32 a) (Z.land n 31)).
Definition shr (a n : Z) : Z := Z.shiftr (toInt32 a) (Z.land n 31).
Definition ushr (a n : Z) : Z := Z.shiftr (toUint32 a) (Z.land n 31).

(** Reading an element of a [Uint8Array] as a number, and storing a number
    into one (the store keeps the low eight bits). *)
Definition ofByte (b : byte) : Z := Z.of_N (Byte.to_N b).
Definition toUint8 (z : Z) : byte :=
  match Byte.of_N (Z.to_N (z mod 256)) with
  | Some b => b
  | None => x00
  end.

(** [array.length], and [array[i]] read as a number ([None] is
    [undefined]). *)
Definition len {A} (l : list A) : Z := Z.of_nat (List.length l).
Definition get (bin : list byte) (i : nat) : option Z :=
  option_map ofByte (nth_error bin i).

(** [v === 0]. *)
Definition isZero (v : option Z) : bool :=
  match v with
  | Some z => z =? 0
  | None => false
  end.

(** [TypedArray.prototype.slice(start, end)]: negative indices count from
    the end, both are clamped to the array, and an absent [end] is the
    length. *)
Definition relIndex (n i : Z) : Z :=
  if i <? 0 then Z.max (n + i) 0 else Z.min i n.

Definition slice {A} (l : list A) (start : Z) (end_ : option Z) : list A :=
  let n := len l in
  let k := relIndex n start in
  let final := match end_ with Some e => relIndex n e | None => n end in
  let count := Z.max (final - k) 0 in
  firstn (Z.to_nat count) (skipn (Z.to_nat k) l).

(** Truthiness of a property that is a string or absent. *)
Definition truthy (v : option string) : bool :=
  match v with
  | Some EmptyString => false
  | Some _ => true
  | None => false
  end.

End JS.

(** ** lookupTables.js *)

(** [for (let i = 0; i < 256; i++)]: the indices 0 .. 255. *)
Definition byteIndices : list Z := map Z.of_nat (seq 0 256).

(** [nibbleSwapTable[i] = ((i & 0x0f) << 4) | ((i & 0xf0) >> 4)]. *)
Definition nibbleSwapEntry (i : Z) : Z :=
  JS.or (JS.shl (JS.and i 0x0f) 4) (JS.shr (JS.and i 0xf0) 4).

Definition nibbleSwapTable : list byte :=
  map (fun i => JS.toUint8 (nibbleSwapEntry i)) byteIndices.

(** The inner loop over [bit = 0, 2, 4, 6]. *)
Definition adjacentBitSwapEntry (i : Z) : Z :=
  fold_left
    (fun swapped bit =>
       let bit1 := JS.and (JS.shr i bit) 1 in
       let bit2 := JS.and (JS.shr i (bit + 1)) 1 in
       JS.or swapped (JS.or (JS.shl bit1 (bit + 1)) (JS.shl bit2 bit)))
    [0; 2; 4; 6] 0.

Definition adjacentBitSwapTable : list byte :=
  map (fun i => JS.toUint8 (adjacentBitSwapEntry i)) byteIndices.

(** [table[b]] for a byte [b]. *)
Definition lookup (table : list byte) (b : byte) : byte :=
  nth (Z.to_nat (JS.ofByte b)) table x00.

(** ** XMLConverter.js *)

Definition IS_ELEMENT : Z := 20.
Definition IS_CONTENT : Z := 10.

(** The element objects: [{ name, attrs, children }] and [{ content }]. *)
#[warnings="-register-all"]
Inductive node : Type :=
| Element (name : string) (attrs : list (string * string)) (children : list node)
| Text (content : string).
Arguments Element name%_string attrs children.
Arguments Text content%_string.

Definition nodeName (n : node) : option string :=
  match n with
  | Element name _ _ => Some name
  | Text _ => None
  end.

Definition nodeContent (n : node) : option string :=
  match n with
  | Element _ _ _ => None
  | Text content => Some content
  end.

(** The exceptions the code raises, and the outcome of a method.
    [IncompleteNumber] is [Error('Invalid binary format: incomplete number')];
    [TypeError] is the engine's error on reading a property of [undefined].
    [OutOfFuel] marks a run of the fuel-indexed decoder whose recursion
    budget was used up; in an engine the budget is the call stack, and
    using it up is a [RangeError].  The recursive functions other than
    the decoder ([encodeElement], [elementToString], [domToJSObject]) carry
    no budget: what is stated of them is about runs in which the call
    stack suffices. *)
Inductive exn : Type := IncompleteNumber | TypeError.

Inductive result (A : Type) : Type :=
| Ok (a : A)
| Throw (e : exn)
| OutOfFuel.
Arguments Ok {A} a.
Arguments Throw {A} e.
Arguments OutOfFuel {A}.

Definition bind {A B} (r : result A) (k : A -> result B) : result B :=
  match r with
  | Ok a => k a
  | Throw e => Throw e
  | OutOfFuel => OutOfFuel
  end.

Notation "'let*' x ':=' r 'in' k" := (bind r (fun x => k))
  (at level 10, x pattern, r at level 100, k at level 200).

(** The instance state.  [mapperModule] and [swapTags] are stored and never
    read. *)
Record XMLConverter : Type := mkXMLConverter {
  accumulator : list byte;
  mapperModule : option string;
  swapEnabled : bool;
  swapTags : list string;
  binaryData : list byte
}.

Definition setAccumulator (this : XMLConverter) (acc : list byte) : XMLConverter :=
  mkXMLConverter acc (mapperModule this) (swapEnabled this) (swapTags this)
                 (binaryData this).

Definition setBinaryData (this : XMLConverter) (bin : list byte) : XMLConverter :=
  mkXMLConverter (accumulator this) (mapperModule this) (swapEnabled this)
                 (swapTags this) bin.

(** [converterOptions]. *)
Record options : Type := mkOptions {
  opt_mapperModule : option string;
  opt_swapEnabled : bool;
  opt_swapTags : list string
}.

(** [new XMLConverter(options, arrayBuffer)]. *)
Definition newXMLConverter (o : options) (bin : list byte) : XMLConverter :=
  mkXMLConverter [] (opt_mapperModule o) (opt_swapEnabled o) (opt_swapTags o) bin.

(** [static nibbleSwap(binaryData)] and [static swapAdjacentBits(binaryData)]. *)
Definition nibbleSwap (bin : list byte) : list byte :=
  map (lookup nibbleSwapTable) bin.

Definition swapAdjacentBits (bin : list byte) : list byte :=
  map (lookup adjacentBitSwapTable) bin.

(** The [do ... while (number > 0 && index < 5)] loop shared by
    [encodeNumber] and [encodeNumberAddtoAcc]; [room] is [5 - index]. *)
Fixpoint encodeNumberLoop (room : nat) (number : Z) : list byte :=
  match room with
  | O => []
  | S room' =>
      let byte := JS.and number 0x7f in
      let number := JS.ushr number 7 in
      let byte := if 0 <? number then JS.or byte 0x80 else byte in
      JS.toUint8 byte ::
        (if 0 <? number then encodeNumberLoop room' number else [])
  end.

(** [static encodeNumber(number)]. *)
Definition encodeNumber (number : Z) : list byte :=
  if number =? 0 then [x00] else encodeNumberLoop 5 number.

(** [addToAcc(array)]. *)
Definition addToAcc (array : list byte) (this : XMLConverter) : XMLConverter :=
  if JS.len array =? 0 then this
  else if JS.len (accumulator this) =? 0 then setAccumulator this array
  else setAccumulator this (accumulator this ++ array).

(** [encodeNumberAddtoAcc(number)]. *)
Definition encodeNumberAddtoAcc (number : Z) (this : XMLConverter) : XMLConverter :=
  if number =? 0 then addToAcc [x00] this
  else addToAcc (encodeNumberLoop 5 number) this.

(** The [do ... while (shift < 32)] loop of [decodeNumber].  The loop runs
    for [shift] = 0, 7, 14, 21, 28, so five rounds of [fuel] are enough. *)
Fixpoint decodeNumberLoop (fuel : nat) (bin : list byte)
    (number shift : Z) (currentIndex : nat) : result (Z * nat) :=
  match fuel with
  | O => OutOfFuel
  | S fuel' =>
      match JS.get bin currentIndex with
      | None => Throw IncompleteNumber
      | Some byte =>
          let number := JS.or number (JS.shl (JS.and byte 0x7f) shift) in
          if JS.and byte 0x80 =? 0 then Ok (number, S currentIndex)
          else
            let shift := shift + 7 in
            let currentIndex := S currentIndex in
            if shift <? 32
            then decodeNumberLoop fuel' bin number shift currentIndex
            else Ok (number, currentIndex)
      end
  end.

(** [decodeNumber()]. *)
Definition decodeNumber (this : XMLConverter) : result (Z * XMLConverter) :=
  if JS.isZero (JS.get (binaryData this) 0) then
    Ok (0, setBinaryData this (JS.slice (binaryData this) 1 None))
  else
    let* (number, currentIndex) :=
      decodeNumberLoop 5 (binaryData this) 0 0 0 in
    Ok (number,
        setBinaryData this
          (JS.slice (binaryData this) (Z.of_nat currentIndex) None)).

(** ** Bytes of an encoded number *)

(** One round of the encoding loop, on a number in the 32-bit range. *)
Definition varintByte (n : Z) : byte :=
  JS.toUint8 (if 0 <? n / 128 then n mod 128 + 128 else n mod 128).

(** The continuation bit of a byte, as [decodeNumber] tests it. *)
Definition continues (b : byte) : bool :=
  negb (JS.and (JS.ofByte b) 0x80 =? 0).

(** ** Strings and elements

    [TextEncoder.encode] and [TextDecoder.decode] belong to the platform,
    not to the repository: the codec is parameterised by them. *)

Section Converter.

Variable encoder : string -> list byte.
Variable decoder : list byte -> string.

(** [Math.min(...uint8Array)]; [None] is [Infinity], the minimum of no
    arguments. *)
Definition minOf (bin : list byte) : option Z :=
  fold_left
    (fun m b => match m with
                | None => Some (JS.ofByte b)
                | Some v => Some (Z.min v (JS.ofByte b))
                end)
    bin None.

(** [encodeStaticString(s)] and [static decodeStaticString(uint8Array)]:
    the alternate encoding of fixed strings, behind [if (false)]. *)
Definition encodeStaticString (s : string) : list byte :=
  let uint8Array := encoder s in
  match minOf uint8Array with
  | None => [x00]
  | Some smallestAscii =>
      JS.toUint8 smallestAscii ::
        map (fun value => JS.toUint8 (JS.ofByte value - smallestAscii)) uint8Array
  end.

Definition decodeStaticString (uint8Array : list byte) : list byte :=
  match JS.get uint8Array 0 with
  | None => []
  | Some smallestAscii =>
      map (fun value => JS.toUint8 (JS.ofByte value + smallestAscii))
          (JS.slice uint8Array 1 None)
  end.

(** [encodeString(str)]. *)
Definition encodeString (str : string) (this : XMLConverter) : XMLConverter :=
  let binaryData := encoder str in
  let length := JS.len binaryData in
  let swappedBin := if swapEnabled this then nibbleSwap binaryData else binaryData in
  let encodedLength := encodeNumber length in
  addToAcc swappedBin (addToAcc encodedLength this).

(** [encodeStringAddToAcc(str, isFixed = false)]. *)
Definition encodeStringAddToAcc (str : string) (isFixed : bool)
    (this : XMLConverter) : XMLConverter :=
  let binaryData :=
    if swapEnabled this then
      if false then encodeStaticString str
      else nibbleSwap (encoder str)
    else encoder str in
  let length := JS.len binaryData in
  addToAcc binaryData (encodeNumberAddtoAcc length this).

(** [decodeString(isFixed = false)]. *)
Definition decodeString (isFixed : bool) (this : XMLConverter)
    : result (string * XMLConverter) :=
  let* (length, this) := decodeNumber this in
  let binaryStr := JS.slice (binaryData this) 0 (Some length) in
  let this := setBinaryData this (JS.slice (binaryData this) length None) in
  let decodedStr :=
    if swapEnabled this then
      if false then decodeStaticString binaryStr
      else if swapEnabled this then nibbleSwap binaryStr else binaryStr
    else binaryStr in
  Ok (decoder decodedStr, this).

(** The attribute loop of [encodeElement]:
    [for (const [key, value] of attrs)]. *)
Definition encodeAttrs (attrs : list (string * string)) (this : XMLConverter)
    : XMLConverter :=
  fold_left
    (fun this kv =>
       encodeStringAddToAcc (snd kv) false
         (encodeStringAddToAcc (fst kv) true this))
    attrs this.

(** [encodeElement(element)].  The method returns [this.accumulator]; here
    it returns the converter, whose [accumulator] is that value.  Reading
    [attrs.length] of an object without [attrs] raises a [TypeError]. *)
Fixpoint encodeElement (element : node) (this : XMLConverter)
    : result XMLConverter :=
  match element with
  | Text _ => Throw TypeError
  | Element name attrs children =>
      let this := encodeStringAddToAcc name true this in
      let attrsLength := JS.len attrs in
      let this := encodeNumberAddtoAcc attrsLength this in
      let this := if 0 <? attrsLength then encodeAttrs attrs this else this in
      let childrenLength := JS.len children in
      match children with
      | [] =>
          let this := encodeNumberAddtoAcc IS_ELEMENT this in
          let this := encodeNumberAddtoAcc 0 this in
          Ok this
      | first :: _ =>
          let childrenType :=
            if JS.truthy (nodeName first) then IS_ELEMENT else IS_CONTENT in
          let this := encodeNumberAddtoAcc childrenType this in
          let this :=
            if childrenType =? IS_ELEMENT
            then encodeNumberAddtoAcc childrenLength this
            else this in
          (fix loop (rest : list node) (this : XMLConverter)
             : result XMLConverter :=
             match rest with
             | [] => Ok this
             | child :: rest' =>
                 if JS.truthy (nodeName child) then
                   let* this := encodeElement child this in
                   loop rest' this
                 else
                   match nodeContent child with
                   | Some content =>
                       if JS.truthy (Some content)
                       then loop rest' (encodeStringAddToAcc content false this)
                       else loop rest' this
                   | None => loop rest' this
                   end
             end) children this
      end
  end.

(** The child loop of [encodeElement], [for (const child of children)],
    as a function of its own. *)
Fixpoint encodeChildren (children : list node) (this : XMLConverter)
    : result XMLConverter :=
  match children with
  | [] => Ok this
  | child :: rest' =>
      if JS.truthy (nodeName child) then
        let* this := encodeElement child this in
        encodeChildren rest' this
      else
        match nodeContent child with
        | Some content =>
            if JS.truthy (Some content)
            then encodeChildren rest' (encodeStringAddToAcc content false this)
            else encodeChildren rest' this
        | None => encodeChildren rest' this
        end
  end.

(** [for (let i = 0; i < count; i++) array[i] = body()]. *)
Fixpoint forLoop {A} (count : nat)
    (body : XMLConverter -> result (A * XMLConverter))
    (this : XMLConverter) : result (list A * XMLConverter) :=
  match count with
  | O => Ok ([], this)
  | S count' =>
      let* (a, this) := body this in
      let* (rest, this) := forLoop count' body this in
      Ok (a :: rest, this)
  end.

(** The body of the attribute loop of [decodeElement]. *)
Definition decodeAttr (this : XMLConverter)
    : result ((string * string) * XMLConverter) :=
  let* (key, this) := decodeString true this in
  let* (value, this) := decodeString false this in
  Ok ((key, value), this).

(** [decodeElement()].  The recursion of the method is bounded by [fuel],
    one unit per nesting level: [fuel] is the number of nested calls that
    the call stack allows, and [OutOfFuel] is the run that needs more (in
    an engine, a [RangeError]). *)
Fixpoint decodeElementFuel (fuel : nat) (this : XMLConverter)
    : result (node * XMLConverter) :=
  match fuel with
  | O => OutOfFuel
  | S fuel' =>
      let* (name, this) := decodeString true this in
      let* (attrCount, this) := decodeNumber this in
      let* (attrs, this) :=
        if 0 <? attrCount
        then forLoop (Z.to_nat attrCount) decodeAttr this
        else Ok ([], this) in
      let* (childrenType, this) := decodeNumber this in
      if childrenType =? IS_ELEMENT then
        let* (childCount, this) := decodeNumber this in
        if 0 <? childCount then
          let* (children, this) :=
            forLoop (Z.to_nat childCount) (decodeElementFuel fuel') this in
          Ok (Element name attrs children, this)
        else Ok (Element name attrs [], this)
      else if childrenType =? IS_CONTENT then
        let* (content, this) := decodeString false this in
        Ok (Element name attrs [Text content], this)
      else Ok (Element name attrs [], this)
  end.

(** The second half of [decodeElement], from the children discriminator
    on, with [self] the recursive call. *)
Definition decodeChildren (self : XMLConverter -> result (node * XMLConverter))
    (name : string) (attrs : list (string * string)) (this : XMLConverter)
    : result (node * XMLConverter) :=
  let* (childrenType, this) := decodeNumber this in
  if childrenType =? IS_ELEMENT then
    let* (childCount, this) := decodeNumber this in
    if 0 <? childCount then
      let* (children, this) := forLoop (Z.to_nat childCount) self this in
      Ok (Element name attrs children, this)
    else Ok (Element name attrs [], this)
  else if childrenType =? IS_CONTENT then
    let* (content, this) := decodeString false this in
    Ok (Element name attrs [Text content], this)
  else Ok (Element name attrs [], this).

(** The first half: the name and the attributes. *)
Definition decodeHeader (this : XMLConverter)
    : result ((string * list (string * string)) * XMLConverter) :=
  let* (name, this) := decodeString true this in
  let* (attrCount, this) := decodeNumber this in
  let* (attrs, this) :=
    if 0 <? attrCount
    then forLoop (Z.to_nat attrCount) decodeAttr this
    else Ok ([], this) in
  Ok ((name, attrs), this).

(** Every call of [decodeElement] consumes a byte before it recurses, so
    the recursion is never deeper than the buffer is long: this is
    [decodeElement] on a call stack that allows that depth. *)
Definition decodeElement (this : XMLConverter) : result (node * XMLConverter) :=
  decodeElementFuel (S (List.length (binaryData this))) this.

(** The two calls made on a fresh converter by [encodeXmlString] (after
    parsing) and by [decodeData] (before rendering). *)
Definition encodeTree (o : options) (element : node) : result (list byte) :=
  let* this := encodeElement element (newXMLConverter o []) in
  Ok (accumulator this).

Definition decodeTree (o : options) (bin : list byte) : result node :=
  let* (element, _) := decodeElement (newXMLConverter o bin) in
  Ok element.

(** ** The byte layout

    What the encoder appends for a string field, for the attributes and
    for an element, written as functions of the tree.  [encodeElement]
    is shown below to append exactly these bytes. *)

Definition payload (swap : bool) (s : string) : list byte :=
  if swap then nibbleSwap (encoder s) else encoder s.

Definition wireString (swap : bool) (s : string) : list byte :=
  encodeNumber (JS.len (payload swap s)) ++ payload swap s.

Definition wireAttr (swap : bool) (kv : string * string) : list byte :=
  wireString swap (fst kv) ++ wireString swap (snd kv).

Definition wireAttrs (swap : bool) (attrs : list (string * string)) : list byte :=
  flat_map (wireAttr swap) attrs.

Fixpoint wireElement (swap : bool) (element : node) : list byte :=
  match element with
  | Text _ => []
  | Element name attrs children =>
      wireString swap name ++
      encodeNumber (JS.len attrs) ++
      wireAttrs swap attrs ++
      match children with
      | [] => encodeNumber IS_ELEMENT ++ encodeNumber 0
      | first :: _ =>
          (if JS.truthy (nodeName first)
           then encodeNumber IS_ELEMENT ++ encodeNumber (JS.len children)
           else encodeNumber IS_CONTENT) ++
          flat_map
            (fun child =>
               if JS.truthy (nodeName child) then wireElement swap child
               else match nodeContent child with
                    | Some content =>
                        if JS.truthy (Some content)
                        then wireString swap content else []
                    | None => []
                    end)
            children
      end
  end.

(** The bytes one round of the child loop appends. *)
Definition wireChild (swap : bool) (child : node) : list byte :=
  if JS.truthy (nodeName child) then wireElement swap child
  else match nodeContent child with
       | Some content =>
           if JS.truthy (Some content) then wireString swap content else []
       | None => []
       end.

(** The name, the attribute count and the attributes: what precedes the
    children discriminator. *)
Definition wireHeader (swap : bool) (name : string)
    (attrs : list (string * string)) : list byte :=
  wireString swap name ++ encodeNumber (JS.len attrs) ++ wireAttrs swap attrs.

(** ** Well-formed trees *)

Definition nonEmpty (s : string) : bool := JS.truthy (Some s).

Definition isElement (n : node) : bool :=
  match n with
  | Element _ _ _ => true
  | Text _ => false
  end.

(** The invariants of the data model: a non-empty name, and children that
    are none, one text node, or element nodes only. *)
Fixpoint invariants (t : node) : bool :=
  match t with
  | Text _ => false
  | Element name _ children =>
      nonEmpty name &&
      match children with
      | [] => true
      | [Text _] => true
      | _ => forallb (fun c => isElement c && invariants c) children
      end
  end.

(** A string the platform codec handles: its UTF-8 form is shorter than
    2^31 bytes, and decoding that form gives the string back (which the
    platform does for well-formed text without a leading byte-order
    mark). *)
Definition fits (s : string) : bool := JS.len (encoder s) <? 2 ^ 31.
Definition stable (s : string) : bool := String.eqb (decoder (encoder s)) s.
Definition stringOk (s : string) : bool := fits s && stable s.

(** The invariants of the data model, with every string handled by the
    platform codec, every count below 2^31, and no empty text content. *)
Fixpoint wellFormed (t : node) : bool :=
  match t with
  | Text _ => false
  | Element name attrs children =>
      nonEmpty name && stringOk name &&
      (JS.len attrs <? 2 ^ 31) &&
      forallb (fun kv => stringOk (fst kv) && stringOk (snd kv)) attrs &&
      match children with
      | [] => true
      | [Text content] => nonEmpty content && stringOk content
      | _ =>
          (JS.len children <? 2 ^ 31) &&
          forallb (fun c => isElement c && wellFormed c) children
      end
  end.

(** The number of bytes of the text payload that ends the encoding of a
    tree: the content of the text child of the last element on the
    right-most path, or [0] when that element has no text child. *)
Fixpoint trailing (t : node) : nat :=
  match t with
  | Text content => List.length (encoder content)
  | Element _ _ children =>
      (fix lastOf (cs : list node) : nat :=
         match cs with
         | [] => O
         | c :: cs' =>
             match cs' with
             | [] => trailing c
             | _ :: _ => lastOf cs'
             end
         end) children
  end.

(** The same for the children list of an element. *)
Fixpoint trailingLast (cs : list node) : nat :=
  match cs with
  | [] => O
  | c :: cs' =>
      match cs' with
      | [] => trailing c
      | _ :: _ => trailingLast cs'
      end
  end.

End Converter.

(** ** A concrete platform codec

    On 7-bit text the UTF-8 form of a string is the sequence of its
    character codes; this is the codec the examples run with. *)
Definition asciiEncoder (s : string) : list byte := list_byte_of_string s.
Definition asciiDecoder (bin : list byte) : string := string_of_list_byte bin.

(** [converterOptions], and the same with the swap disabled. *)
Definition converterOptions : options := mkOptions None true [].
Definition swapOff : options := mkOptions None false [].

(** ** Outcomes of the decoder

    The notions the properties below are stated with. *)

(** The bytes left in the buffer. *)
Definition remaining (this : XMLConverter) : nat := List.length (binaryData this).

(** An outcome on a truncated buffer: the incomplete-number error, or a
    value with nothing left in the buffer. *)
Definition soft {A} (r : result (A * XMLConverter)) : Prop :=
  match r with
  | Ok (_, this') => binaryData this' = []
  | Throw e => e = IncompleteNumber
  | OutOfFuel => True
  end.

(** The same without the second case: no value at all. *)
Definition hard {A} (r : result (A * XMLConverter)) : Prop :=
  match r with
  | Ok _ => False
  | Throw e => e = IncompleteNumber
  | OutOfFuel => True
  end.

(** An outcome on a buffer cut after [k] bytes: no value, unless the cut
    is at or after byte [bound], and then nothing is left. *)
Definition softFrom {A} (bound k : nat) (r : result (A * XMLConverter)) : Prop :=
  match r with
  | Ok (_, this') => binaryData this' = [] /\ (bound <= k)%nat
  | Throw e => e = IncompleteNumber
  | OutOfFuel => True
  end.

Section Outcomes.

Variable encoder : string -> list byte.
Variable decoder : list byte -> string.

(** What the platform codec makes of a string, and of an attribute. *)
Definition recode (s : string) : string := decoder (encoder s).
Definition recodeAttr (kv : string * string) : string * string :=
  (recode (fst kv), recode (snd kv)).

(** An attribute whose key and value are shorter than 2^31 bytes. *)
Definition attrOk (kv : string * string) : bool :=
  fits encoder (fst kv) && fits encoder (snd kv).

(** The outcome of decoding the layout of [t] followed by [rest], with any
    amount of fuel: the tree and [rest], unless the fuel runs out. *)
Definition readsBack (t : node) : Prop :=
  forall (fuel : nat) (this : XMLConverter) (rest : list byte),
    wellFormed encoder decoder t = true ->
    decodeElementFuel decoder fuel
      (setBinaryData this (wireElement encoder (swapEnabled this) t ++ rest))
    = OutOfFuel \/
    decodeElementFuel decoder fuel
      (setBinaryData this (wireElement encoder (swapEnabled this) t ++ rest))
    = Ok (t, setBinaryData this rest).

(** The outcome of decoding the first [k] bytes of the layout of [t], with
    any amount of fuel: no value, unless the cut is inside the text payload
    that ends the layout. *)
Definition cutsOff (t : node) : Prop :=
  forall (fuel : nat) (this : XMLConverter) (k : nat),
    wellFormed encoder decoder t = true ->
    (k < List.length (wireElement encoder (swapEnabled this) t))%nat ->
    softFrom
      (List.length (wireElement encoder (swapEnabled this) t)
       - trailing encoder t) k
      (decodeElementFuel decoder fuel
         (setBinaryData this
            (firstn k (wireElement encoder (swapEnabled this) t)))).

End Outcomes.

(** ** Induction on element trees *)

Fixpoint node_ind' (P : node -> Prop)
    (HElement : forall name attrs children,
        Forall P children -> P (Element name attrs children))
    (HText : forall content, P (Text content))
    (t : node) : P t :=
  match t with
  | Element name attrs children =>
      HElement name attrs children
        ((fix all (cs : list node) : Forall P cs :=
            match cs with
            | [] => Forall_nil P
            | c :: cs' => Forall_cons c (node_ind' P HElement HText c) (all cs')
            end) children)
  | Text content => HText content
  end.

(** ** Example inputs *)

Definition featuresTree : node :=
  Element "c" [("hash", "sha-1"); ("node", "x")]%string
    [Element "mechanism" [] [Text "PLAIN"];
     Element "sm" [("xmlns", "urn:xmpp:sm:3")%string] []].

Definition strayBuffer : XMLConverter :=
  newXMLConverter swapOff [x01; x61; x00; x05; x14; x00].

(** ** Notions for the further properties *)

(** The inverse transform [decodeString] applies to the payload. *)
Definition unswap (swap : bool) (bin : list byte) : list byte :=
  if swap then nibbleSwap bin else bin.

(** Children of one kind: none, one text node, or element nodes only, at
    every level of the tree. *)
Fixpoint homogeneous (t : node) : bool :=
  match t with
  | Text _ => false
  | Element _ _ children =>
      match children with
      | [] => true
      | [Text _] => true
      | _ =>
          forallb
            (fun c => match c with
                      | Element _ _ _ => homogeneous c
                      | Text _ => false
                      end)
            children
      end
  end.

(** The number of nodes and attributes of a tree. *)
Fixpoint weight (t : node) : nat :=
  match t with
  | Text _ => 1
  | Element _ attrs children =>
      S (List.length attrs + list_sum (map weight children))
  end.

(** ** Rendering and the entry points

    [elementToString], [decodeData], [domToJSObject] and [encodeXmlString].
    The XML parser and [String.prototype.trim] belong to the platform: the
    parsed document is an argument, and [trim] a parameter. *)

(** The double quote of [`${key}="${value}"`]. *)
Definition quote : string := String (ascii_of_nat 34) EmptyString.

Definition attrToString (kv : string * string) : string :=
  String.concat ""%string [fst kv; "="%string; quote; snd kv; quote].

(** [elementToString(element)]: the pieces pushed on [parts], joined.
    Reading [attrs.length] of an object without [attrs] raises a
    [TypeError]. *)
Fixpoint elementToString (element : node) : result string :=
  match element with
  | Text _ => Throw TypeError
  | Element name attrs children =>
      let opening :=
        ["<"%string; name] ++
        (if 0 <? JS.len attrs
         then [" "%string; String.concat " "%string (map attrToString attrs)]
         else []) ++
        [">"%string] in
      let* inner :=
        (fix loop (rest : list node) : result (list string) :=
           match rest with
           | [] => Ok []
           | child :: rest' =>
               if JS.truthy (nodeName child) then
                 let* s := elementToString child in
                 let* more := loop rest' in
                 Ok (s :: more)
               else
                 match nodeContent child with
                 | Some content =>
                     if JS.truthy (Some content)
                     then let* more := loop rest' in Ok (content :: more)
                     else loop rest'
                 | None => loop rest'
                 end
           end) children in
      Ok (String.concat ""%string
            (opening ++ inner ++ ["</"%string; name; ">"%string]))
  end.

(** The child loop of [elementToString], as a function of its own. *)
Fixpoint childrenToStrings (children : list node) : result (list string) :=
  match children with
  | [] => Ok []
  | child :: rest' =>
      if JS.truthy (nodeName child) then
        let* s := elementToString child in
        let* more := childrenToStrings rest' in
        Ok (s :: more)
      else
        match nodeContent child with
        | Some content =>
            if JS.truthy (Some content)
            then let* more := childrenToStrings rest' in Ok (content :: more)
            else childrenToStrings rest'
        | None => childrenToStrings rest'
        end
  end.

(** [decodeData(arrayBuffer)]. *)
Definition decodeData (decoder : list byte -> string) (arrayBuffer : list byte)
    : result string :=
  let* (decodedElement, _) :=
    decodeElement decoder (newXMLConverter converterOptions arrayBuffer) in
  elementToString decodedElement.

(** The nodes of a parsed document, as far as [domToJSObject] reads them:
    an element ([nodeType] 1) with its [nodeName], [attributes] and
    [childNodes], a text node ([nodeType] 3) with its [nodeValue], and any
    other node (comment, processing instruction, CDATA section). *)
#[warnings="-register-all"]
Inductive domNode : Type :=
| DomElement (nodeName : string) (attributes : list (string * string))
             (childNodes : list domNode)
| DomText (nodeValue : string)
| DomOther.
Arguments DomElement nodeName%_string attributes childNodes.
Arguments DomText nodeValue%_string.

Definition isDomElement (d : domNode) : bool :=
  match d with
  | DomElement _ _ _ => true
  | _ => false
  end.

(** Every text node of a tree satisfies [p]. *)
Fixpoint textsSatisfy (p : string -> bool) (t : node) : bool :=
  match t with
  | Text content => p content
  | Element _ _ children => forallb (textsSatisfy p) children
  end.

Section EntryPoints.

Variable trim : string -> string.
Variable encoder : string -> list byte.

(** [domToJSObject(domElement)], for a node that is not [null].  On a node
    without [attributes], [Array.from] raises a [TypeError]. *)
Fixpoint domToJSObject (domElement : domNode) : result node :=
  match domElement with
  | DomElement name attributes childNodes =>
      let* children :=
        (fix loop (rest : list domNode) : result (list node) :=
           match rest with
           | [] => Ok []
           | child :: rest' =>
               match child with
               | DomElement _ _ _ =>
                   let* c := domToJSObject child in
                   let* more := loop rest' in
                   Ok (c :: more)
               | DomText nodeValue =>
                   if JS.truthy (Some (trim nodeValue))
                   then let* more := loop rest' in Ok (Text nodeValue :: more)
                   else loop rest'
               | DomOther => loop rest'
               end
           end) childNodes in
      Ok (Element name attributes children)
  | DomText _ => Throw TypeError
  | DomOther => Throw TypeError
  end.

(** The [forEach] over [childNodes], as a function of its own. *)
Fixpoint domChildren (childNodes : list domNode) : result (list node) :=
  match childNodes with
  | [] => Ok []
  | child :: rest' =>
      match child with
      | DomElement _ _ _ =>
          let* c := domToJSObject child in
          let* more := domChildren rest' in
          Ok (c :: more)
      | DomText nodeValue =>
          if JS.truthy (Some (trim nodeValue))
          then let* more := domChildren rest' in Ok (Text nodeValue :: more)
          else domChildren rest'
      | DomOther => domChildren rest'
      end
  end.

(** [encodeXmlString(xmlString)], from the parsed [documentElement] on. *)
Definition encodeXmlString (documentElement : domNode) : result (list byte) :=
  let* domObject := domToJSObject documentElement in
  encodeTree encoder converterOptions domObject.

End EntryPoints.

(** A [trim] for 7-bit text: it removes the blanks, tabs and line ends at
    the two ends of the string. *)
Definition isBlank (c : ascii) : bool :=
  let n := nat_of_ascii c in
  ((9 <=? n) && (n <=? 13))%nat || (n =? 32)%nat.

Fixpoint trimStart (s : string) : string :=
  match s with
  | EmptyString => EmptyString
  | String c s' => if isBlank c then trimStart s' else s
  end.

Fixpoint reverse (s : string) : string :=
  match s with
  | EmptyString => EmptyString
  | String c s' => String.append (reverse s') (String c EmptyString)
  end.

Definition asciiTrim (s : string) : string :=
  reverse (trimStart (reverse (trimStart s))).

Fixpoint domNode_ind' (P : domNode -> Prop)
    (HElement : forall name attributes childNodes,
        Forall P childNodes -> P (DomElement name attributes childNodes))
    (HText : forall nodeValue, P (DomText nodeValue))
    (HOther : P DomOther)
    (d : domNode) : P d :=
  match d with
  | DomElement name attributes childNodes =>
      HElement name attributes childNodes
        ((fix all (cs : list domNode) : Forall P cs :=
            match cs with
            | [] => Forall_nil P
            | c :: cs' =>
                Forall_cons c (domNode_ind' P HElement HText HOther c) (all cs')
            end) childNodes)
  | DomText nodeValue => HText nodeValue
  | DomOther => HOther
  end.

(** An outcome that leaves the buffer empty: a value, no error. *)
Definition emptied {A} (r : result (A * XMLConverter)) : Prop :=
  match r with
  | Ok (_, this') => binaryData this' = []
  | Throw _ => False
  | OutOfFuel => True
  end.

(** The outcome of decoding the first [k] bytes of the layout of [t] when
    the cut is inside the text payload that ends the layout: a value. *)
Definition cutsSilently (encoder : string -> list byte)
    (decoder : list byte -> string) (t : node) : Prop :=
  forall (fuel : nat) (this : XMLConverter) (k : nat),
    wellFormed encoder decoder t = true ->
    (List.length (wireElement encoder (swapEnabled this) t)
     - trailing encoder t <= k)%nat ->
    (k < List.length (wireElement encoder (swapEnabled this) t))%nat ->
    emptied
      (decodeElementFuel decoder fuel
         (setBinaryData this
            (firstn k (wireElement encoder (swapEnabled this) t)))).

(** * Properties *)

(** ** Numbers and bytes *)

Lemma toInt32_small (z : Z) : - 2 ^ 31 <= z < 2 ^ 31 -> JS.toInt32 z = z.
Proof.
  intros H. unfold JS.toInt32. rewrite Z.mod_small; lia.
Qed.

Lemma ofByte_range (b : byte) : 0 <= JS.ofByte b < 256.
Proof.
  unfold JS.ofByte. pose proof (Byte.to_N_bounded b). lia.
Qed.

Lemma ofByte_toUint8 (z : Z) : JS.ofByte (JS.toUint8 z) = z mod 256.
Proof.
  unfold JS.ofByte, JS.toUint8.
  pose proof (Z.mod_pos_bound z 256 ltac:(lia)) as Hr.
  destruct (Byte.of_N (Z.to_N (z mod 256))) as [b|] eqn:E.
  - apply Byte.to_of_N in E. rewrite E. lia.
  - apply Byte.of_N_None_iff in E. lia.
Qed.

Lemma toUint8_ofByte (b : byte) : JS.toUint8 (JS.ofByte b) = b.
Proof.
  unfold JS.toUint8, JS.ofByte.
  pose proof (Byte.to_N_bounded b).
  rewrite Z.mod_small by lia.
  rewrite N2Z.id, Byte.of_to_N. reflexivity.
Qed.

Lemma ofByte_inj (a b : byte) : JS.ofByte a = JS.ofByte b -> a = b.
Proof.
  intros H. rewrite <- (toUint8_ofByte a), <- (toUint8_ofByte b), H. reflexivity.
Qed.

Lemma and_7f (n : Z) : 0 <= n < 2 ^ 31 -> JS.and n 0x7f = n mod 128.
Proof.
  intros H. unfold JS.and.
  rewrite (toInt32_small n) by lia.
  rewrite (toInt32_small 127) by lia.
  change 127 with (Z.ones 7). rewrite Z.land_ones by lia.
  change (2 ^ 7) with 128.
  pose proof (Z.mod_pos_bound n 128 ltac:(lia)).
  apply toInt32_small. lia.
Qed.

Lemma ushr_7 (n : Z) : 0 <= n < 2 ^ 32 -> JS.ushr n 7 = n / 128.
Proof.
  intros H. unfold JS.ushr, JS.toUint32.
  rewrite Z.mod_small by lia.
  change (Z.land 7 31) with 7.
  rewrite Z.shiftr_div_pow2 by lia. reflexivity.
Qed.

Lemma land_shiftl_low (a b s : Z) :
  0 <= s -> 0 <= a < 2 ^ s -> Z.land a (Z.shiftl b s) = 0.
Proof.
  intros Hs Ha. apply Z.bits_inj'. intros i Hi.
  rewrite Z.land_spec, Z.bits_0.
  destruct (Z.lt_ge_cases i s) as [Hlt|Hge].
  - rewrite Z.shiftl_spec_low by lia. apply andb_false_r.
  - destruct (Z.eq_dec a 0) as [->|Hne].
    + rewrite Z.bits_0. reflexivity.
    + rewrite Z.bits_above_log2; [reflexivity | lia |].
      apply Z.log2_lt_pow2; [lia|].
      apply Z.lt_le_trans with (2 ^ s); [lia|].
      apply Z.pow_le_mono_r; lia.
Qed.

Lemma lor_shiftl_low (a b s : Z) :
  0 <= s -> 0 <= a < 2 ^ s -> Z.lor a (Z.shiftl b s) = a + b * 2 ^ s.
Proof.
  intros Hs Ha.
  pose proof (Z.add_lor_land a (Z.shiftl b s)) as H.
  rewrite land_shiftl_low in H by assumption.
  rewrite Z.shiftl_mul_pow2 in * by lia. lia.
Qed.

Lemma or_80 (m : Z) : 0 <= m < 128 -> JS.or m 0x80 = m + 128.
Proof.
  intros H. unfold JS.or.
  rewrite (toInt32_small m) by lia.
  rewrite (toInt32_small 128) by lia.
  change 128 with (Z.shiftl 1 7) at 1.
  rewrite lor_shiftl_low by (simpl; lia).
  change (1 * 2 ^ 7) with 128. apply toInt32_small. lia.
Qed.

Lemma or_shl (acc m shift : Z) :
  0 <= shift < 32 -> 0 <= acc < 2 ^ shift -> 0 <= m ->
  m * 2 ^ shift < 2 ^ 31 -> acc + m * 2 ^ shift < 2 ^ 31 ->
  JS.or acc (JS.shl m shift) = acc + m * 2 ^ shift.
Proof.
  intros Hs Ha Hm Hb Hsum.
  assert (Hp : 0 < 2 ^ shift) by (apply Z.pow_pos_nonneg; lia).
  assert (Hm31 : m < 2 ^ 31) by nia.
  unfold JS.or, JS.shl.
  rewrite (toInt32_small acc) by lia.
  rewrite (toInt32_small m) by lia.
  replace (Z.land shift 31) with shift.
  2:{ change 31 with (Z.ones 5). rewrite Z.land_ones by lia.
      rewrite Z.mod_small; [reflexivity | simpl; lia]. }
  assert (Hshl : Z.shiftl m shift = m * 2 ^ shift)
    by (apply Z.shiftl_mul_pow2; lia).
  rewrite (toInt32_small (Z.shiftl m shift)) by (rewrite Hshl; nia).
  rewrite (toInt32_small (Z.shiftl m shift)) by (rewrite Hshl; nia).
  rewrite lor_shiftl_low by lia.
  apply toInt32_small. nia.
Qed.

(** What a byte tells the decoder: its seven data bits and whether the
    continuation bit is set. *)
Lemma byte_and_7f (b : byte) : JS.and (JS.ofByte b) 0x7f = JS.ofByte b mod 128.
Proof.
  apply and_7f. pose proof (ofByte_range b). lia.
Qed.

Lemma byte_and_80 (b : byte) :
  (JS.and (JS.ofByte b) 0x80 =? 0) = (JS.ofByte b <? 128).
Proof.
  destruct b; reflexivity.
Qed.

(** ** Slices *)

Lemma slice_from_nat {A} (l : list A) (k : nat) :
  JS.slice l (Z.of_nat k) None = skipn k l.
Proof.
  unfold JS.slice, JS.relIndex, JS.len.
  destruct (Z.ltb_spec (Z.of_nat k) 0) as [Hneg|_]; [lia|].
  destruct (Nat.le_gt_cases k (List.length l)) as [Hle|Hgt].
  - rewrite Z.min_l by lia. rewrite Nat2Z.id.
    apply firstn_all2. rewrite length_skipn. lia.
  - rewrite Z.min_r by lia. rewrite Nat2Z.id.
    rewrite (skipn_all2 l (n := List.length l)) by lia.
    rewrite (skipn_all2 l (n := k)) by lia.
    apply firstn_nil.
Qed.

Lemma slice_from {A} (l : list A) (s : Z) :
  0 <= s -> JS.slice l s None = skipn (Z.to_nat s) l.
Proof.
  intros H. rewrite <- (Z2Nat.id s) at 1 by assumption. apply slice_from_nat.
Qed.

Lemma slice_to {A} (l : list A) (e : Z) :
  0 <= e -> JS.slice l 0 (Some e) = firstn (Z.to_nat e) l.
Proof.
  intros H. unfold JS.slice, JS.relIndex, JS.len. simpl (0 <? 0).
  destruct (Z.ltb_spec e 0) as [Hneg|_]; [lia|].
  rewrite (Z.min_l 0) by lia. simpl (skipn _ _). rewrite Z.sub_0_r.
  destruct (Z.le_gt_cases e (Z.of_nat (List.length l))) as [Hle|Hgt].
  - rewrite Z.min_l by lia. rewrite Z.max_l by lia. reflexivity.
  - rewrite Z.min_r by lia. rewrite Z.max_l by lia. rewrite Nat2Z.id.
    rewrite firstn_all. symmetry. apply firstn_all2. lia.
Qed.

Lemma slice_length {A} (l : list A) (s : Z) (e : option Z) :
  (List.length (JS.slice l s e) <= List.length l)%nat.
Proof.
  unfold JS.slice. rewrite length_firstn, length_skipn. lia.
Qed.

Lemma firstn_skipn_app {A} (a r : list A) :
  firstn (List.length a) (a ++ r) = a /\ skipn (List.length a) (a ++ r) = r.
Proof.
  split.
  - rewrite firstn_app, Nat.sub_diag, firstn_all. simpl. apply app_nil_r.
  - rewrite skipn_app, Nat.sub_diag, skipn_all. reflexivity.
Qed.

(** ** The lookup tables *)

Lemma nibbleSwap_involutive (b : byte) :
  lookup nibbleSwapTable (lookup nibbleSwapTable b) = b.
Proof.
  destruct b; vm_compute; reflexivity.
Qed.

Lemma adjacentBitSwap_involutive (b : byte) :
  lookup adjacentBitSwapTable (lookup adjacentBitSwapTable b) = b.
Proof.
  destruct b; vm_compute; reflexivity.
Qed.

Lemma involutive_bijective (f : byte -> byte) :
  (forall b, f (f b) = b) ->
  (forall a b, f a = f b -> a = b) /\ (forall b, exists a, f a = b).
Proof.
  intros Hinv. split.
  - intros a b H. rewrite <- (Hinv a), <- (Hinv b), H. reflexivity.
  - intros b. exists (f b). apply Hinv.
Qed.

Lemma nibbleSwap_nibbleSwap (bin : list byte) : nibbleSwap (nibbleSwap bin) = bin.
Proof.
  unfold nibbleSwap. rewrite map_map.
  rewrite <- (map_id bin) at 2. apply map_ext. apply nibbleSwap_involutive.
Qed.

Lemma nibbleSwap_length (bin : list byte) :
  List.length (nibbleSwap bin) = List.length bin.
Proof.
  apply length_map.
Qed.

(** C5.  Each of the two 256-entry lookup tables is a self-inverse
    permutation of the byte values: looking a byte up twice gives the byte
    back, and the lookup is a bijection on the bytes (no two bytes share an
    entry, and every byte is an entry).  The nibble-swap entry of [i] is
    the byte with the two halves of [i] exchanged. *)
Theorem lookup_tables_self_inverse :
  (List.length nibbleSwapTable = 256%nat /\
   List.length adjacentBitSwapTable = 256%nat) /\
  (forall b, lookup nibbleSwapTable (lookup nibbleSwapTable b) = b) /\
  (forall b, lookup adjacentBitSwapTable (lookup adjacentBitSwapTable b) = b) /\
  ((forall a b, lookup nibbleSwapTable a = lookup nibbleSwapTable b -> a = b) /\
   (forall b, exists a, lookup nibbleSwapTable a = b)) /\
  ((forall a b,
      lookup adjacentBitSwapTable a = lookup adjacentBitSwapTable b -> a = b) /\
   (forall b, exists a, lookup adjacentBitSwapTable a = b)) /\
  (forall i, 0 <= i < 256 ->
     nth (Z.to_nat i) nibbleSwapTable x00 = JS.toUint8 (i mod 16 * 16 + i / 16)).
Proof.
  split; [split; reflexivity|].
  split; [exact nibbleSwap_involutive|].
  split; [exact adjacentBitSwap_involutive|].
  split; [apply involutive_bijective, nibbleSwap_involutive|].
  split; [apply involutive_bijective, adjacentBitSwap_involutive|].
  intros i Hi.
  rewrite <- (toUint8_ofByte (nth (Z.to_nat i) nibbleSwapTable x00)).
  assert (Hb : exists b, i = JS.ofByte b).
  { exists (JS.toUint8 i). rewrite ofByte_toUint8, Z.mod_small; lia. }
  destruct Hb as [b ->]. clear Hi. destruct b; vm_compute; reflexivity.
Qed.

(** ** The variable-length integers *)

Lemma encodeNumberLoop_step (room : nat) (n : Z) :
  0 <= n < 2 ^ 31 ->
  encodeNumberLoop (S room) n =
  varintByte n :: (if 0 <? n / 128 then encodeNumberLoop room (n / 128) else []).
Proof.
  intros H. simpl. rewrite ushr_7 by lia. rewrite and_7f by lia.
  unfold varintByte.
  pose proof (Z.mod_pos_bound n 128 ltac:(lia)).
  destruct (0 <? n / 128); [rewrite or_80 by lia|]; reflexivity.
Qed.

Lemma ofByte_varintByte (n : Z) :
  0 <= n ->
  JS.ofByte (varintByte n) = if 0 <? n / 128 then n mod 128 + 128 else n mod 128.
Proof.
  intros H. unfold varintByte. rewrite ofByte_toUint8.
  pose proof (Z.mod_pos_bound n 128 ltac:(lia)).
  destruct (0 <? n / 128); apply Z.mod_small; lia.
Qed.

Lemma get_app_length (pre : list byte) (b : byte) (rest : list byte) :
  JS.get (pre ++ b :: rest) (List.length pre) = Some (JS.ofByte b).
Proof.
  unfold JS.get. rewrite nth_error_app2 by lia.
  rewrite Nat.sub_diag. reflexivity.
Qed.

Lemma encodeNumberLoop_nonempty (room : nat) (n : Z) :
  encodeNumberLoop (S room) n <> [].
Proof.
  simpl. discriminate.
Qed.

Lemma add_below_pow2 (acc n shift : Z) :
  0 <= shift <= 31 -> 0 <= acc < 2 ^ shift -> 0 <= n ->
  n * 2 ^ shift < 2 ^ 31 -> acc + n * 2 ^ shift < 2 ^ 31.
Proof.
  intros Hs Ha Hn Hb.
  assert (Hsplit : 2 ^ 31 = 2 ^ (31 - shift) * 2 ^ shift).
  { rewrite <- Z.pow_add_r by lia. f_equal. lia. }
  assert (Hp : 0 < 2 ^ shift) by (apply Z.pow_pos_nonneg; lia).
  assert (Hlt : n < 2 ^ (31 - shift)) by nia.
  nia.
Qed.

(** The decoding loop reads back what the encoding loop wrote: with [acc]
    the bits already read and [shift] their number. *)
Lemma decodeNumberLoop_encodeNumberLoop (room : nat) :
  forall (n acc shift : Z) (pre rest : list byte),
    0 < n -> n < 2 ^ (7 * Z.of_nat room) ->
    0 <= shift -> n * 2 ^ shift < 2 ^ 31 -> 0 <= acc < 2 ^ shift ->
    decodeNumberLoop room (pre ++ encodeNumberLoop room n ++ rest)
                     acc shift (List.length pre)
    = Ok (acc + n * 2 ^ shift,
          (List.length pre + List.length (encodeNumberLoop room n))%nat).
Proof.
  induction room as [|room IH]; intros n acc shift pre rest Hn Hroom Hs Hb Ha.
  - simpl in Hroom. lia.
  - assert (Hp : 0 < 2 ^ shift) by (apply Z.pow_pos_nonneg; lia).
    assert (Hn31 : n < 2 ^ 31) by nia.
    assert (Hs31 : shift < 31).
    { destruct (Z.lt_ge_cases shift 31) as [|Hge]; [assumption|].
      assert (2 ^ 31 <= 2 ^ shift) by (apply Z.pow_le_mono_r; lia). nia. }
    rewrite encodeNumberLoop_step by lia.
    cbn [app decodeNumberLoop]. rewrite get_app_length.
    rewrite byte_and_7f, byte_and_80, ofByte_varintByte by lia.
    pose proof (Z.mod_pos_bound n 128 ltac:(lia)) as Hm.
    pose proof (Z.div_mod n 128 ltac:(lia)) as Hdm.
    assert (Hq : 0 <= n / 128) by (apply Z.div_pos; lia).
    destruct (Z.ltb_spec 0 (n / 128)) as [Hmore|Hlast].
    + replace ((n mod 128 + 128) mod 128) with (n mod 128).
      2:{ replace (n mod 128 + 128) with (n mod 128 + 1 * 128) by lia.
          rewrite Z.mod_add by lia. rewrite Z.mod_mod by lia. reflexivity. }
      destruct (Z.ltb_spec (n mod 128 + 128) 128) as [|_]; [lia|].
      assert (Hpow : 2 ^ (shift + 7) = 2 ^ shift * 128).
      { rewrite Z.pow_add_r by lia. reflexivity. }
      assert (Hs24 : shift + 7 < 32).
      { destruct (Z.lt_ge_cases (shift + 7) 32) as [|Hge]; [assumption|].
        assert (2 ^ 25 <= 2 ^ shift) by (apply Z.pow_le_mono_r; lia).
        assert (128 <= n) by lia. nia. }
      destruct (Z.ltb_spec (shift + 7) 32) as [_|]; [|lia].
      rewrite or_shl by nia.
      replace (pre ++ varintByte n :: encodeNumberLoop room (n / 128) ++ rest)
        with ((pre ++ [varintByte n]) ++ encodeNumberLoop room (n / 128) ++ rest)
        by (rewrite <- app_assoc; reflexivity).
      replace (S (List.length pre)) with (List.length (pre ++ [varintByte n]))
        by (rewrite length_app; simpl; lia).
      rewrite IH.
      * f_equal. f_equal.
        -- rewrite Hpow. nia.
        -- rewrite length_app. simpl. lia.
      * assumption.
      * replace (7 * Z.of_nat (S room)) with (7 * Z.of_nat room + 7) in Hroom by lia.
        rewrite Z.pow_add_r in Hroom by lia. change (2 ^ 7) with 128 in Hroom.
        assert (0 < 2 ^ (7 * Z.of_nat room)) by (apply Z.pow_pos_nonneg; lia).
        apply Z.div_lt_upper_bound; lia.
      * lia.
      * rewrite Hpow. nia.
      * rewrite Hpow. nia.
    + assert (Hq0 : n / 128 = 0) by lia.
      assert (Hsmall : n mod 128 = n) by lia.
      rewrite Z.mod_mod by lia. rewrite Hsmall.
      destruct (Z.ltb_spec n 128) as [_|]; [|lia].
      pose proof (add_below_pow2 acc n shift ltac:(lia) Ha ltac:(lia) Hb).
      rewrite or_shl by lia.
      f_equal. f_equal. simpl. lia.
Qed.

Lemma setBinaryData_binaryData (this : XMLConverter) (bin : list byte) :
  binaryData (setBinaryData this bin) = bin.
Proof. reflexivity. Qed.

Lemma setBinaryData_twice (this : XMLConverter) (a b : list byte) :
  setBinaryData (setBinaryData this a) b = setBinaryData this b.
Proof. reflexivity. Qed.

Lemma setBinaryData_same (this : XMLConverter) :
  setBinaryData this (binaryData this) = this.
Proof. destruct this; reflexivity. Qed.

Lemma encodeNumber_length (n : Z) : (1 <= List.length (encodeNumber n))%nat.
Proof.
  unfold encodeNumber. destruct (n =? 0); [simpl; lia|].
  destruct (encodeNumberLoop 5 n) eqn:E; [|simpl; lia].
  exfalso. revert E. apply encodeNumberLoop_nonempty.
Qed.

(** A number below 2^31 is read back, and exactly its bytes are consumed. *)
Lemma decodeNumber_encodeNumber (this : XMLConverter) (n : Z) (rest : list byte) :
  0 <= n < 2 ^ 31 ->
  decodeNumber (setBinaryData this (encodeNumber n ++ rest))
  = Ok (n, setBinaryData this rest).
Proof.
  intros Hn. unfold decodeNumber, encodeNumber.
  rewrite setBinaryData_binaryData.
  destruct (Z.eqb_spec n 0) as [->|Hne].
  - cbn [app JS.get nth_error option_map JS.isZero].
    change (JS.ofByte x00 =? 0) with true. cbn iota.
    change 1 with (Z.of_nat 1). rewrite slice_from_nat. reflexivity.
  - assert (Hfirst : JS.isZero (JS.get (encodeNumberLoop 5 n ++ rest) 0) = false).
    { rewrite encodeNumberLoop_step by lia.
      cbn [app JS.get nth_error option_map JS.isZero].
      rewrite ofByte_varintByte by lia.
      pose proof (Z.mod_pos_bound n 128 ltac:(lia)).
      pose proof (Z.div_mod n 128 ltac:(lia)).
      destruct (Z.ltb_spec 0 (n / 128)); apply Z.eqb_neq; lia. }
    rewrite Hfirst.
    pose proof (decodeNumberLoop_encodeNumberLoop 5 n 0 0 [] rest) as Hloop.
    cbn [app List.length] in Hloop.
    rewrite Hloop by (change (7 * Z.of_nat 5) with 35; lia).
    cbn [bind]. rewrite slice_from_nat.
    rewrite Nat.add_0_l.
    rewrite (proj2 (firstn_skipn_app _ _)), setBinaryData_twice.
    f_equal. f_equal. lia.
Qed.

(** C3.  For every [n] in [0, 2^28), [decodeNumber] on a buffer that holds
    exactly [encodeNumber n] returns [n] and leaves the buffer empty; and
    [encodeNumber] gives [00] for 0, [7F] for 127 and [80 01] for 128. *)
Theorem varint_correct (this : XMLConverter) (n : Z) :
  0 <= n < 2 ^ 28 ->
  decodeNumber (setBinaryData this (encodeNumber n))
  = Ok (n, setBinaryData this []) /\
  encodeNumber 0 = [x00] /\
  encodeNumber 127 = [x7f] /\
  encodeNumber 128 = [x80; x01].
Proof.
  intros Hn. split; [|repeat split; reflexivity].
  rewrite <- (app_nil_r (encodeNumber n)).
  apply decodeNumber_encodeNumber. lia.
Qed.

Lemma varint_correct_witness :
  decodeNumber (setBinaryData (newXMLConverter converterOptions []) (encodeNumber 300))
  = Ok (300, setBinaryData (newXMLConverter converterOptions []) []).
Proof.
  apply (varint_correct (newXMLConverter converterOptions []) 300). lia.
Defined.

Lemma get_lt (bin : list byte) (i : nat) :
  (i < List.length bin)%nat -> exists b, nth_error bin i = Some b /\ In b bin.
Proof.
  intros H. destruct (nth_error bin i) as [b|] eqn:E.
  - exists b. split; [reflexivity|]. eapply nth_error_In; eassumption.
  - apply nth_error_None in E. lia.
Qed.

Lemma decodeNumberLoop_exhausted (fuel : nat) :
  forall (bin : list byte) (number shift : Z) (currentIndex : nat),
    Forall (fun b => continues b = true) bin ->
    (currentIndex <= List.length bin)%nat ->
    (List.length bin - currentIndex < fuel)%nat ->
    shift + 7 * Z.of_nat (List.length bin - currentIndex) < 32 ->
    decodeNumberLoop fuel bin number shift currentIndex = Throw IncompleteNumber.
Proof.
  induction fuel as [|fuel IH]; intros bin number shift idx Hall Hidx Hfuel Hshift.
  - lia.
  - cbn [decodeNumberLoop]. unfold JS.get.
    destruct (Nat.eq_dec idx (List.length bin)) as [->|Hne].
    + rewrite (proj2 (nth_error_None bin (List.length bin))) by lia. reflexivity.
    + destruct (get_lt bin idx ltac:(lia)) as [b [Hb Hin]].
      rewrite Hb. cbn [option_map].
      pose proof (proj1 (Forall_forall _ bin) Hall b Hin) as Hcont.
      unfold continues in Hcont. apply negb_true_iff in Hcont. rewrite Hcont.
      destruct (Z.ltb_spec (shift + 7) 32) as [_|]; [|lia].
      apply IH; try assumption; lia.
Qed.

Lemma continues_not_zero (b : byte) : continues b = true -> JS.ofByte b <> 0.
Proof.
  unfold continues. rewrite byte_and_80. intros H.
  apply negb_true_iff in H. apply Z.ltb_ge in H. lia.
Qed.

Lemma decodeNumber_exhausted (this : XMLConverter) :
  Forall (fun b => continues b = true) (binaryData this) ->
  (List.length (binaryData this) < 5)%nat ->
  decodeNumber this = Throw IncompleteNumber.
Proof.
  intros Hall Hlen. unfold decodeNumber.
  assert (Hfirst : JS.isZero (JS.get (binaryData this) 0) = false).
  { destruct (binaryData this) as [|b bin]; [reflexivity|].
    cbn [JS.get nth_error option_map JS.isZero].
    apply Z.eqb_neq, continues_not_zero.
    inversion Hall; assumption. }
  rewrite Hfirst.
  rewrite decodeNumberLoop_exhausted; [reflexivity | assumption | lia | lia | lia].
Qed.

(** C7.  [decodeNumber] on an empty buffer raises the incomplete-number
    error instead of returning 0; and so it does on every buffer of fewer
    than five bytes (the rounds the shift bound allows) whose bytes all have
    the continuation bit set. *)
Theorem decodeNumber_incomplete (this : XMLConverter) (bin : list byte) :
  Forall (fun b => continues b = true) bin ->
  (List.length bin < 5)%nat ->
  decodeNumber (setBinaryData this []) = Throw IncompleteNumber /\
  decodeNumber (setBinaryData this bin) = Throw IncompleteNumber.
Proof.
  intros Hall Hlen. split.
  - apply decodeNumber_exhausted; simpl; [constructor | lia].
  - apply decodeNumber_exhausted; rewrite setBinaryData_binaryData; assumption.
Qed.

Lemma decodeNumber_incomplete_witness :
  decodeNumber (setBinaryData (newXMLConverter converterOptions []) [])
  = Throw IncompleteNumber /\
  decodeNumber (setBinaryData (newXMLConverter converterOptions []) [x80; xff; x81])
  = Throw IncompleteNumber.
Proof.
  apply (decodeNumber_incomplete (newXMLConverter converterOptions []) [x80; xff; x81]).
  - repeat constructor.
  - simpl. lia.
Defined.

(** ** The encoder appends the byte layout *)

Lemma setAccumulator_twice (this : XMLConverter) (a b : list byte) :
  setAccumulator (setAccumulator this a) b = setAccumulator this b.
Proof. reflexivity. Qed.

Lemma setAccumulator_same (this : XMLConverter) :
  setAccumulator this (accumulator this) = this.
Proof. destruct this; reflexivity. Qed.

Lemma addToAcc_app (array : list byte) (this : XMLConverter) :
  addToAcc array this = setAccumulator this (accumulator this ++ array).
Proof.
  unfold addToAcc, JS.len.
  destruct array as [|b array].
  - simpl. rewrite app_nil_r. symmetry. apply setAccumulator_same.
  - destruct (Z.eqb_spec (Z.of_nat (List.length (b :: array))) 0) as [H|_];
      [simpl in H; lia|].
    destruct (accumulator this) as [|a acc] eqn:E; [reflexivity|].
    destruct (Z.eqb_spec (Z.of_nat (List.length (a :: acc))) 0) as [H|_];
      [simpl in H; lia|].
    reflexivity.
Qed.

Lemma encodeNumberAddtoAcc_app (n : Z) (this : XMLConverter) :
  encodeNumberAddtoAcc n this
  = setAccumulator this (accumulator this ++ encodeNumber n).
Proof.
  unfold encodeNumberAddtoAcc, encodeNumber.
  destruct (n =? 0); apply addToAcc_app.
Qed.

Section WireFormat.

Variable encoder : string -> list byte.
Variable decoder : list byte -> string.

Lemma encodeStringAddToAcc_app (s : string) (isFixed : bool) (this : XMLConverter) :
  encodeStringAddToAcc encoder s isFixed this
  = setAccumulator this
      (accumulator this ++ wireString encoder (swapEnabled this) s).
Proof.
  unfold encodeStringAddToAcc, wireString, payload.
  rewrite addToAcc_app, encodeNumberAddtoAcc_app.
  rewrite setAccumulator_twice. cbn [accumulator setAccumulator].
  rewrite <- app_assoc. destruct (swapEnabled this); reflexivity.
Qed.

Lemma encodeAttrs_app (attrs : list (string * string)) :
  forall this,
    encodeAttrs encoder attrs this
    = setAccumulator this
        (accumulator this ++ wireAttrs encoder (swapEnabled this) attrs).
Proof.
  unfold encodeAttrs, wireAttrs.
  induction attrs as [|kv attrs IH]; intros this.
  - simpl. rewrite app_nil_r. symmetry. apply setAccumulator_same.
  - cbn [fold_left flat_map]. rewrite IH.
    rewrite !encodeStringAddToAcc_app.
    cbn [accumulator setAccumulator swapEnabled]. unfold wireAttr.
    rewrite <- !app_assoc. reflexivity.
Qed.

Lemma encodeElement_unfold (name : string) (attrs : list (string * string))
    (children : list node) (this : XMLConverter) :
  encodeElement encoder (Element name attrs children) this
  = let this := encodeStringAddToAcc encoder name true this in
    let this := encodeNumberAddtoAcc (JS.len attrs) this in
    let this :=
      if 0 <? JS.len attrs then encodeAttrs encoder attrs this else this in
    match children with
    | [] => Ok (encodeNumberAddtoAcc 0 (encodeNumberAddtoAcc IS_ELEMENT this))
    | first :: _ =>
        let childrenType :=
          if JS.truthy (nodeName first) then IS_ELEMENT else IS_CONTENT in
        let this := encodeNumberAddtoAcc childrenType this in
        let this :=
          if childrenType =? IS_ELEMENT
          then encodeNumberAddtoAcc (JS.len children) this
          else this in
        encodeChildren encoder children this
    end.
Proof.
  destruct children; reflexivity.
Qed.

Lemma wireElement_unfold (swap : bool) (name : string)
    (attrs : list (string * string)) (children : list node) :
  wireElement encoder swap (Element name attrs children)
  = wireHeader encoder swap name attrs ++
    match children with
    | [] => encodeNumber IS_ELEMENT ++ encodeNumber 0
    | first :: _ =>
        (if JS.truthy (nodeName first)
         then encodeNumber IS_ELEMENT ++ encodeNumber (JS.len children)
         else encodeNumber IS_CONTENT) ++
        flat_map (wireChild encoder swap) children
    end.
Proof.
  unfold wireHeader. cbn [wireElement]. rewrite <- !app_assoc.
  destruct children; reflexivity.
Qed.

(** The name, the attribute count and the attributes. *)
Lemma encodeHeader_app (name : string) (attrs : list (string * string))
    (this : XMLConverter) :
  (let this := encodeStringAddToAcc encoder name true this in
   let this := encodeNumberAddtoAcc (JS.len attrs) this in
   if 0 <? JS.len attrs then encodeAttrs encoder attrs this else this)
  = setAccumulator this
      (accumulator this ++ wireHeader encoder (swapEnabled this) name attrs).
Proof.
  cbv zeta. unfold wireHeader.
  rewrite encodeStringAddToAcc_app.
  destruct attrs as [|kv attrs].
  - change (0 <? JS.len []) with false. cbv iota.
    rewrite encodeNumberAddtoAcc_app.
    cbn [accumulator setAccumulator wireAttrs flat_map].
    rewrite app_nil_r, <- app_assoc. reflexivity.
  - replace (0 <? JS.len (kv :: attrs)) with true
      by (symmetry; apply Z.ltb_lt; unfold JS.len; simpl; lia).
    rewrite encodeAttrs_app, encodeNumberAddtoAcc_app.
    cbn [accumulator setAccumulator swapEnabled].
    rewrite <- !app_assoc. reflexivity.
Qed.

Lemma encodeChildren_app (children : list node) :
  Forall (fun c => forall this, isElement c = true ->
            encodeElement encoder c this
            = Ok (setAccumulator this
                    (accumulator this ++ wireElement encoder (swapEnabled this) c)))
         children ->
  forall this,
    encodeChildren encoder children this
    = Ok (setAccumulator this
            (accumulator this ++
             flat_map (wireChild encoder (swapEnabled this)) children)).
Proof.
  induction 1 as [|c cs Hc _ IH]; intros this.
  - simpl. rewrite app_nil_r, setAccumulator_same. reflexivity.
  - cbn [encodeChildren flat_map]. unfold wireChild at 1.
    destruct c as [name attrs children|content].
    + cbn [nodeName nodeContent].
      destruct (JS.truthy (Some name)).
      * rewrite Hc by reflexivity. cbn [bind]. rewrite IH.
        cbn [accumulator setAccumulator swapEnabled].
        rewrite <- app_assoc. reflexivity.
      * rewrite IH. reflexivity.
    + cbn [nodeName nodeContent JS.truthy].
      destruct (JS.truthy (Some content)) eqn:E.
      * cbn [JS.truthy] in E. rewrite E.
        rewrite IH, encodeStringAddToAcc_app.
        cbn [accumulator setAccumulator swapEnabled].
        rewrite <- app_assoc. reflexivity.
      * cbn [JS.truthy] in E. rewrite E. rewrite IH. reflexivity.
Qed.

(** [encodeElement] on an element never throws, and appends
    [wireElement] to the accumulator. *)
Lemma encodeElement_app (t : node) :
  forall this, isElement t = true ->
    encodeElement encoder t this
    = Ok (setAccumulator this
            (accumulator this ++ wireElement encoder (swapEnabled this) t)).
Proof.
  induction t as [name attrs children IH|content] using node_ind';
    intros this Helem; [|discriminate].
  rewrite encodeElement_unfold, wireElement_unfold.
  cbv zeta. rewrite encodeHeader_app.
  destruct children as [|first rest].
  - rewrite !encodeNumberAddtoAcc_app.
    cbn [accumulator setAccumulator]. rewrite <- !app_assoc. reflexivity.
  - destruct (JS.truthy (nodeName first)).
    + change (IS_ELEMENT =? IS_ELEMENT) with true. cbv iota.
      rewrite encodeChildren_app by assumption.
      rewrite !encodeNumberAddtoAcc_app.
      cbn [accumulator setAccumulator swapEnabled].
      rewrite <- !app_assoc. reflexivity.
    + change (IS_CONTENT =? IS_ELEMENT) with false. cbv iota.
      rewrite encodeChildren_app by assumption.
      rewrite !encodeNumberAddtoAcc_app.
      cbn [accumulator setAccumulator swapEnabled].
      rewrite <- !app_assoc. reflexivity.
Qed.

End WireFormat.

(** ** The decoder reads the byte layout *)

Section Decoding.

Variable encoder : string -> list byte.
Variable decoder : list byte -> string.

Lemma decodeElementFuel_S (fuel : nat) (this : XMLConverter) :
  decodeElementFuel decoder (S fuel) this
  = let* (header, this) := decodeHeader decoder this in
    decodeChildren decoder (decodeElementFuel decoder fuel)
                   (fst header) (snd header) this.
Proof.
  cbn [decodeElementFuel]. unfold decodeHeader, decodeChildren.
  destruct (decodeString decoder true this) as [[name this1]| |]; try reflexivity.
  cbn [bind].
  destruct (decodeNumber this1) as [[attrCount this2]| |]; try reflexivity.
  cbn [bind].
  destruct (if 0 <? attrCount
            then forLoop (Z.to_nat attrCount) (decodeAttr decoder) this2
            else Ok ([], this2)) as [[attrs this3]| |]; reflexivity.
Qed.

Lemma payload_length (swap : bool) (s : string) :
  List.length (payload encoder swap s) = List.length (encoder s).
Proof.
  unfold payload. destruct swap; [apply nibbleSwap_length | reflexivity].
Qed.

Lemma fits_spec (s : string) :
  fits encoder s = true -> 0 <= JS.len (encoder s) < 2 ^ 31.
Proof.
  unfold fits, JS.len. intros H. apply Z.ltb_lt in H. lia.
Qed.

(** A string field is read back, whatever follows it. *)
Lemma decodeString_wireString (this : XMLConverter) (s : string)
    (isFixed : bool) (rest : list byte) :
  fits encoder s = true ->
  decodeString decoder isFixed
    (setBinaryData this (wireString encoder (swapEnabled this) s ++ rest))
  = Ok (recode encoder decoder s, setBinaryData this rest).
Proof.
  intros Hfits. apply fits_spec in Hfits.
  unfold decodeString, wireString. rewrite <- app_assoc.
  assert (Hlen : JS.len (payload encoder (swapEnabled this) s)
                 = JS.len (encoder s)).
  { unfold JS.len. rewrite payload_length. reflexivity. }
  rewrite decodeNumber_encodeNumber by (rewrite Hlen; lia).
  cbn [bind]. rewrite setBinaryData_binaryData, setBinaryData_twice.
  rewrite slice_to, slice_from by (rewrite Hlen; lia).
  unfold JS.len. rewrite Nat2Z.id.
  rewrite (proj1 (firstn_skipn_app _ _)), (proj2 (firstn_skipn_app _ _)).
  cbn [swapEnabled setBinaryData]. unfold recode, payload.
  destruct (swapEnabled this); [rewrite nibbleSwap_nibbleSwap|]; reflexivity.
Qed.

Lemma decodeAttrs_wireAttrs (attrs : list (string * string)) :
  forall (this : XMLConverter) (rest : list byte),
    forallb (attrOk encoder) attrs = true ->
    forLoop (List.length attrs) (decodeAttr decoder)
      (setBinaryData this (wireAttrs encoder (swapEnabled this) attrs ++ rest))
    = Ok (map (recodeAttr encoder decoder) attrs, setBinaryData this rest).
Proof.
  induction attrs as [|kv attrs IH]; intros this rest Hok.
  - reflexivity.
  - cbn [forallb] in Hok. apply andb_true_iff in Hok. destruct Hok as [Hkv Hok].
    unfold attrOk in Hkv. apply andb_true_iff in Hkv. destruct Hkv as [Hk Hv].
    cbn [List.length forLoop wireAttrs flat_map]. unfold decodeAttr at 1.
    unfold wireAttr at 1. rewrite <- !app_assoc.
    rewrite decodeString_wireString by assumption. cbn [bind].
    rewrite decodeString_wireString by assumption. cbn [bind].
    fold (wireAttrs encoder (swapEnabled this) attrs).
    rewrite IH by assumption. reflexivity.
Qed.

(** The name, the attribute count and the attributes are read back. *)
Lemma decodeHeader_wireHeader (this : XMLConverter) (name : string)
    (attrs : list (string * string)) (rest : list byte) :
  fits encoder name = true ->
  (JS.len attrs <? 2 ^ 31) = true ->
  forallb (attrOk encoder) attrs = true ->
  decodeHeader decoder
    (setBinaryData this (wireHeader encoder (swapEnabled this) name attrs ++ rest))
  = Ok ((recode encoder decoder name, map (recodeAttr encoder decoder) attrs),
        setBinaryData this rest).
Proof.
  intros Hname Hcount Hattrs. apply Z.ltb_lt in Hcount.
  unfold decodeHeader, wireHeader. rewrite <- !app_assoc.
  rewrite decodeString_wireString by assumption. cbn [bind].
  rewrite decodeNumber_encodeNumber by (unfold JS.len in *; lia). cbn [bind].
  destruct attrs as [|kv attrs].
  - reflexivity.
  - replace (0 <? JS.len (kv :: attrs)) with true
      by (symmetry; apply Z.ltb_lt; unfold JS.len; simpl; lia).
    unfold JS.len. rewrite Nat2Z.id.
    rewrite decodeAttrs_wireAttrs by assumption. reflexivity.
Qed.

(** *** Round trip *)

Lemma stringOk_spec (s : string) :
  stringOk encoder decoder s = true -> fits encoder s = true /\ recode encoder decoder s = s.
Proof.
  unfold stringOk, stable, recode. intros H.
  apply andb_true_iff in H. destruct H as [Hf Hs].
  apply String.eqb_eq in Hs. auto.
Qed.

Lemma attrsOk_spec (attrs : list (string * string)) :
  forallb (fun kv => stringOk encoder decoder (fst kv) &&
                     stringOk encoder decoder (snd kv)) attrs = true ->
  forallb (attrOk encoder) attrs = true /\ map (recodeAttr encoder decoder) attrs = attrs.
Proof.
  induction attrs as [|[k v] attrs IH]; intros H; [split; reflexivity|].
  cbn [forallb fst snd] in H.
  apply andb_true_iff in H. destruct H as [Hkv H].
  apply andb_true_iff in Hkv. destruct Hkv as [Hk Hv].
  apply stringOk_spec in Hk, Hv. destruct Hk as [Hk1 Hk2], Hv as [Hv1 Hv2].
  destruct (IH H) as [IH1 IH2]. split.
  - cbn [forallb]. unfold attrOk at 1. cbn [fst snd].
    rewrite Hk1, Hv1, IH1. reflexivity.
  - cbn [map]. unfold recodeAttr at 1. cbn [fst snd].
    rewrite Hk2, Hv2, IH2. reflexivity.
Qed.

Lemma wireChild_element (swap : bool) (c : node) :
  isElement c && wellFormed encoder decoder c = true ->
  wireChild encoder swap c = wireElement encoder swap c.
Proof.
  destruct c as [name attrs children|content]; [|discriminate].
  cbn [isElement wellFormed andb]. intros H.
  repeat (apply andb_true_iff in H; destruct H as [H ?]).
  unfold wireChild. cbn [nodeName]. unfold nonEmpty in H. rewrite H.
  reflexivity.
Qed.

Lemma forLoop_readsBack (fuel : nat) (children : list node) :
  Forall (readsBack encoder decoder) children ->
  forallb (fun c => isElement c && wellFormed encoder decoder c) children = true ->
  forall (this : XMLConverter) (rest : list byte),
    forLoop (List.length children) (decodeElementFuel decoder fuel)
      (setBinaryData this
         (flat_map (wireChild encoder (swapEnabled this)) children ++ rest))
    = OutOfFuel \/
    forLoop (List.length children) (decodeElementFuel decoder fuel)
      (setBinaryData this
         (flat_map (wireChild encoder (swapEnabled this)) children ++ rest))
    = Ok (children, setBinaryData this rest).
Proof.
  induction 1 as [|c cs Hc _ IH]; intros Hwf this rest.
  - right. reflexivity.
  - cbn [forallb] in Hwf. apply andb_true_iff in Hwf. destruct Hwf as [Hc1 Hcs].
    cbn [List.length forLoop flat_map]. rewrite <- app_assoc.
    rewrite (wireChild_element _ _ Hc1).
    apply andb_true_iff in Hc1. destruct Hc1 as [_ Hcwf].
    destruct (Hc fuel this
                (flat_map (wireChild encoder (swapEnabled this)) cs ++ rest)
                Hcwf) as [E|E]; rewrite E; cbn [bind]; [left; reflexivity|].
    destruct (IH Hcs this rest) as [E'|E']; rewrite E'; cbn [bind];
      [left|right]; reflexivity.
Qed.

Lemma wellFormed_readsBack (t : node) : readsBack encoder decoder t.
Proof.
  induction t as [name attrs children IH|content] using node_ind';
    intros fuel this rest Hwf; [|discriminate].
  destruct fuel as [|fuel]; [left; reflexivity|].
  cbn [wellFormed] in Hwf.
  apply andb_true_iff in Hwf. destruct Hwf as [Hwf Hchildren].
  apply andb_true_iff in Hwf. destruct Hwf as [Hwf Hattrs].
  apply andb_true_iff in Hwf. destruct Hwf as [Hwf Hcount].
  apply andb_true_iff in Hwf. destruct Hwf as [Hnonempty Hname].
  apply stringOk_spec in Hname. destruct Hname as [Hfits Hrecode].
  apply attrsOk_spec in Hattrs. destruct Hattrs as [Hattrs Hmap].
  rewrite decodeElementFuel_S, wireElement_unfold, <- app_assoc.
  rewrite decodeHeader_wireHeader by assumption.
  cbn [bind fst snd]. rewrite Hrecode, Hmap. unfold decodeChildren.
  destruct children as [|first others].
  - right. rewrite <- app_assoc.
    rewrite decodeNumber_encodeNumber by (unfold IS_ELEMENT; lia). cbn [bind].
    change (IS_ELEMENT =? IS_ELEMENT) with true. cbv iota.
    rewrite decodeNumber_encodeNumber by lia. reflexivity.
  - destruct first as [cname cattrs cchildren|content].
    + assert (Hall : (JS.len (Element cname cattrs cchildren :: others) <? 2 ^ 31)
                     && forallb (fun c => isElement c && wellFormed encoder decoder c)
                                (Element cname cattrs cchildren :: others) = true)
        by exact Hchildren.
      clear Hchildren. apply andb_true_iff in Hall. destruct Hall as [Hlen Hall].
      apply Z.ltb_lt in Hlen.
      assert (Htruthy : JS.truthy (nodeName (Element cname cattrs cchildren)) = true).
      { cbn [forallb isElement wellFormed andb] in Hall.
        repeat (apply andb_true_iff in Hall; destruct Hall as [Hall ?]).
        exact Hall. }
      rewrite Htruthy. rewrite <- !app_assoc.
      rewrite decodeNumber_encodeNumber by (unfold IS_ELEMENT; lia). cbn [bind].
      change (IS_ELEMENT =? IS_ELEMENT) with true. cbv iota.
      rewrite decodeNumber_encodeNumber by (unfold JS.len in *; lia). cbn [bind].
      replace (0 <? JS.len (Element cname cattrs cchildren :: others)) with true
        by (symmetry; apply Z.ltb_lt; unfold JS.len; simpl; lia).
      unfold JS.len. rewrite Nat2Z.id.
      destruct (forLoop_readsBack fuel _ IH Hall this rest) as [E|E];
        rewrite E; cbn [bind]; [left|right]; reflexivity.
    + destruct others as [|second others].
      * apply andb_true_iff in Hchildren. destruct Hchildren as [Hne Hcontent].
        apply stringOk_spec in Hcontent. destruct Hcontent as [Hcfits Hcrecode].
        right. cbn [nodeName JS.truthy flat_map]. unfold wireChild.
        cbn [nodeName nodeContent]. unfold nonEmpty in Hne. rewrite Hne.
        cbn [JS.truthy]. rewrite app_nil_r, <- !app_assoc.
        rewrite decodeNumber_encodeNumber by (unfold IS_CONTENT; lia). cbn [bind].
        change (IS_CONTENT =? IS_ELEMENT) with false.
        change (IS_CONTENT =? IS_CONTENT) with true. cbv iota.
        rewrite decodeString_wireString by assumption. cbn [bind].
        rewrite Hcrecode. reflexivity.
      * apply andb_true_iff in Hchildren. destruct Hchildren as [_ Hall].
        discriminate Hall.
Qed.

End Decoding.

(** ** The decoder terminates

    Every read consumes at least one byte or throws, so the fuel that
    [decodeElement] passes is never used up. *)

Lemma decodeNumberLoop_bounds (fuel : nat) :
  forall (bin : list byte) (number shift : Z) (currentIndex : nat) (v : Z) (j : nat),
    decodeNumberLoop fuel bin number shift currentIndex = Ok (v, j) ->
    (currentIndex < j <= List.length bin)%nat.
Proof.
  induction fuel as [|fuel IH]; intros bin number shift idx v j H; [discriminate|].
  cbn [decodeNumberLoop] in H. unfold JS.get in H.
  destruct (nth_error bin idx) as [b|] eqn:E; [|discriminate].
  assert (Hidx : (idx < List.length bin)%nat)
    by (apply nth_error_Some; rewrite E; discriminate).
  cbn [option_map] in H.
  destruct (JS.and (JS.ofByte b) 128 =? 0).
  - inversion H; subst. lia.
  - destruct (shift + 7 <? 32).
    + apply IH in H. lia.
    + inversion H; subst. lia.
Qed.

Lemma decodeNumberLoop_total (fuel : nat) :
  forall (bin : list byte) (number shift : Z) (currentIndex : nat),
    shift < 32 -> 35 <= shift + 7 * Z.of_nat fuel ->
    decodeNumberLoop fuel bin number shift currentIndex <> OutOfFuel.
Proof.
  induction fuel as [|fuel IH]; intros bin number shift idx Hs Hf; [lia|].
  cbn [decodeNumberLoop].
  destruct (JS.get bin idx) as [byte|]; [|discriminate].
  destruct (JS.and byte 128 =? 0); [discriminate|].
  destruct (Z.ltb_spec (shift + 7) 32); [|discriminate].
  apply IH; lia.
Qed.

Lemma decodeNumber_shrinks (this this' : XMLConverter) (v : Z) :
  decodeNumber this = Ok (v, this') -> (remaining this' < remaining this)%nat.
Proof.
  unfold decodeNumber, remaining. intros H.
  destruct (JS.isZero (JS.get (binaryData this) 0)) eqn:E.
  - inversion H; subst. rewrite setBinaryData_binaryData.
    change 1 with (Z.of_nat 1). rewrite slice_from_nat.
    destruct (binaryData this); [discriminate|].
    rewrite length_skipn. simpl. lia.
  - destruct (decodeNumberLoop 5 (binaryData this) 0 0 0) as [[n j]| |] eqn:El;
      try discriminate.
    cbn [bind] in H. inversion H; subst.
    apply decodeNumberLoop_bounds in El.
    rewrite setBinaryData_binaryData, slice_from_nat, length_skipn. lia.
Qed.

Lemma decodeNumber_total (this : XMLConverter) : decodeNumber this <> OutOfFuel.
Proof.
  unfold decodeNumber.
  destruct (JS.isZero (JS.get (binaryData this) 0)); [discriminate|].
  pose proof (decodeNumberLoop_total 5 (binaryData this) 0 0 0
                ltac:(lia) ltac:(lia)) as H.
  destruct (decodeNumberLoop 5 (binaryData this) 0 0 0) as [[n j]| |];
    [discriminate | discriminate | contradiction].
Qed.

Section Termination.

Variable decoder : list byte -> string.

Lemma decodeString_shrinks (isFixed : bool) (this this' : XMLConverter) (s : string) :
  decodeString decoder isFixed this = Ok (s, this') ->
  (remaining this' < remaining this)%nat.
Proof.
  unfold decodeString. intros H.
  destruct (decodeNumber this) as [[n this1]| |] eqn:E; try discriminate.
  cbn [bind] in H. inversion H; subst.
  apply decodeNumber_shrinks in E. unfold remaining in *.
  rewrite setBinaryData_binaryData.
  pose proof (slice_length (binaryData this1) n None). lia.
Qed.

Lemma decodeString_total (isFixed : bool) (this : XMLConverter) :
  decodeString decoder isFixed this <> OutOfFuel.
Proof.
  unfold decodeString. pose proof (decodeNumber_total this).
  destruct (decodeNumber this) as [[n this1]| |];
    [discriminate | discriminate | contradiction].
Qed.

Lemma decodeAttr_shrinks (this this' : XMLConverter) (kv : string * string) :
  decodeAttr decoder this = Ok (kv, this') ->
  (remaining this' <= remaining this)%nat.
Proof.
  unfold decodeAttr. intros H.
  destruct (decodeString decoder true this) as [[k this1]| |] eqn:E1;
    try discriminate.
  cbn [bind] in H.
  destruct (decodeString decoder false this1) as [[v this2]| |] eqn:E2;
    try discriminate.
  cbn [bind] in H. inversion H; subst.
  apply decodeString_shrinks in E1, E2. lia.
Qed.

Lemma decodeAttr_total (this : XMLConverter) : decodeAttr decoder this <> OutOfFuel.
Proof.
  unfold decodeAttr. pose proof (decodeString_total true this).
  destruct (decodeString decoder true this) as [[k this1]| |];
    [|discriminate|contradiction].
  cbn [bind]. pose proof (decodeString_total false this1).
  destruct (decodeString decoder false this1) as [[v this2]| |];
    [discriminate | discriminate | contradiction].
Qed.

Lemma forLoop_shrinks {A} (body : XMLConverter -> result (A * XMLConverter)) :
  (forall this this' a, body this = Ok (a, this') ->
                        (remaining this' <= remaining this)%nat) ->
  forall (count : nat) (this this' : XMLConverter) (l : list A),
    forLoop count body this = Ok (l, this') ->
    (remaining this' <= remaining this)%nat.
Proof.
  intros Hbody. induction count as [|count IH]; intros this this' l H.
  - inversion H; subst. lia.
  - cbn [forLoop] in H.
    destruct (body this) as [[a this1]| |] eqn:E1; try discriminate.
    cbn [bind] in H.
    destruct (forLoop count body this1) as [[l1 this2]| |] eqn:E2;
      try discriminate.
    cbn [bind] in H. inversion H; subst.
    apply Hbody in E1. apply IH in E2. lia.
Qed.

Lemma forLoop_total {A} (body : XMLConverter -> result (A * XMLConverter))
    (bound : nat) :
  (forall this this' a, body this = Ok (a, this') ->
                        (remaining this' <= remaining this)%nat) ->
  (forall this, (remaining this <= bound)%nat -> body this <> OutOfFuel) ->
  forall (count : nat) (this : XMLConverter),
    (remaining this <= bound)%nat -> forLoop count body this <> OutOfFuel.
Proof.
  intros Hshrink Hbody. induction count as [|count IH]; intros this Hle.
  - discriminate.
  - cbn [forLoop]. pose proof (Hbody this Hle) as Hb.
    destruct (body this) as [[a this1]| |] eqn:E1;
      [|discriminate|contradiction].
    cbn [bind]. apply Hshrink in E1.
    pose proof (IH this1 ltac:(lia)) as Hl.
    destruct (forLoop count body this1) as [[l1 this2]| |];
      [discriminate | discriminate | contradiction].
Qed.

Lemma decodeHeader_shrinks (this this' : XMLConverter)
    (h : string * list (string * string)) :
  decodeHeader decoder this = Ok (h, this') ->
  (remaining this' < remaining this)%nat.
Proof.
  unfold decodeHeader. intros H.
  destruct (decodeString decoder true this) as [[name this1]| |] eqn:E1;
    try discriminate.
  cbn [bind] in H.
  destruct (decodeNumber this1) as [[attrCount this2]| |] eqn:E2;
    try discriminate.
  cbn [bind] in H.
  apply decodeString_shrinks in E1. apply decodeNumber_shrinks in E2.
  destruct (0 <? attrCount).
  - destruct (forLoop (Z.to_nat attrCount) (decodeAttr decoder) this2)
      as [[attrs this3]| |] eqn:E3; try discriminate.
    cbn [bind] in H. inversion H; subst.
    apply (forLoop_shrinks _ decodeAttr_shrinks) in E3. lia.
  - cbn [bind] in H. inversion H; subst. lia.
Qed.

Lemma decodeHeader_total (this : XMLConverter) :
  decodeHeader decoder this <> OutOfFuel.
Proof.
  unfold decodeHeader. pose proof (decodeString_total true this).
  destruct (decodeString decoder true this) as [[name this1]| |];
    [|discriminate|contradiction].
  cbn [bind]. pose proof (decodeNumber_total this1).
  destruct (decodeNumber this1) as [[attrCount this2]| |];
    [|discriminate|contradiction].
  cbn [bind]. destruct (0 <? attrCount); [|discriminate].
  pose proof (forLoop_total (decodeAttr decoder) (remaining this2)
                decodeAttr_shrinks (fun t _ => decodeAttr_total t)
                (Z.to_nat attrCount) this2 ltac:(lia)).
  destruct (forLoop (Z.to_nat attrCount) (decodeAttr decoder) this2)
    as [[attrs this3]| |]; [discriminate | discriminate | contradiction].
Qed.

Lemma decodeChildren_shrinks
    (self : XMLConverter -> result (node * XMLConverter))
    (name : string) (attrs : list (string * string)) :
  (forall this this' a, self this = Ok (a, this') ->
                        (remaining this' <= remaining this)%nat) ->
  forall (this this' : XMLConverter) (t : node),
    decodeChildren decoder self name attrs this = Ok (t, this') ->
    (remaining this' < remaining this)%nat.
Proof.
  intros Hself this this' t H. unfold decodeChildren in H.
  destruct (decodeNumber this) as [[childrenType this1]| |] eqn:E1;
    try discriminate.
  cbn [bind] in H. apply decodeNumber_shrinks in E1.
  destruct (childrenType =? IS_ELEMENT).
  - destruct (decodeNumber this1) as [[childCount this2]| |] eqn:E2;
      try discriminate.
    cbn [bind] in H. apply decodeNumber_shrinks in E2.
    destruct (0 <? childCount).
    + destruct (forLoop (Z.to_nat childCount) self this2)
        as [[children this3]| |] eqn:E3; try discriminate.
      cbn [bind] in H. inversion H; subst.
      apply (forLoop_shrinks _ Hself) in E3. lia.
    + inversion H; subst. lia.
  - destruct (childrenType =? IS_CONTENT).
    + destruct (decodeString decoder false this1) as [[content this2]| |] eqn:E2;
        try discriminate.
      cbn [bind] in H. inversion H; subst.
      apply decodeString_shrinks in E2. lia.
    + inversion H; subst. lia.
Qed.

Lemma decodeElementFuel_shrinks (fuel : nat) :
  forall (this this' : XMLConverter) (t : node),
    decodeElementFuel decoder fuel this = Ok (t, this') ->
    (remaining this' < remaining this)%nat.
Proof.
  induction fuel as [|fuel IH]; intros this this' t H; [discriminate|].
  rewrite decodeElementFuel_S in H.
  destruct (decodeHeader decoder this) as [[h this1]| |] eqn:E1;
    try discriminate.
  cbn [bind] in H. apply decodeHeader_shrinks in E1.
  apply decodeChildren_shrinks in H; [lia|].
  intros x x' a Hx. apply IH in Hx. lia.
Qed.

Lemma decodeElementFuel_total (fuel : nat) :
  forall this : XMLConverter,
    (remaining this < fuel)%nat ->
    decodeElementFuel decoder fuel this <> OutOfFuel.
Proof.
  induction fuel as [|fuel IH]; intros this Hlt; [lia|].
  rewrite decodeElementFuel_S. pose proof (decodeHeader_total this) as Hh.
  destruct (decodeHeader decoder this) as [[h this1]| |] eqn:E1;
    [|discriminate|contradiction].
  cbn [bind]. apply decodeHeader_shrinks in E1. unfold decodeChildren.
  pose proof (decodeNumber_total this1) as Hn1.
  destruct (decodeNumber this1) as [[childrenType this2]| |] eqn:E2;
    [|discriminate|contradiction].
  cbn [bind]. apply decodeNumber_shrinks in E2.
  destruct (childrenType =? IS_ELEMENT).
  - pose proof (decodeNumber_total this2) as Hn2.
    destruct (decodeNumber this2) as [[childCount this3]| |] eqn:E3;
      [|discriminate|contradiction].
    cbn [bind]. apply decodeNumber_shrinks in E3.
    destruct (0 <? childCount); [|discriminate].
    assert (Hloop : forLoop (Z.to_nat childCount)
                      (decodeElementFuel decoder fuel) this3 <> OutOfFuel).
    { apply (forLoop_total _ (remaining this3)).
      - intros x x' a Hx. apply decodeElementFuel_shrinks in Hx. lia.
      - intros x Hx. apply IH. lia.
      - lia. }
    destruct (forLoop (Z.to_nat childCount) (decodeElementFuel decoder fuel) this3)
      as [[children this4]| |]; [discriminate | discriminate | contradiction].
  - destruct (childrenType =? IS_CONTENT); [|discriminate].
    pose proof (decodeString_total false this2) as Hs.
    destruct (decodeString decoder false this2) as [[content this3]| |];
      [discriminate | discriminate | contradiction].
Qed.

(** [decodeElement] never reports a lack of fuel: it returns or throws. *)
Lemma decodeElement_total (this : XMLConverter) :
  decodeElement decoder this <> OutOfFuel.
Proof.
  unfold decodeElement. apply decodeElementFuel_total. unfold remaining. lia.
Qed.

End Termination.

(** ** The element codec *)

Lemma wellFormed_isElement (encoder : string -> list byte)
    (decoder : list byte -> string) (t : node) :
  wellFormed encoder decoder t = true -> isElement t = true.
Proof.
  destruct t; [reflexivity | discriminate].
Qed.

(** A well-formed tree satisfies the invariants of the data model. *)
Lemma wellFormed_invariants (encoder : string -> list byte)
    (decoder : list byte -> string) (t : node) :
  wellFormed encoder decoder t = true -> invariants t = true.
Proof.
  induction t as [name attrs children IH|content] using node_ind';
    intros Hwf; [|discriminate].
  cbn [wellFormed] in Hwf.
  apply andb_true_iff in Hwf. destruct Hwf as [Hwf Hchildren].
  repeat (apply andb_true_iff in Hwf; destruct Hwf as [Hwf ?]).
  cbn [invariants]. rewrite Hwf. cbn [andb].
  assert (Hall : forall cs,
             Forall (fun c => wellFormed encoder decoder c = true ->
                              invariants c = true) cs ->
             forallb (fun c => isElement c && wellFormed encoder decoder c) cs = true ->
             forallb (fun c => isElement c && invariants c) cs = true).
  { induction 1 as [|c cs Hc _ IHcs]; intros Hcs; [reflexivity|].
    cbn [forallb] in *. apply andb_true_iff in Hcs. destruct Hcs as [Hc1 Hcs].
    apply andb_true_iff in Hc1. destruct Hc1 as [He Hw].
    rewrite He, (Hc Hw), (IHcs Hcs). reflexivity. }
  destruct children as [|first others]; [reflexivity|].
  destruct first as [cname cattrs cchildren|content].
  - apply andb_true_iff in Hchildren. destruct Hchildren as [_ Hcs].
    apply (Hall _ IH Hcs).
  - destruct others as [|second others]; [reflexivity|].
    apply andb_true_iff in Hchildren. destruct Hchildren as [_ Hcs].
    discriminate Hcs.
Qed.

Lemma decodeElement_wireElement (encoder : string -> list byte)
    (decoder : list byte -> string) (this : XMLConverter) (t : node) :
  wellFormed encoder decoder t = true ->
  decodeElement decoder
    (setBinaryData this (wireElement encoder (swapEnabled this) t))
  = Ok (t, setBinaryData this []).
Proof.
  intros Hwf.
  pose proof (decodeElement_total decoder
                (setBinaryData this (wireElement encoder (swapEnabled this) t)))
    as Htotal.
  unfold decodeElement in *.
  pose proof (wellFormed_readsBack encoder decoder t
                (S (List.length
                      (binaryData
                         (setBinaryData this
                            (wireElement encoder (swapEnabled this) t)))))
                this [] Hwf) as H.
  rewrite app_nil_r in H. destruct H as [H|H]; [contradiction | exact H].
Qed.

(** Where the round trip holds: for every element tree that satisfies the
    data-model invariants and in which no text node has empty content
    (with every string handled by the platform codec and every length below
    2^31), encoding succeeds and decoding the bytes under the same
    configuration gives the tree back. *)
Theorem roundtrip (encoder : string -> list byte) (decoder : list byte -> string)
    (o : options) (t : node) :
  wellFormed encoder decoder t = true ->
  exists bin : list byte,
    encodeTree encoder o t = Ok bin /\ decodeTree decoder o bin = Ok t.
Proof.
  intros Hwf. exists (wireElement encoder (opt_swapEnabled o) t). split.
  - unfold encodeTree.
    rewrite encodeElement_app by (eapply wellFormed_isElement; eassumption).
    reflexivity.
  - unfold decodeTree.
    change (newXMLConverter o (wireElement encoder (opt_swapEnabled o) t))
      with (setBinaryData (newXMLConverter o [])
              (wireElement encoder (swapEnabled (newXMLConverter o [])) t)).
    rewrite (decodeElement_wireElement encoder decoder) by assumption.
    reflexivity.
Qed.

Lemma roundtrip_witness :
  exists bin : list byte,
    encodeTree asciiEncoder converterOptions featuresTree = Ok bin /\
    decodeTree asciiDecoder converterOptions bin = Ok featuresTree.
Proof.
  apply (roundtrip asciiEncoder asciiDecoder converterOptions featuresTree).
  vm_compute. reflexivity.
Defined.

(** C1.  The tree [{ name: "a", attrs: [], children: [{ content: "" }] }]
    satisfies the invariants of the data model, and its round trip fails:
    [encodeElement] writes the CONTENT discriminator and no string field
    after it, and [decodeElement] throws on those bytes.  An empty string
    elsewhere is handled: an empty attribute value is written as a field
    of length zero and read back. *)
Theorem empty_text_not_decodable :
  invariants (Element "a" [] [Text ""]) = true /\
  encodeTree asciiEncoder swapOff (Element "a" [] [Text ""])
  = Ok [x01; x61; x00; x0a] /\
  decodeTree asciiDecoder swapOff [x01; x61; x00; x0a] = Throw IncompleteNumber /\
  encodeTree asciiEncoder swapOff (Element "a" [("k", "")%string] [])
  = Ok [x01; x61; x01; x01; x6b; x00; x14; x00] /\
  decodeTree asciiDecoder swapOff [x01; x61; x01; x01; x6b; x00; x14; x00]
  = Ok (Element "a" [("k", "")%string] []).
Proof.
  repeat split; vm_compute; reflexivity.
Qed.

(** C8.  A string is encoded to the same bytes whether it is passed as a
    fixed string or as a dynamic one, and [decodeString] returns the same
    string and leaves the same buffer for both values of the flag. *)
Theorem fixed_dynamic_identical (encoder : string -> list byte)
    (decoder : list byte -> string) (this : XMLConverter) (s : string) :
  encodeStringAddToAcc encoder s true this
  = encodeStringAddToAcc encoder s false this /\
  decodeString decoder true this = decodeString decoder false this.
Proof.
  split; reflexivity.
Qed.

(** C9.  An element whose only child is a text node with empty content is
    encoded as its name and attributes followed by the CONTENT
    discriminator (10) and nothing else: no string field is appended for
    the content. *)
Theorem empty_content_is_absent (encoder : string -> list byte)
    (this : XMLConverter) (name : string) (attrs : list (string * string)) :
  encodeElement encoder (Element name attrs [Text ""]) this
  = Ok (setAccumulator this
          (accumulator this ++
           wireHeader encoder (swapEnabled this) name attrs ++ [x0a])).
Proof.
  rewrite encodeElement_app by reflexivity.
  rewrite wireElement_unfold. reflexivity.
Qed.

(** What [encodeElement] appends for an element whose first child is a
    text node: the name and attributes, the CONTENT discriminator (10) with
    no child count, the string field of the first text child when its
    content is not empty, and then what the child loop appends for every
    later child. *)
Theorem text_first_child (encoder : string -> list byte) (this : XMLConverter)
    (name : string) (attrs : list (string * string))
    (content : string) (others : list node) :
  encodeElement encoder (Element name attrs (Text content :: others)) this
  = Ok (setAccumulator this
          (accumulator this ++
           wireHeader encoder (swapEnabled this) name attrs ++
           [x0a] ++
           (if nonEmpty content
            then wireString encoder (swapEnabled this) content else []) ++
           flat_map (wireChild encoder (swapEnabled this)) others)) /\
  (forall sibling : string,
     wireChild encoder (swapEnabled this) (Text sibling)
     = if nonEmpty sibling
       then wireString encoder (swapEnabled this) sibling else []).
Proof.
  split.
  - rewrite encodeElement_app by reflexivity.
    rewrite wireElement_unfold. cbn [nodeName JS.truthy flat_map].
    unfold wireChild at 1. cbn [nodeName nodeContent JS.truthy].
    unfold nonEmpty. cbn [JS.truthy].
    rewrite <- ?app_assoc. reflexivity.
  - intros sibling. reflexivity.
Qed.

(** C4.  The later children of an element whose first child is a text node
    are written to the stream.  For
    [{ name: "a", attrs: [], children: [{ content: "hi" }, { content: "yo" }] }]
    the bytes end with the string field [02 'y' 'o'] of the second text.
    The decoder reads one string after a CONTENT discriminator, so the
    extra bytes are taken for what follows: the tree p[a["t", b], c]
    comes back as p[a["t"], b], without an error. *)
Theorem later_children_emitted :
  encodeTree asciiEncoder swapOff (Element "a" [] [Text "hi"; Text "yo"])
  = Ok ([x01; x61; x00; x0a] ++ [x02; x68; x69] ++ [x02; x79; x6f]) /\
  wireString asciiEncoder false "hi"%string = [x02; x68; x69] /\
  wireString asciiEncoder false "yo"%string = [x02; x79; x6f] /\
  encodeTree asciiEncoder swapOff (Element "a" [] [Text "hi"; Text "yo"])
  <> Ok ([x01; x61; x00; x0a] ++ wireString asciiEncoder false "hi"%string) /\
  encodeTree asciiEncoder swapOff
    (Element "p" []
       [Element "a" [] [Text "t"; Element "b" [] []]; Element "c" [] []])
  = Ok [x01; x70; x00; x14; x02;
        x01; x61; x00; x0a; x01; x74;
        x01; x62; x00; x14; x00;
        x01; x63; x00; x14; x00] /\
  decodeTree asciiDecoder swapOff
    [x01; x70; x00; x14; x02;
     x01; x61; x00; x0a; x01; x74;
     x01; x62; x00; x14; x00;
     x01; x63; x00; x14; x00]
  = Ok (Element "p" [] [Element "a" [] [Text "t"]; Element "b" [] []]).
Proof.
  repeat split; try (vm_compute; reflexivity).
  vm_compute. discriminate.
Qed.

(** C6.  For every element with no children, [encodeElement] appends, after
    the name and the attributes, the ELEMENT discriminator (20) and the
    count 0, the two bytes [14 00] and no other marker; and [decodeElement]
    on that encoding returns an element with an empty children list, with
    the name and the attributes as the platform codec reads them back
    (lengths below 2^31). *)
Theorem empty_children (encoder : string -> list byte)
    (decoder : list byte -> string) (o : options) (this : XMLConverter)
    (name : string) (attrs : list (string * string)) :
  fits encoder name = true ->
  (JS.len attrs <? 2 ^ 31) = true ->
  forallb (attrOk encoder) attrs = true ->
  encodeElement encoder (Element name attrs []) this
  = Ok (setAccumulator this
          (accumulator this ++
           wireHeader encoder (swapEnabled this) name attrs ++ [x14; x00])) /\
  encodeTree encoder o (Element name attrs [])
  = Ok (wireHeader encoder (opt_swapEnabled o) name attrs ++ [x14; x00]) /\
  decodeTree decoder o
    (wireHeader encoder (opt_swapEnabled o) name attrs ++ [x14; x00])
  = Ok (Element (recode encoder decoder name)
                (map (recodeAttr encoder decoder) attrs) []).
Proof.
  intros Hname Hcount Hattrs.
  assert (Henc : forall this',
             encodeElement encoder (Element name attrs []) this'
             = Ok (setAccumulator this'
                     (accumulator this' ++
                      wireHeader encoder (swapEnabled this') name attrs ++
                      [x14; x00]))).
  { intros this'. rewrite encodeElement_app by reflexivity.
    rewrite wireElement_unfold. reflexivity. }
  split; [apply Henc|]. split.
  - unfold encodeTree. rewrite Henc. reflexivity.
  - unfold decodeTree, decodeElement. rewrite decodeElementFuel_S.
    change (newXMLConverter o
              (wireHeader encoder (opt_swapEnabled o) name attrs ++ [x14; x00]))
      with (setBinaryData (newXMLConverter o [])
              (wireHeader encoder (swapEnabled (newXMLConverter o [])) name attrs
               ++ [x14; x00])).
    rewrite (decodeHeader_wireHeader encoder decoder) by assumption.
    cbn [bind fst snd]. unfold decodeChildren.
    change [x14; x00] with (encodeNumber IS_ELEMENT ++ encodeNumber 0 ++ []).
    rewrite decodeNumber_encodeNumber by (unfold IS_ELEMENT; lia). cbn [bind].
    change (IS_ELEMENT =? IS_ELEMENT) with true. cbv iota.
    rewrite decodeNumber_encodeNumber by lia. reflexivity.
Qed.

Lemma empty_children_witness :
  encodeElement asciiEncoder (Element "sm" [] []) (newXMLConverter converterOptions [])
  = Ok (setAccumulator (newXMLConverter converterOptions [])
          ([] ++ wireHeader asciiEncoder true "sm" [] ++ [x14; x00])) /\
  encodeTree asciiEncoder converterOptions (Element "sm" [] [])
  = Ok (wireHeader asciiEncoder true "sm" [] ++ [x14; x00]) /\
  decodeTree asciiDecoder converterOptions
    (wireHeader asciiEncoder true "sm" [] ++ [x14; x00])
  = Ok (Element (recode asciiEncoder asciiDecoder "sm")
                (map (recodeAttr asciiEncoder asciiDecoder) []) []).
Proof.
  apply (empty_children asciiEncoder asciiDecoder converterOptions
           (newXMLConverter converterOptions []) "sm" []); reflexivity.
Defined.

(** C10.  When the children discriminator that [decodeElement] reads is
    neither 20 (ELEMENT) nor 10 (CONTENT), no error is raised: the call
    returns the node with the name and attributes read so far and an empty
    children list, and the buffer stays where the discriminator ended. *)
Theorem unknown_discriminator (decoder : list byte -> string)
    (this this1 this2 this3 this4 : XMLConverter) (name : string)
    (attrCount childrenType : Z) (attrs : list (string * string)) :
  decodeString decoder true this = Ok (name, this1) ->
  decodeNumber this1 = Ok (attrCount, this2) ->
  (if 0 <? attrCount
   then forLoop (Z.to_nat attrCount) (decodeAttr decoder) this2
   else Ok ([], this2)) = Ok (attrs, this3) ->
  decodeNumber this3 = Ok (childrenType, this4) ->
  childrenType <> IS_ELEMENT ->
  childrenType <> IS_CONTENT ->
  decodeElement decoder this = Ok (Element name attrs [], this4).
Proof.
  intros Hname Hcount Hattrs Htype Hne Hnc.
  unfold decodeElement. cbn [decodeElementFuel].
  rewrite Hname. cbn [bind]. rewrite Hcount. cbn [bind].
  rewrite Hattrs. cbn [bind]. rewrite Htype. cbn [bind].
  apply Z.eqb_neq in Hne, Hnc. rewrite Hne, Hnc. reflexivity.
Qed.

Lemma unknown_discriminator_witness :
  decodeElement asciiDecoder strayBuffer
  = Ok (Element "a" [] [], setBinaryData strayBuffer [x14; x00]).
Proof.
  apply (unknown_discriminator asciiDecoder strayBuffer
           (setBinaryData strayBuffer [x00; x05; x14; x00])
           (setBinaryData strayBuffer [x05; x14; x00])
           (setBinaryData strayBuffer [x05; x14; x00])
           (setBinaryData strayBuffer [x14; x00])
           "a" 0 5 []);
    try reflexivity; discriminate.
Defined.

(** ** Truncated buffers *)

Lemma hard_soft {A} (r : result (A * XMLConverter)) : hard r -> soft r.
Proof.
  destruct r as [[a this]| |]; simpl; tauto.
Qed.

Lemma firstn_app_cases {A} (k : nat) (a b : list A) :
  ((k < List.length a)%nat /\ firstn k (a ++ b) = firstn k a) \/
  ((List.length a <= k)%nat /\
   firstn k (a ++ b) = a ++ firstn (k - List.length a) b).
Proof.
  destruct (Nat.lt_ge_cases k (List.length a)) as [Hlt|Hge]; [left|right];
    (split; [assumption|]); rewrite firstn_app.
  - replace (k - List.length a)%nat with O by lia.
    rewrite firstn_O, app_nil_r. reflexivity.
  - rewrite firstn_all2 by lia. reflexivity.
Qed.

Lemma encodeNumberLoop_length (room : nat) :
  forall n : Z, (List.length (encodeNumberLoop room n) <= room)%nat.
Proof.
  induction room as [|room IH]; intros n; [simpl; lia|].
  cbn [encodeNumberLoop].
  destruct (0 <? JS.ushr n 7); cbn [List.length]; [|lia].
  specialize (IH (JS.ushr n 7)). lia.
Qed.

Lemma continues_varintByte (n : Z) :
  0 <= n -> 0 < n / 128 -> continues (varintByte n) = true.
Proof.
  intros Hn Hq. unfold continues.
  rewrite byte_and_80, ofByte_varintByte by lia.
  pose proof (Z.mod_pos_bound n 128 ltac:(lia)).
  destruct (Z.ltb_spec 0 (n / 128)); [|lia].
  apply negb_true_iff, Z.ltb_ge. lia.
Qed.

(** All the bytes of an encoded number but the last have the continuation
    bit set. *)
Lemma encodeNumberLoop_prefix (room : nat) :
  forall (n : Z) (k : nat),
    0 <= n < 2 ^ 31 ->
    (k < List.length (encodeNumberLoop room n))%nat ->
    Forall (fun b => continues b = true) (firstn k (encodeNumberLoop room n)).
Proof.
  induction room as [|room IH]; intros n k Hn Hk; [simpl in Hk; lia|].
  rewrite encodeNumberLoop_step in * by lia.
  destruct k as [|k]; [constructor|].
  cbn [firstn List.length] in *.
  assert (Hq : 0 <= n / 128 < 2 ^ 31).
  { split; [apply Z.div_pos; lia|]. apply Z.div_lt_upper_bound; lia. }
  destruct (Z.ltb_spec 0 (n / 128)) as [Hmore|Hlast]; [|simpl in Hk; lia].
  constructor.
  - apply continues_varintByte; lia.
  - apply IH; [assumption | lia].
Qed.

Lemma decodeNumber_cut (this : XMLConverter) (n : Z) (k : nat) :
  0 <= n < 2 ^ 31 ->
  (k < List.length (encodeNumber n))%nat ->
  decodeNumber (setBinaryData this (firstn k (encodeNumber n)))
  = Throw IncompleteNumber.
Proof.
  intros Hn Hk. apply decodeNumber_exhausted; rewrite setBinaryData_binaryData.
  - unfold encodeNumber in *. destruct (n =? 0).
    + destruct k; [constructor | simpl in Hk; lia].
    + apply encodeNumberLoop_prefix; assumption.
  - rewrite length_firstn.
    assert (List.length (encodeNumber n) <= 5)%nat; [|lia].
    unfold encodeNumber. destruct (n =? 0); [simpl; lia|].
    apply encodeNumberLoop_length.
Qed.

Lemma decodeNumber_nil (this : XMLConverter) :
  decodeNumber (setBinaryData this []) = Throw IncompleteNumber.
Proof. reflexivity. Qed.

Lemma decodeNumber_empty (this : XMLConverter) :
  binaryData this = [] -> decodeNumber this = Throw IncompleteNumber.
Proof.
  intros H. rewrite <- (setBinaryData_same this), H. reflexivity.
Qed.

(** After a soft outcome every further read fails. *)
Lemma soft_bind_hard {A B} (r : result (A * XMLConverter))
    (f : A * XMLConverter -> result (B * XMLConverter)) :
  soft r ->
  (forall p, binaryData (snd p) = [] -> hard (f p)) ->
  hard (bind r f).
Proof.
  intros Hr Hf. destruct r as [[a this]| |]; simpl in *; auto.
Qed.

Lemma soft_bind_soft {A B} (r : result (A * XMLConverter))
    (f : A * XMLConverter -> result (B * XMLConverter)) :
  soft r ->
  (forall p, binaryData (snd p) = [] -> soft (f p)) ->
  soft (bind r f).
Proof.
  intros Hr Hf. destruct r as [[a this]| |]; simpl in *; auto.
Qed.

Lemma forLoop_empty {A} (body : XMLConverter -> result (A * XMLConverter)) :
  (forall this, binaryData this = [] -> hard (body this)) ->
  forall (count : nat) (this : XMLConverter),
    binaryData this = [] -> soft (forLoop count body this).
Proof.
  intros Hbody count this Hnil. destruct count as [|count].
  - simpl. assumption.
  - cbn [forLoop]. apply hard_soft.
    specialize (Hbody this Hnil).
    destruct (body this) as [[a this1]| |]; simpl in *; tauto.
Qed.

Section Truncation.

Variable encoder : string -> list byte.
Variable decoder : list byte -> string.

Lemma decodeString_empty (isFixed : bool) (this : XMLConverter) :
  binaryData this = [] ->
  decodeString decoder isFixed this = Throw IncompleteNumber.
Proof.
  intros H. unfold decodeString. rewrite decodeNumber_empty by assumption.
  reflexivity.
Qed.

Lemma wireString_length (swap : bool) (s : string) :
  List.length (wireString encoder swap s)
  = (List.length (encodeNumber (JS.len (encoder s))) + List.length (encoder s))%nat.
Proof.
  unfold wireString, JS.len. rewrite length_app, !payload_length. reflexivity.
Qed.

(** A string field cut short: the length is incomplete and the read
    throws, or the payload is cut and the read returns what is there. *)
Lemma decodeString_cut (this : XMLConverter) (s : string) (isFixed : bool)
    (k : nat) :
  fits encoder s = true ->
  (k < List.length (wireString encoder (swapEnabled this) s))%nat ->
  match decodeString decoder isFixed
          (setBinaryData this (firstn k (wireString encoder (swapEnabled this) s)))
  with
  | Ok (_, this') =>
      binaryData this' = [] /\
      (List.length (wireString encoder (swapEnabled this) s)
       - List.length (encoder s) <= k)%nat
  | Throw e => e = IncompleteNumber
  | OutOfFuel => True
  end.
Proof.
  intros Hfits Hk. apply fits_spec in Hfits.
  rewrite wireString_length in *. unfold wireString.
  assert (Hlen : JS.len (payload encoder (swapEnabled this) s)
                 = JS.len (encoder s))
    by (unfold JS.len; rewrite payload_length; reflexivity).
  rewrite Hlen. unfold decodeString.
  destruct (firstn_app_cases k (encodeNumber (JS.len (encoder s)))
              (payload encoder (swapEnabled this) s)) as [[Hlt E]|[Hge E]];
    rewrite E.
  - rewrite decodeNumber_cut by (assumption || lia). reflexivity.
  - rewrite decodeNumber_encodeNumber by lia.
    cbn [bind binaryData setBinaryData].
    rewrite slice_from by lia.
    split; [|lia].
    apply skipn_all2. rewrite length_firstn, payload_length.
    unfold JS.len. rewrite Nat2Z.id. lia.
Qed.

Lemma decodeString_cut_soft (this : XMLConverter) (s : string)
    (isFixed : bool) (k : nat) :
  fits encoder s = true ->
  (k < List.length (wireString encoder (swapEnabled this) s))%nat ->
  soft (decodeString decoder isFixed
          (setBinaryData this
             (firstn k (wireString encoder (swapEnabled this) s)))).
Proof.
  intros Hfits Hk.
  pose proof (decodeString_cut this s isFixed k Hfits Hk) as H.
  destruct (decodeString decoder isFixed _) as [[v this']| |]; simpl; tauto.
Qed.

Lemma decodeAttr_empty (this : XMLConverter) :
  binaryData this = [] -> hard (decodeAttr decoder this).
Proof.
  intros H. unfold decodeAttr. rewrite decodeString_empty by assumption.
  reflexivity.
Qed.

Lemma decodeAttr_cut (this : XMLConverter) (kv : string * string) (k : nat) :
  attrOk encoder kv = true ->
  (k < List.length (wireAttr encoder (swapEnabled this) kv))%nat ->
  soft (decodeAttr decoder
          (setBinaryData this
             (firstn k (wireAttr encoder (swapEnabled this) kv)))).
Proof.
  intros Hok Hk. unfold attrOk in Hok.
  apply andb_true_iff in Hok. destruct Hok as [Hkey Hvalue].
  unfold wireAttr in *. rewrite length_app in Hk. unfold decodeAttr.
  destruct (firstn_app_cases k (wireString encoder (swapEnabled this) (fst kv))
              (wireString encoder (swapEnabled this) (snd kv)))
    as [[Hlt E]|[Hge E]]; rewrite E.
  - apply hard_soft. apply soft_bind_hard.
    + apply decodeString_cut_soft; assumption.
    + intros [key this1] Hnil. cbn [snd] in Hnil.
      rewrite decodeString_empty by assumption. reflexivity.
  - rewrite decodeString_wireString by assumption. cbn [bind].
    apply soft_bind_soft.
    + apply decodeString_cut_soft; [assumption | lia].
    + intros [value this1] Hnil. exact Hnil.
Qed.

Lemma decodeAttrs_cut (attrs : list (string * string)) :
  forall (this : XMLConverter) (k : nat),
    forallb (attrOk encoder) attrs = true ->
    (k < List.length (wireAttrs encoder (swapEnabled this) attrs))%nat ->
    soft (forLoop (List.length attrs) (decodeAttr decoder)
            (setBinaryData this
               (firstn k (wireAttrs encoder (swapEnabled this) attrs)))).
Proof.
  induction attrs as [|kv attrs IH]; intros this k Hok Hk.
  - simpl in Hk. lia.
  - cbn [forallb] in Hok. apply andb_true_iff in Hok. destruct Hok as [Hkv Hok].
    cbn [wireAttrs flat_map List.length forLoop] in *.
    fold (wireAttrs encoder (swapEnabled this) attrs) in *.
    rewrite length_app in Hk.
    destruct (firstn_app_cases k (wireAttr encoder (swapEnabled this) kv)
                (wireAttrs encoder (swapEnabled this) attrs))
      as [[Hlt E]|[Hge E]]; rewrite E.
    + apply soft_bind_soft.
      * apply decodeAttr_cut; assumption.
      * intros [a this1] Hnil. cbn [snd] in Hnil.
        apply soft_bind_soft.
        -- apply forLoop_empty; [apply decodeAttr_empty | assumption].
        -- intros [l this2] Hnil2. exact Hnil2.
    + pose proof (decodeAttrs_wireAttrs encoder decoder [kv] this
                    (firstn (k - List.length (wireAttr encoder (swapEnabled this) kv))
                            (wireAttrs encoder (swapEnabled this) attrs))) as Hone.
      cbn [wireAttrs flat_map List.length forLoop forallb map] in Hone.
      rewrite app_nil_r, Hkv in Hone. specialize (Hone eq_refl).
      destruct (decodeAttr decoder _) as [[a this1]| |]; try discriminate.
      cbn [bind] in Hone. inversion Hone; subst. cbn [bind].
      apply soft_bind_soft.
      * apply IH; [assumption | lia].
      * intros [l this2] Hnil2. exact Hnil2.
Qed.

Lemma decodeChildren_empty
    (self : XMLConverter -> result (node * XMLConverter))
    (name : string) (attrs : list (string * string)) (this : XMLConverter) :
  binaryData this = [] -> hard (decodeChildren decoder self name attrs this).
Proof.
  intros H. unfold decodeChildren. rewrite decodeNumber_empty by assumption.
  reflexivity.
Qed.

Lemma decodeElementFuel_empty (fuel : nat) (this : XMLConverter) :
  binaryData this = [] -> hard (decodeElementFuel decoder fuel this).
Proof.
  intros H. destruct fuel as [|fuel]; [exact I|].
  cbn [decodeElementFuel]. rewrite decodeString_empty by assumption.
  reflexivity.
Qed.

Lemma wireHeader_length (swap : bool) (name : string)
    (attrs : list (string * string)) :
  List.length (wireHeader encoder swap name attrs)
  = (List.length (wireString encoder swap name)
     + (List.length (encodeNumber (JS.len attrs))
        + List.length (wireAttrs encoder swap attrs)))%nat.
Proof.
  unfold wireHeader. rewrite !length_app. reflexivity.
Qed.

(** The header cut short. *)
Lemma decodeHeader_cut (this : XMLConverter) (name : string)
    (attrs : list (string * string)) (k : nat) :
  fits encoder name = true ->
  (JS.len attrs <? 2 ^ 31) = true ->
  forallb (attrOk encoder) attrs = true ->
  (k < List.length (wireHeader encoder (swapEnabled this) name attrs))%nat ->
  soft (decodeHeader decoder
          (setBinaryData this
             (firstn k (wireHeader encoder (swapEnabled this) name attrs)))).
Proof.
  intros Hname Hcount Hattrs Hk. apply Z.ltb_lt in Hcount.
  rewrite wireHeader_length in Hk. unfold wireHeader, decodeHeader.
  destruct (firstn_app_cases k (wireString encoder (swapEnabled this) name)
              (encodeNumber (JS.len attrs) ++
               wireAttrs encoder (swapEnabled this) attrs))
    as [[Hlt E]|[Hge E]]; rewrite E; clear E.
  - apply hard_soft. apply soft_bind_hard.
    + apply decodeString_cut_soft; assumption.
    + intros [v this1] Hnil. cbn [snd] in Hnil.
      rewrite decodeNumber_empty by assumption. reflexivity.
  - rewrite decodeString_wireString by assumption. cbn [bind].
    destruct (firstn_app_cases
                (k - List.length (wireString encoder (swapEnabled this) name))
                (encodeNumber (JS.len attrs))
                (wireAttrs encoder (swapEnabled this) attrs))
      as [[Hlt E]|[Hge2 E]]; rewrite E; clear E.
    + rewrite decodeNumber_cut by (assumption || (unfold JS.len in *; lia)).
      reflexivity.
    + rewrite decodeNumber_encodeNumber by (unfold JS.len in *; lia).
      cbn [bind].
      destruct attrs as [|kv attrs];
        [cbn [wireAttrs flat_map List.length] in Hk; lia|].
      replace (0 <? JS.len (kv :: attrs)) with true
        by (symmetry; apply Z.ltb_lt; unfold JS.len; simpl; lia).
      unfold JS.len at 1. rewrite Nat2Z.id.
      apply soft_bind_soft.
      * apply decodeAttrs_cut; [assumption | lia].
      * intros [l this1] Hnil. exact Hnil.
Qed.

Lemma hard_softFrom {A} (bound k : nat) (r : result (A * XMLConverter)) :
  hard r -> softFrom bound k r.
Proof.
  destruct r as [[a this]| |]; simpl; tauto.
Qed.

Lemma softFrom_bind {A B} (bound k bound' k' : nat)
    (r : result (A * XMLConverter))
    (f : A * XMLConverter -> result (B * XMLConverter)) :
  softFrom bound k r ->
  (forall p, binaryData (snd p) = [] -> (bound <= k)%nat ->
             softFrom bound' k' (f p)) ->
  softFrom bound' k' (bind r f).
Proof.
  intros Hr Hf. destruct r as [[a this]| |]; simpl in *; auto.
  destruct Hr as [Hnil Hb]. apply (Hf (a, this)); assumption.
Qed.

Lemma forLoop_cutsOff (fuel : nat) (children : list node) :
  Forall (cutsOff encoder decoder) children ->
  forallb (fun c => isElement c && wellFormed encoder decoder c) children = true ->
  forall (this : XMLConverter) (k : nat),
    (k < List.length (flat_map (wireChild encoder (swapEnabled this)) children))%nat ->
    softFrom
      (List.length (flat_map (wireChild encoder (swapEnabled this)) children)
       - trailingLast encoder children) k
      (forLoop (List.length children) (decodeElementFuel decoder fuel)
         (setBinaryData this
            (firstn k (flat_map (wireChild encoder (swapEnabled this)) children)))).
Proof.
  induction 1 as [|c cs Hc _ IH]; intros Hwf this k Hk.
  - simpl in Hk. lia.
  - cbn [forallb] in Hwf. apply andb_true_iff in Hwf. destruct Hwf as [Hc1 Hcs].
    cbn [List.length forLoop flat_map] in *.
    rewrite (wireChild_element _ _ _ _ Hc1) in *.
    apply andb_true_iff in Hc1. destruct Hc1 as [_ Hcwf].
    rewrite length_app in *.
    destruct (firstn_app_cases k (wireElement encoder (swapEnabled this) c)
                (flat_map (wireChild encoder (swapEnabled this)) cs))
      as [[Hlt E]|[Hge E]]; rewrite E; clear E.
    + eapply softFrom_bind; [apply (Hc fuel this k Hcwf Hlt)|].
      intros [a this1] Hnil Hbound. cbn [snd] in Hnil.
      destruct cs as [|c2 cs].
      * cbn [List.length forLoop bind flat_map trailingLast softFrom].
        split; [assumption | simpl; lia].
      * apply hard_softFrom. cbn [List.length forLoop].
        pose proof (decodeElementFuel_empty fuel this1 Hnil) as Hhard.
        destruct (decodeElementFuel decoder fuel this1) as [[a2 this2]| |];
          simpl in *; tauto.
    + destruct (wellFormed_readsBack encoder decoder c fuel this
                  (firstn (k - List.length (wireElement encoder (swapEnabled this) c))
                          (flat_map (wireChild encoder (swapEnabled this)) cs))
                  Hcwf) as [E|E]; rewrite E; cbn [bind]; [exact I|].
      destruct cs as [|c2 cs]; [simpl in Hk; lia|].
      eapply softFrom_bind; [apply (IH Hcs this); lia|].
      intros [l this1] Hnil Hbound. cbn [snd] in Hnil.
      cbn [softFrom]. split; [assumption|].
      change (trailingLast encoder (c :: c2 :: cs))
        with (trailingLast encoder (c2 :: cs)).
      lia.
Qed.

Lemma wellFormed_cutsOff (t : node) : cutsOff encoder decoder t.
Proof.
  induction t as [name attrs children IH|content] using node_ind';
    intros fuel this k Hwf Hk; [|discriminate].
  destruct fuel as [|fuel]; [exact I|].
  cbn [wellFormed] in Hwf.
  apply andb_true_iff in Hwf. destruct Hwf as [Hwf Hchildren].
  apply andb_true_iff in Hwf. destruct Hwf as [Hwf Hattrs].
  apply andb_true_iff in Hwf. destruct Hwf as [Hwf Hcount].
  apply andb_true_iff in Hwf. destruct Hwf as [Hnonempty Hname].
  apply stringOk_spec in Hname. destruct Hname as [Hfits Hrecode].
  apply attrsOk_spec in Hattrs. destruct Hattrs as [Hattrs Hmap].
  rewrite decodeElementFuel_S. rewrite wireElement_unfold in *.
  rewrite length_app in *.
  match goal with
  | |- context [firstn k (?h ++ ?d)] =>
      destruct (firstn_app_cases k h d) as [[Hlt E]|[Hge E]]; rewrite E; clear E
  end.
  - apply hard_softFrom. apply soft_bind_hard.
    + apply decodeHeader_cut; assumption.
    + intros [h this1] Hnil. apply decodeChildren_empty. exact Hnil.
  - rewrite (decodeHeader_wireHeader encoder decoder) by assumption.
    cbn [bind fst snd]. unfold decodeChildren.
    set (kH := (k - List.length
                      (wireHeader encoder (swapEnabled this) name attrs))%nat)
      in *.
    destruct children as [|first others].
    + rewrite length_app in Hk.
      destruct (firstn_app_cases kH (encodeNumber IS_ELEMENT) (encodeNumber 0))
        as [[Hlt E]|[Hge2 E]]; rewrite E; clear E.
      * rewrite decodeNumber_cut by (assumption || (unfold IS_ELEMENT; lia)).
        reflexivity.
      * rewrite <- (app_nil_r (firstn _ (encodeNumber 0))).
        rewrite decodeNumber_encodeNumber by (unfold IS_ELEMENT; lia).
        cbn [bind]. change (IS_ELEMENT =? IS_ELEMENT) with true. cbv iota.
        rewrite app_nil_r.
        rewrite decodeNumber_cut by lia. reflexivity.
    + destruct first as [cname cattrs cchildren|content].
      * assert (Hall : (JS.len (Element cname cattrs cchildren :: others) <? 2 ^ 31)
                       && forallb (fun c => isElement c && wellFormed encoder decoder c)
                                  (Element cname cattrs cchildren :: others) = true)
          by exact Hchildren.
        clear Hchildren. apply andb_true_iff in Hall. destruct Hall as [Hlen Hall].
        apply Z.ltb_lt in Hlen.
        assert (Htruthy : JS.truthy (nodeName (Element cname cattrs cchildren)) = true).
        { pose proof Hall as Hall'.
          cbn [forallb isElement wellFormed andb] in Hall'.
          repeat (apply andb_true_iff in Hall'; destruct Hall' as [Hall' ?]).
          exact Hall'. }
        rewrite Htruthy in *. rewrite <- app_assoc in *.
        rewrite !length_app in Hk.
        change (trailing encoder
                  (Element name attrs (Element cname cattrs cchildren :: others)))
          with (trailingLast encoder (Element cname cattrs cchildren :: others)).
        set (cs := Element cname cattrs cchildren :: others) in *.
        assert (Hpos : 0 < JS.len cs) by (unfold JS.len, cs; simpl; lia).
        destruct (firstn_app_cases kH (encodeNumber IS_ELEMENT)
                    (encodeNumber (JS.len cs) ++
                     flat_map (wireChild encoder (swapEnabled this)) cs))
          as [[Hlt E]|[Hge2 E]]; rewrite E; clear E.
        -- rewrite decodeNumber_cut by (assumption || (unfold IS_ELEMENT; lia)).
           reflexivity.
        -- rewrite decodeNumber_encodeNumber by (unfold IS_ELEMENT; lia).
           cbn [bind]. change (IS_ELEMENT =? IS_ELEMENT) with true. cbv iota.
           destruct (firstn_app_cases
                       (kH - List.length (encodeNumber IS_ELEMENT))
                       (encodeNumber (JS.len cs))
                       (flat_map (wireChild encoder (swapEnabled this)) cs))
             as [[Hlt E]|[Hge3 E]]; rewrite E; clear E.
           ++ rewrite decodeNumber_cut by (assumption || lia). reflexivity.
           ++ rewrite decodeNumber_encodeNumber by lia. cbn [bind].
              destruct (Z.ltb_spec 0 (JS.len cs)) as [_|]; [|lia].
              replace (Z.to_nat (JS.len cs)) with (List.length cs)
                by (unfold JS.len; rewrite Nat2Z.id; reflexivity).
              eapply softFrom_bind;
                [apply (forLoop_cutsOff fuel cs IH Hall this); lia|].
              intros [l this1] Hnil Hbound. cbn [snd] in Hnil.
              cbn [softFrom]. split; [assumption|]. rewrite !length_app. lia.
      * destruct others as [|second others].
        -- apply andb_true_iff in Hchildren. destruct Hchildren as [Hne Hcontent].
           apply stringOk_spec in Hcontent. destruct Hcontent as [Hcfits Hcrecode].
           cbn [nodeName JS.truthy flat_map trailing] in *.
           unfold wireChild in *. cbn [nodeName nodeContent] in *.
           unfold nonEmpty in Hne. rewrite Hne in *.
           cbn [JS.truthy] in *. rewrite app_nil_r in *.
           rewrite length_app in Hk.
           destruct (firstn_app_cases kH (encodeNumber IS_CONTENT)
                       (wireString encoder (swapEnabled this) content))
             as [[Hlt E]|[Hge2 E]]; rewrite E; clear E.
           ++ rewrite decodeNumber_cut by (assumption || (unfold IS_CONTENT; lia)).
              reflexivity.
           ++ rewrite decodeNumber_encodeNumber by (unfold IS_CONTENT; lia).
              cbn [bind]. change (IS_CONTENT =? IS_ELEMENT) with false.
              change (IS_CONTENT =? IS_CONTENT) with true. cbv iota.
              pose proof (decodeString_cut this content false
                            (kH - List.length (encodeNumber IS_CONTENT))
                            Hcfits ltac:(lia)) as Hcut.
              destruct (decodeString decoder false _) as [[v this1]| |];
                cbn [bind softFrom]; [|assumption|exact I].
              destruct Hcut as [Hnil Hbound]. split; [assumption|].
              rewrite length_app. lia.
        -- apply andb_true_iff in Hchildren. destruct Hchildren as [_ Hall].
           discriminate Hall.
Qed.

End Truncation.

(** X26.  Where the truncation is detected: a proper prefix of the encoding
    of a well-formed tree that stops before the text payload at the end of
    the encoding (any proper prefix, when the encoding does not end in a
    text payload) makes the decoder throw the incomplete-number error. *)
Lemma truncation_detected (encoder : string -> list byte)
    (decoder : list byte -> string) (o : options) (t : node)
    (bin : list byte) (k : nat) :
  wellFormed encoder decoder t = true ->
  encodeTree encoder o t = Ok bin ->
  (k + trailing encoder t < List.length bin)%nat ->
  decodeTree decoder o (firstn k bin) = Throw IncompleteNumber.
Proof.
  intros Hwf Henc Hk. unfold encodeTree in Henc.
  rewrite encodeElement_app in Henc
    by (eapply wellFormed_isElement; eassumption).
  cbn [bind accumulator setAccumulator newXMLConverter swapEnabled app] in Henc.
  inversion Henc; subst bin; clear Henc.
  unfold decodeTree.
  pose proof (decodeElement_total decoder
                (newXMLConverter o
                   (firstn k (wireElement encoder (opt_swapEnabled o) t))))
    as Htotal.
  unfold decodeElement in *.
  pose proof (wellFormed_cutsOff encoder decoder t
                (S (List.length
                      (binaryData
                         (newXMLConverter o
                            (firstn k (wireElement encoder (opt_swapEnabled o) t))))))
                (newXMLConverter o []) k Hwf) as Hcut.
  cbn [swapEnabled newXMLConverter] in Hcut.
  specialize (Hcut ltac:(lia)).
  change (setBinaryData (mkXMLConverter [] (opt_mapperModule o)
                           (opt_swapEnabled o) (opt_swapTags o) [])
            (firstn k (wireElement encoder (opt_swapEnabled o) t)))
    with (newXMLConverter o
            (firstn k (wireElement encoder (opt_swapEnabled o) t))) in Hcut.
  destruct (decodeElementFuel decoder _ _) as [[t' this']| |];
    cbn [softFrom bind] in *.
  - destruct Hcut as [_ Hbound]. lia.
  - rewrite Hcut. reflexivity.
  - contradiction.
Qed.

Lemma truncation_detected_witness :
  decodeTree asciiDecoder converterOptions
    (firstn 17 [x01; x36; x02; x01; x86; x01; x16; x01; x46; x01; x26;
                x14; x02; x01; x16; x00; x0a; x02; x86; x96;
                x02; x37; xd6; x00; x14; x00])
  = Throw IncompleteNumber.
Proof.
  apply (truncation_detected asciiEncoder asciiDecoder converterOptions
           (Element "c" [("h", "a"); ("d", "b")]%string
              [Element "a" [] [Text "hi"]; Element "sm" [] []])).
  - vm_compute. reflexivity.
  - vm_compute. reflexivity.
  - vm_compute. lia.
Defined.

(** C2.  The first six of the seven bytes that encode
    [{ name: "a", attrs: [], children: [{ content: "hi" }] }] are a proper
    prefix of a valid encoding; [decodeElement] does not fail on them: the
    text payload is sliced without a length check and the node comes back
    with the content ["h"]. *)
Theorem truncation_undetected :
  encodeTree asciiEncoder converterOptions (Element "a" [] [Text "hi"])
  = Ok [x01; x16; x00; x0a; x02; x86; x96] /\
  decodeTree asciiDecoder converterOptions [x01; x16; x00; x0a; x02; x86]
  = Ok (Element "a" [] [Text "h"]).
Proof.
  split; vm_compute; reflexivity.
Qed.

(** * Further properties *)

(** ** Numbers outside the 31-bit range *)

Lemma toInt32_range (z : Z) : - 2 ^ 31 <= JS.toInt32 z < 2 ^ 31.
Proof.
  unfold JS.toInt32. pose proof (Z.mod_pos_bound (z + 2 ^ 31) (2 ^ 32) ltac:(lia)).
  lia.
Qed.

Lemma toInt32_eq (z : Z) : exists q, JS.toInt32 z = z - q * 2 ^ 32.
Proof.
  exists ((z + 2 ^ 31) / 2 ^ 32). unfold JS.toInt32.
  rewrite Z.mod_eq by lia. lia.
Qed.

Lemma toInt32_shift (z q : Z) : JS.toInt32 (z - q * 2 ^ 32) = JS.toInt32 z.
Proof.
  unfold JS.toInt32.
  replace (z - q * 2 ^ 32 + 2 ^ 31) with (z + 2 ^ 31 + (- q) * 2 ^ 32) by lia.
  rewrite Z.mod_add by lia. reflexivity.
Qed.

Lemma toInt32_idem (z : Z) : JS.toInt32 (JS.toInt32 z) = JS.toInt32 z.
Proof.
  apply toInt32_small, toInt32_range.
Qed.

Lemma toInt32_mod32 (z : Z) : JS.toInt32 (z mod 2 ^ 32) = JS.toInt32 z.
Proof.
  rewrite (Z.mod_eq z (2 ^ 32)) by lia.
  replace (z - 2 ^ 32 * (z / 2 ^ 32)) with (z - (z / 2 ^ 32) * 2 ^ 32) by lia.
  apply toInt32_shift.
Qed.

Lemma toInt32_mod128 (z : Z) : JS.toInt32 z mod 128 = z mod 128.
Proof.
  destruct (toInt32_eq z) as [q ->].
  replace (z - q * 2 ^ 32) with (z + (- q * 2 ^ 25) * 128) by lia.
  apply Z.mod_add. lia.
Qed.

Lemma and_7f_any (n : Z) : JS.and n 0x7f = n mod 128.
Proof.
  unfold JS.and. rewrite (toInt32_small 127) by lia.
  change 127 with (Z.ones 7). rewrite Z.land_ones by lia.
  change (2 ^ 7) with 128. rewrite toInt32_mod128.
  pose proof (Z.mod_pos_bound n 128 ltac:(lia)).
  apply toInt32_small. lia.
Qed.

Lemma ushr_7_any (n : Z) : JS.ushr n 7 = n mod 2 ^ 32 / 128.
Proof.
  unfold JS.ushr, JS.toUint32. change (Z.land 7 31) with 7.
  rewrite Z.shiftr_div_pow2 by lia. reflexivity.
Qed.

Lemma mod32_mod128 (n : Z) : n mod 2 ^ 32 mod 128 = n mod 128.
Proof.
  rewrite (Z.mod_eq n (2 ^ 32)) by lia.
  replace (n - 2 ^ 32 * (n / 2 ^ 32)) with (n + (- (n / 2 ^ 32) * 2 ^ 25) * 128)
    by lia.
  apply Z.mod_add. lia.
Qed.

Lemma encodeNumberLoop_mod32 (room : nat) (n : Z) :
  encodeNumberLoop room n = encodeNumberLoop room (n mod 2 ^ 32).
Proof.
  destruct room as [|room]; [reflexivity|].
  cbn [encodeNumberLoop].
  rewrite !and_7f_any, !ushr_7_any, mod32_mod128.
  rewrite (Z.mod_mod n (2 ^ 32)) by lia. reflexivity.
Qed.

Lemma encodeNumberLoop_step32 (room : nat) (n : Z) :
  0 <= n < 2 ^ 32 ->
  encodeNumberLoop (S room) n =
  varintByte n :: (if 0 <? n / 128 then encodeNumberLoop room (n / 128) else []).
Proof.
  intros H. cbn [encodeNumberLoop]. rewrite ushr_7_any, and_7f_any.
  rewrite (Z.mod_small n (2 ^ 32)) by lia. unfold varintByte.
  pose proof (Z.mod_pos_bound n 128 ltac:(lia)).
  destruct (0 <? n / 128); [rewrite or_80 by lia|]; reflexivity.
Qed.

Lemma div128_range (n : Z) : 0 <= n < 2 ^ 32 -> 0 <= n / 128 < 2 ^ 32.
Proof.
  intros H. split; [apply Z.div_pos; lia|]. apply Z.div_lt_upper_bound; lia.
Qed.

Lemma encodeNumber_mod32 (n : Z) :
  encodeNumber n = encodeNumber (n mod 2 ^ 32).
Proof.
  unfold encodeNumber.
  destruct (Z.eqb_spec n 0) as [->|Hn]; [reflexivity|].
  rewrite encodeNumberLoop_mod32.
  destruct (Z.eqb_spec (n mod 2 ^ 32) 0) as [E|_]; [|reflexivity].
  rewrite E. reflexivity.
Qed.

(** X2.  [encodeNumber] keeps the low 32 bits of its argument only: two
    numbers that agree modulo 2^32 have the same encoding; a multiple of
    2^32 is encoded like 0, as the single byte [00]. *)
Theorem encodeNumber_congruent (n m : Z) :
  n mod 2 ^ 32 = m mod 2 ^ 32 ->
  encodeNumber n = encodeNumber m /\
  (m = 0 -> encodeNumber n = [x00]).
Proof.
  intros H. assert (E : encodeNumber n = encodeNumber m).
  { rewrite (encodeNumber_mod32 n), (encodeNumber_mod32 m), H. reflexivity. }
  split; [exact E|]. intros ->. exact E.
Qed.

Lemma encodeNumber_congruent_witness :
  encodeNumber (2 ^ 32 + 300) = encodeNumber 300 /\
  (300 = 0 -> encodeNumber (2 ^ 32 + 300) = [x00]).
Proof.
  apply (encodeNumber_congruent (2 ^ 32 + 300) 300). reflexivity.
Defined.

Lemma or_shl32 (acc m shift : Z) :
  0 <= shift < 32 -> 0 <= acc < 2 ^ shift -> 0 <= m < 128 ->
  JS.or acc (JS.shl m shift) = JS.toInt32 (acc + m * 2 ^ shift).
Proof.
  intros Hs Ha Hm.
  assert (Hp : 0 < 2 ^ shift) by (apply Z.pow_pos_nonneg; lia).
  assert (Hp31 : 2 ^ shift <= 2 ^ 31) by (apply Z.pow_le_mono_r; lia).
  unfold JS.or, JS.shl.
  rewrite (toInt32_small acc) by lia.
  rewrite (toInt32_small m) by lia.
  replace (Z.land shift 31) with shift.
  2:{ change 31 with (Z.ones 5). rewrite Z.land_ones by lia.
      rewrite Z.mod_small; [reflexivity | simpl; lia]. }
  rewrite toInt32_idem.
  rewrite (Z.shiftl_mul_pow2 m shift) by lia.
  destruct (toInt32_eq (m * 2 ^ shift)) as [q Hq]. rewrite Hq.
  assert (Hsplit : 2 ^ 32 = 2 ^ (32 - shift) * 2 ^ shift).
  { rewrite <- Z.pow_add_r by lia. f_equal. lia. }
  replace (m * 2 ^ shift - q * 2 ^ 32)
    with (Z.shiftl (m - q * 2 ^ (32 - shift)) shift).
  2:{ rewrite Z.shiftl_mul_pow2 by lia. rewrite Hsplit. ring. }
  rewrite lor_shiftl_low by lia.
  replace (acc + (m - q * 2 ^ (32 - shift)) * 2 ^ shift)
    with (acc + m * 2 ^ shift - q * 2 ^ 32) by (rewrite Hsplit; ring).
  apply toInt32_shift.
Qed.

Lemma decodeNumberLoop_encodeNumberLoop32 (room : nat) :
  forall (n acc shift : Z) (pre rest : list byte),
    0 < n -> n < 2 ^ (7 * Z.of_nat room) ->
    0 <= shift -> n * 2 ^ shift < 2 ^ 32 -> 0 <= acc < 2 ^ shift ->
    decodeNumberLoop room (pre ++ encodeNumberLoop room n ++ rest)
                     acc shift (List.length pre)
    = Ok (JS.toInt32 (acc + n * 2 ^ shift),
          (List.length pre + List.length (encodeNumberLoop room n))%nat).
Proof.
  induction room as [|room IH]; intros n acc shift pre rest Hn Hroom Hs Hb Ha.
  - simpl in Hroom. lia.
  - assert (Hp : 0 < 2 ^ shift) by (apply Z.pow_pos_nonneg; lia).
    assert (Hn32 : n < 2 ^ 32) by nia.
    assert (Hs32 : shift < 32).
    { destruct (Z.lt_ge_cases shift 32) as [|Hge]; [assumption|].
      assert (2 ^ 32 <= 2 ^ shift) by (apply Z.pow_le_mono_r; lia). nia. }
    rewrite encodeNumberLoop_step32 by lia.
    cbn [app decodeNumberLoop]. rewrite get_app_length.
    rewrite byte_and_7f, byte_and_80, ofByte_varintByte by lia.
    pose proof (Z.mod_pos_bound n 128 ltac:(lia)) as Hm.
    pose proof (Z.div_mod n 128 ltac:(lia)) as Hdm.
    assert (Hq : 0 <= n / 128) by (apply Z.div_pos; lia).
    destruct (Z.ltb_spec 0 (n / 128)) as [Hmore|Hlast].
    + replace ((n mod 128 + 128) mod 128) with (n mod 128).
      2:{ replace (n mod 128 + 128) with (n mod 128 + 1 * 128) by lia.
          rewrite Z.mod_add by lia. rewrite Z.mod_mod by lia. reflexivity. }
      destruct (Z.ltb_spec (n mod 128 + 128) 128) as [|_]; [lia|].
      assert (Hpow : 2 ^ (shift + 7) = 2 ^ shift * 128).
      { rewrite Z.pow_add_r by lia. reflexivity. }
      assert (Hs25 : shift + 7 < 32).
      { destruct (Z.lt_ge_cases (shift + 7) 32) as [|Hge]; [assumption|].
        assert (2 ^ 25 <= 2 ^ shift) by (apply Z.pow_le_mono_r; lia).
        assert (128 <= n) by lia. nia. }
      assert (Hp31 : 2 ^ (shift + 7) <= 2 ^ 31) by (apply Z.pow_le_mono_r; lia).
      destruct (Z.ltb_spec (shift + 7) 32) as [_|]; [|lia].
      rewrite or_shl32 by lia.
      rewrite (toInt32_small (acc + n mod 128 * 2 ^ shift)) by nia.
      replace (pre ++ varintByte n :: encodeNumberLoop room (n / 128) ++ rest)
        with ((pre ++ [varintByte n]) ++ encodeNumberLoop room (n / 128) ++ rest)
        by (rewrite <- app_assoc; reflexivity).
      replace (S (List.length pre)) with (List.length (pre ++ [varintByte n]))
        by (rewrite length_app; simpl; lia).
      rewrite IH.
      * f_equal. f_equal.
        -- f_equal. rewrite Hpow. nia.
        -- rewrite length_app. simpl. lia.
      * assumption.
      * replace (7 * Z.of_nat (S room)) with (7 * Z.of_nat room + 7) in Hroom by lia.
        rewrite Z.pow_add_r in Hroom by lia. change (2 ^ 7) with 128 in Hroom.
        assert (0 < 2 ^ (7 * Z.of_nat room)) by (apply Z.pow_pos_nonneg; lia).
        apply Z.div_lt_upper_bound; lia.
      * lia.
      * rewrite Hpow. nia.
      * rewrite Hpow. nia.
    + assert (Hq0 : n / 128 = 0) by lia.
      assert (Hsmall : n mod 128 = n) by lia.
      rewrite Z.mod_mod by lia. rewrite Hsmall.
      destruct (Z.ltb_spec n 128) as [_|]; [|lia].
      rewrite or_shl32 by lia.
      f_equal. f_equal. simpl. lia.
Qed.

Lemma decodeNumber_encodeNumber32 (this : XMLConverter) (n : Z) (rest : list byte) :
  0 <= n < 2 ^ 32 ->
  decodeNumber (setBinaryData this (encodeNumber n ++ rest))
  = Ok (JS.toInt32 n, setBinaryData this rest).
Proof.
  intros Hn. unfold decodeNumber, encodeNumber.
  rewrite setBinaryData_binaryData.
  destruct (Z.eqb_spec n 0) as [->|Hne].
  - cbn [app JS.get nth_error option_map JS.isZero].
    change (JS.ofByte x00 =? 0) with true. cbn iota.
    change 1 with (Z.of_nat 1). rewrite slice_from_nat. reflexivity.
  - assert (Hfirst : JS.isZero (JS.get (encodeNumberLoop 5 n ++ rest) 0) = false).
    { rewrite encodeNumberLoop_step32 by lia.
      cbn [app JS.get nth_error option_map JS.isZero].
      rewrite ofByte_varintByte by lia.
      pose proof (Z.mod_pos_bound n 128 ltac:(lia)).
      pose proof (Z.div_mod n 128 ltac:(lia)).
      destruct (Z.ltb_spec 0 (n / 128)); apply Z.eqb_neq; lia. }
    rewrite Hfirst.
    pose proof (decodeNumberLoop_encodeNumberLoop32 5 n 0 0 [] rest) as Hloop.
    cbn [app List.length] in Hloop.
    rewrite Hloop by (change (7 * Z.of_nat 5) with 35; lia).
    cbn [bind]. rewrite slice_from_nat.
    rewrite Nat.add_0_l.
    rewrite (proj2 (firstn_skipn_app _ _)), setBinaryData_twice.
    f_equal. f_equal. f_equal. lia.
Qed.

(** X1.  For every integer [n], [decodeNumber] on the bytes of
    [encodeNumber n] (whatever follows them) returns [ToInt32 n] and
    consumes exactly those bytes: [n] itself below 2^31, and the negative
    number [n - 2^32] for [n] from 2^31 up to 2^32. *)
Theorem decodeNumber_encodeNumber_toInt32 (this : XMLConverter) (n : Z)
    (rest : list byte) :
  decodeNumber (setBinaryData this (encodeNumber n ++ rest))
  = Ok (JS.toInt32 n, setBinaryData this rest) /\
  (0 <= n < 2 ^ 31 -> JS.toInt32 n = n) /\
  (2 ^ 31 <= n < 2 ^ 32 -> JS.toInt32 n = n - 2 ^ 32).
Proof.
  split; [|split].
  - rewrite encodeNumber_mod32, <- (toInt32_mod32 n).
    apply decodeNumber_encodeNumber32. apply Z.mod_pos_bound. lia.
  - intros H. apply toInt32_small. lia.
  - intros H. rewrite <- (toInt32_shift n 1).
    apply toInt32_small. lia.
Qed.

(** ** The shape of an encoded number *)

Lemma encodeNumberLoop_exact (room : nat) :
  forall (n : Z) (k : nat),
    (1 <= k <= room)%nat -> 0 <= n < 2 ^ 32 ->
    2 ^ (7 * (Z.of_nat k - 1)) <= n \/ k = 1%nat ->
    n < 2 ^ (7 * Z.of_nat k) ->
    List.length (encodeNumberLoop room n) = k.
Proof.
  induction room as [|room IH]; intros n k Hk Hn Hlow Hhigh; [lia|].
  rewrite encodeNumberLoop_step32 by assumption.
  pose proof (div128_range n Hn) as Hq.
  destruct k as [|[|k]]; [lia| |].
  - change (2 ^ (7 * Z.of_nat 1)) with 128 in Hhigh.
    assert (n / 128 = 0) by (apply Z.div_small; lia).
    destruct (Z.ltb_spec 0 (n / 128)); [lia | reflexivity].
  - destruct Hlow as [Hlow|]; [|lia].
    replace (7 * (Z.of_nat (S (S k)) - 1)) with (7 * Z.of_nat k + 7) in Hlow by lia.
    replace (7 * Z.of_nat (S (S k))) with (7 * Z.of_nat (S k) + 7) in Hhigh by lia.
    rewrite Z.pow_add_r in Hlow, Hhigh by lia. change (2 ^ 7) with 128 in *.
    assert (Hp : 0 < 2 ^ (7 * Z.of_nat k)) by (apply Z.pow_pos_nonneg; lia).
    assert (Hdiv : 2 ^ (7 * Z.of_nat k) <= n / 128)
      by (apply Z.div_le_lower_bound; lia).
    destruct (Z.ltb_spec 0 (n / 128)); [|lia].
    cbn [List.length]. f_equal. apply IH.
    + lia.
    + assumption.
    + left. replace (7 * (Z.of_nat (S k) - 1)) with (7 * Z.of_nat k) by lia.
      assumption.
    + apply Z.div_lt_upper_bound; lia.
Qed.

(** X3.  For a number below 2^32, [encodeNumber] produces one byte per
    seven significant bits: 1 byte below 2^7, 2 below 2^14, 3 below 2^21,
    4 below 2^28 and 5 from there on. *)
Theorem encodeNumber_byte_count (n : Z) :
  0 <= n < 2 ^ 32 ->
  List.length (encodeNumber n)
  = if n <? 2 ^ 7 then 1%nat
    else if n <? 2 ^ 14 then 2%nat
    else if n <? 2 ^ 21 then 3%nat
    else if n <? 2 ^ 28 then 4%nat
    else 5%nat.
Proof.
  intros Hn. unfold encodeNumber.
  destruct (Z.eqb_spec n 0) as [->|Hne]; [reflexivity|].
  destruct (Z.ltb_spec n (2 ^ 7));
    [apply encodeNumberLoop_exact;
       [lia | lia | right; reflexivity | simpl; lia]|].
  destruct (Z.ltb_spec n (2 ^ 14));
    [apply encodeNumberLoop_exact;
       [lia | lia | left; simpl; lia | simpl; lia]|].
  destruct (Z.ltb_spec n (2 ^ 21));
    [apply encodeNumberLoop_exact;
       [lia | lia | left; simpl; lia | simpl; lia]|].
  destruct (Z.ltb_spec n (2 ^ 28));
    [apply encodeNumberLoop_exact;
       [lia | lia | left; simpl; lia | simpl; lia]|].
  apply encodeNumberLoop_exact; [lia | lia | left; simpl; lia | simpl; lia].
Qed.

Lemma encodeNumber_byte_count_witness :
  List.length (encodeNumber 300)
  = if 300 <? 2 ^ 7 then 1%nat
    else if 300 <? 2 ^ 14 then 2%nat
    else if 300 <? 2 ^ 21 then 3%nat
    else if 300 <? 2 ^ 28 then 4%nat
    else 5%nat.
Proof.
  apply (encodeNumber_byte_count 300). lia.
Defined.

Lemma continues_varintByte_last (n : Z) :
  0 <= n -> n / 128 <= 0 -> continues (varintByte n) = false.
Proof.
  intros Hn Hq. unfold continues.
  rewrite byte_and_80, ofByte_varintByte by lia.
  pose proof (Z.mod_pos_bound n 128 ltac:(lia)).
  destruct (Z.ltb_spec 0 (n / 128)); [lia|].
  apply negb_false_iff, Z.ltb_lt. lia.
Qed.

Lemma encodeNumberLoop_terminated (room : nat) :
  forall n : Z,
    0 <= n < 2 ^ 32 -> n < 2 ^ (7 * Z.of_nat room) -> (1 <= room)%nat ->
    exists (init : list byte) (last : byte),
      encodeNumberLoop room n = init ++ [last] /\
      Forall (fun b => continues b = true) init /\
      continues last = false.
Proof.
  induction room as [|room IH]; intros n Hn Hroom Hpos; [lia|].
  rewrite encodeNumberLoop_step32 by assumption.
  pose proof (div128_range n Hn) as Hq.
  destruct (Z.ltb_spec 0 (n / 128)) as [Hmore|Hlast].
  - destruct room as [|room].
    + change (2 ^ (7 * Z.of_nat 1)) with 128 in Hroom.
      assert (n / 128 = 0) by (apply Z.div_small; lia). lia.
    + destruct (IH (n / 128)) as [init [last [E [Hinit Hlast]]]];
        [assumption | | lia |].
      * replace (7 * Z.of_nat (S (S room))) with (7 * Z.of_nat (S room) + 7)
          in Hroom by lia.
        rewrite Z.pow_add_r in Hroom by lia. change (2 ^ 7) with 128 in Hroom.
        apply Z.div_lt_upper_bound; lia.
      * exists (varintByte n :: init), last. rewrite E. repeat split.
        -- constructor; [apply continues_varintByte; lia | assumption].
        -- assumption.
  - exists [], (varintByte n). repeat split.
    + constructor.
    + apply continues_varintByte_last; lia.
Qed.

(** X4.  The bytes of [encodeNumber n], for every integer [n], form one
    complete number: every byte but the last has the continuation bit set,
    the last has it clear, and there are at most five bytes. *)
Theorem encodeNumber_terminated (n : Z) :
  exists (init : list byte) (last : byte),
    encodeNumber n = init ++ [last] /\
    Forall (fun b => continues b = true) init /\
    continues last = false /\
    (List.length init <= 4)%nat.
Proof.
  rewrite encodeNumber_mod32.
  pose proof (Z.mod_pos_bound n (2 ^ 32) ltac:(lia)) as Hn.
  remember (n mod 2 ^ 32) as m eqn:Hm. clear n Hm.
  assert (Hlen : (List.length (encodeNumber m) <= 5)%nat).
  { unfold encodeNumber. destruct (m =? 0); [simpl; lia|].
    apply encodeNumberLoop_length. }
  unfold encodeNumber in *. destruct (Z.eqb_spec m 0) as [->|Hne].
  - exists [], x00. repeat split; [constructor | simpl; lia].
  - destruct (encodeNumberLoop_terminated 5 m Hn) as [init [last [E [Hi Hl]]]].
    + change (2 ^ (7 * Z.of_nat 5)) with (2 ^ 35). lia.
    + lia.
    + exists init, last. rewrite E in *. rewrite length_app in Hlen.
      simpl in Hlen. repeat split; try assumption. lia.
Qed.

(** ** What [decodeNumber] does on any buffer *)

Lemma decodeNumberLoop_value (fuel : nat) :
  forall (bin : list byte) (number shift : Z) (currentIndex : nat) (v : Z) (j : nat),
    decodeNumberLoop fuel bin number shift currentIndex = Ok (v, j) ->
    - 2 ^ 31 <= v < 2 ^ 31 /\ (j <= currentIndex + fuel)%nat.
Proof.
  induction fuel as [|fuel IH]; intros bin number shift idx v j H; [discriminate|].
  cbn [decodeNumberLoop] in H.
  destruct (JS.get bin idx) as [byte|]; [|discriminate].
  destruct (JS.and byte 128 =? 0).
  - inversion H; subst. split; [apply toInt32_range | lia].
  - destruct (shift + 7 <? 32).
    + apply IH in H. destruct H as [Hv Hj]. split; [assumption | lia].
    + inversion H; subst. split; [apply toInt32_range | lia].
Qed.

(** X5.  Whenever [decodeNumber] returns, it has consumed between one and
    five bytes from the front of the buffer, the rest of the buffer is
    untouched, and the number it returns is a 32-bit signed integer. *)
Theorem decodeNumber_consumes (this this' : XMLConverter) (v : Z) :
  decodeNumber this = Ok (v, this') ->
  exists k : nat,
    (1 <= k <= 5)%nat /\ (k <= List.length (binaryData this))%nat /\
    this' = setBinaryData this (skipn k (binaryData this)) /\
    - 2 ^ 31 <= v < 2 ^ 31.
Proof.
  unfold decodeNumber. intros H.
  destruct (JS.isZero (JS.get (binaryData this) 0)) eqn:E.
  - inversion H; subst. exists 1%nat.
    change 1 with (Z.of_nat 1). rewrite slice_from_nat.
    destruct (binaryData this); [discriminate|].
    repeat split; simpl; lia.
  - destruct (decodeNumberLoop 5 (binaryData this) 0 0 0) as [[n j]| |] eqn:El;
      try discriminate.
    cbn [bind] in H. inversion H; subst.
    pose proof (decodeNumberLoop_bounds _ _ _ _ _ _ _ El) as Hb.
    pose proof (decodeNumberLoop_value _ _ _ _ _ _ _ El) as [Hv Hj].
    exists j. rewrite slice_from_nat. repeat split; lia.
Qed.

Lemma decodeNumber_consumes_witness :
  exists k : nat,
    (1 <= k <= 5)%nat /\
    (k <= List.length (binaryData (newXMLConverter swapOff [xac; x02; x07])))%nat /\
    setBinaryData (newXMLConverter swapOff [xac; x02; x07]) [x07]
    = setBinaryData (newXMLConverter swapOff [xac; x02; x07])
        (skipn k (binaryData (newXMLConverter swapOff [xac; x02; x07]))) /\
    - 2 ^ 31 <= 300 < 2 ^ 31.
Proof.
  apply (decodeNumber_consumes (newXMLConverter swapOff [xac; x02; x07])
           (setBinaryData (newXMLConverter swapOff [xac; x02; x07]) [x07]) 300).
  reflexivity.
Defined.




(** ** The byte transforms on arrays *)

Lemma lookup_tables_commute (b : byte) :
  lookup nibbleSwapTable (lookup adjacentBitSwapTable b)
  = lookup adjacentBitSwapTable (lookup nibbleSwapTable b).
Proof.
  destruct b; vm_compute; reflexivity.
Qed.

(** X7.  [nibbleSwap] and [swapAdjacentBits] return an array of the same
    length, each undoes itself when applied twice, and the two commute. *)
Theorem byte_transforms (bin : list byte) :
  nibbleSwap (nibbleSwap bin) = bin /\
  swapAdjacentBits (swapAdjacentBits bin) = bin /\
  List.length (nibbleSwap bin) = List.length bin /\
  List.length (swapAdjacentBits bin) = List.length bin /\
  nibbleSwap (swapAdjacentBits bin) = swapAdjacentBits (nibbleSwap bin).
Proof.
  unfold nibbleSwap, swapAdjacentBits. rewrite !map_map, !length_map.
  repeat split.
  - rewrite <- (map_id bin) at 2. apply map_ext, nibbleSwap_involutive.
  - rewrite <- (map_id bin) at 2. apply map_ext, adjacentBitSwap_involutive.
  - apply map_ext, lookup_tables_commute.
Qed.

(** X8.  The entry of [adjacentBitSwapTable] for a byte has, at each of its
    eight bit positions, the bit of the neighbouring position of the byte:
    bits 0 and 1, 2 and 3, 4 and 5, 6 and 7 change places. *)
Theorem adjacentBitSwap_bits (b : byte) (i : Z) :
  0 <= i < 8 ->
  Z.testbit (JS.ofByte (lookup adjacentBitSwapTable b)) i
  = Z.testbit (JS.ofByte b) (Z.lxor i 1).
Proof.
  intros Hi.
  assert (Hcases : i = 0 \/ i = 1 \/ i = 2 \/ i = 3 \/
                   i = 4 \/ i = 5 \/ i = 6 \/ i = 7) by lia.
  clear Hi.
  destruct Hcases as [->|[->|[->|[->|[->|[->|[->| ->]]]]]]];
    destruct b; vm_compute; reflexivity.
Qed.

Lemma adjacentBitSwap_bits_witness :
  Z.testbit (JS.ofByte (lookup adjacentBitSwapTable x01)) 1
  = Z.testbit (JS.ofByte x01) (Z.lxor 1 1).
Proof.
  apply (adjacentBitSwap_bits x01 1). lia.
Defined.

(** ** The accumulator *)

(** X9.  [addToAcc] and [encodeNumberAddtoAcc] only ever append: after
    adding an array and then a number, the accumulator is the old
    accumulator followed by the array and by the bytes [encodeNumber] gives
    for the number, and no other field of the converter has changed. *)
Theorem accumulator_append_only (this : XMLConverter) (array : list byte) (n : Z) :
  encodeNumberAddtoAcc n (addToAcc array this)
  = setAccumulator this (accumulator this ++ array ++ encodeNumber n).
Proof.
  rewrite encodeNumberAddtoAcc_app, addToAcc_app.
  cbn [accumulator setAccumulator]. rewrite <- app_assoc. reflexivity.
Qed.

(** ** String fields *)

(** X10.  [encodeString] and [encodeStringAddToAcc] leave the converter in
    the same state: the first takes the length before the swap and the
    second after it, and the swap keeps the length. *)
Theorem encodeString_encodeStringAddToAcc (encoder : string -> list byte)
    (this : XMLConverter) (str : string) (isFixed : bool) :
  encodeString encoder str this = encodeStringAddToAcc encoder str isFixed this.
Proof.
  unfold encodeString. rewrite encodeStringAddToAcc_app.
  rewrite !addToAcc_app. cbn [accumulator setAccumulator].
  unfold wireString, payload, JS.len.
  destruct (swapEnabled this); rewrite ?nibbleSwap_length, <- app_assoc;
    reflexivity.
Qed.

(** X11.  A string field written by [encodeStringAddToAcc] on a fresh
    converter is read back by [decodeString] on the same configuration,
    whatever bytes follow it: the result is the string as the platform
    codec reads it back, and the buffer is left at the bytes that follow.
    The byte length of the string has to be below 2^31. *)
Theorem string_field_roundtrip (encoder : string -> list byte)
    (decoder : list byte -> string) (o : options) (s : string)
    (written read : bool) (rest : list byte) :
  fits encoder s = true ->
  decodeString decoder read
    (newXMLConverter o
       (accumulator (encodeStringAddToAcc encoder s written (newXMLConverter o []))
        ++ rest))
  = Ok (decoder (encoder s), newXMLConverter o rest).
Proof.
  intros Hfits. rewrite encodeStringAddToAcc_app.
  cbn [accumulator setAccumulator newXMLConverter swapEnabled app].
  apply (decodeString_wireString encoder decoder (newXMLConverter o []) s read rest
           Hfits).
Qed.

Lemma string_field_roundtrip_witness :
  decodeString asciiDecoder true
    (newXMLConverter converterOptions
       (accumulator (encodeStringAddToAcc asciiEncoder "sha-1" false
                       (newXMLConverter converterOptions []))
        ++ [x14; x00]))
  = Ok (asciiDecoder (asciiEncoder "sha-1"),
        newXMLConverter converterOptions [x14; x00]).
Proof.
  apply (string_field_roundtrip asciiEncoder asciiDecoder converterOptions
           "sha-1" false true [x14; x00]).
  reflexivity.
Defined.

Lemma decodeString_short (encoder : string -> list byte)
    (decoder : list byte -> string) (this : XMLConverter) (s : string)
    (isFixed : bool) (k : nat) :
  fits encoder s = true ->
  (k < List.length (encoder s))%nat ->
  decodeString decoder isFixed
    (setBinaryData this
       (encodeNumber (JS.len (encoder s)) ++
        firstn k (payload encoder (swapEnabled this) s)))
  = Ok (decoder (unswap (swapEnabled this)
                   (firstn k (payload encoder (swapEnabled this) s))),
        setBinaryData this []).
Proof.
  intros Hfits Hk. apply fits_spec in Hfits.
  unfold decodeString.
  rewrite decodeNumber_encodeNumber by lia.
  cbn [bind binaryData setBinaryData swapEnabled].
  rewrite slice_to, slice_from by lia.
  assert (Hshort : (List.length (firstn k (payload encoder (swapEnabled this) s))
                    <= Z.to_nat (JS.len (encoder s)))%nat).
  { rewrite length_firstn, payload_length. unfold JS.len. rewrite Nat2Z.id. lia. }
  rewrite firstn_all2, skipn_all2 by assumption.
  unfold unswap. destruct (swapEnabled this); reflexivity.
Qed.

(** X12.  When the buffer ends inside the payload of a string field (the
    length is complete, fewer payload bytes are present than it
    announces), [decodeString] raises no error: it decodes the payload
    bytes that are there and leaves the buffer empty. *)
Theorem decodeString_short_payload (encoder : string -> list byte)
    (decoder : list byte -> string) (this : XMLConverter) (s : string)
    (isFixed : bool) (k : nat) :
  fits encoder s = true ->
  (k < List.length (encoder s))%nat ->
  decodeString decoder isFixed
    (setBinaryData this
       (encodeNumber (JS.len (encoder s)) ++
        firstn k (payload encoder (swapEnabled this) s)))
  = Ok (decoder (unswap (swapEnabled this)
                   (firstn k (payload encoder (swapEnabled this) s))),
        setBinaryData this []).
Proof.
  apply decodeString_short.
Qed.

Lemma decodeString_short_payload_witness :
  decodeString asciiDecoder false
    (setBinaryData (newXMLConverter swapOff [])
       (encodeNumber (JS.len (asciiEncoder "PLAIN")) ++
        firstn 2 (payload asciiEncoder false "PLAIN")))
  = Ok (asciiDecoder (unswap false (firstn 2 (payload asciiEncoder false "PLAIN"))),
        setBinaryData (newXMLConverter swapOff []) []).
Proof.
  apply (decodeString_short_payload asciiEncoder asciiDecoder
           (newXMLConverter swapOff []) "PLAIN" false 2).
  - reflexivity.
  - simpl. lia.
Defined.

(** ** The alternate encoding of fixed strings *)

Lemma minOf_fold_range (bin : list byte) :
  forall m : Z,
    0 <= m < 256 ->
    exists m', fold_left
                 (fun m b => match m with
                             | None => Some (JS.ofByte b)
                             | Some v => Some (Z.min v (JS.ofByte b))
                             end) bin (Some m) = Some m' /\ 0 <= m' < 256.
Proof.
  induction bin as [|b bin IH]; intros m Hm.
  - exists m. split; [reflexivity | assumption].
  - cbn [fold_left]. apply IH. pose proof (ofByte_range b). lia.
Qed.

Lemma minOf_cases (bin : list byte) :
  (bin = [] /\ minOf bin = None) \/
  (bin <> [] /\ exists m, minOf bin = Some m /\ 0 <= m < 256).
Proof.
  destruct bin as [|b bin]; [left; split; reflexivity|].
  right. split; [discriminate|]. unfold minOf. cbn [fold_left].
  apply minOf_fold_range. apply ofByte_range.
Qed.

Lemma toUint8_mod (z : Z) : JS.toUint8 (z mod 256) = JS.toUint8 z.
Proof.
  unfold JS.toUint8. rewrite Z.mod_mod by lia. reflexivity.
Qed.

(** X13.  [decodeStaticString] undoes [encodeStaticString]: the encoding
    is one byte longer than the UTF-8 form of the string (the smallest
    byte, then every byte minus it), and decoding it gives the UTF-8 form
    back, the empty string included. *)
Theorem static_string_roundtrip (encoder : string -> list byte) (s : string) :
  decodeStaticString (encodeStaticString encoder s) = encoder s /\
  List.length (encodeStaticString encoder s) = S (List.length (encoder s)).
Proof.
  unfold encodeStaticString.
  destruct (minOf_cases (encoder s)) as [[Hnil Hmin]|[Hne [m [Hmin Hm]]]];
    rewrite Hmin.
  - rewrite Hnil. split; reflexivity.
  - split; [|cbn [List.length]; rewrite length_map; reflexivity].
    unfold decodeStaticString.
    cbn [JS.get nth_error option_map]. rewrite ofByte_toUint8.
    rewrite (Z.mod_small m 256) by lia.
    change 1 with (Z.of_nat 1). rewrite slice_from_nat. cbn [skipn].
    rewrite map_map. rewrite <- (map_id (encoder s)) at 2.
    apply map_ext. intros b. rewrite ofByte_toUint8.
    rewrite <- toUint8_mod. rewrite Z.add_mod_idemp_l by lia.
    replace (JS.ofByte b - m + m) with (JS.ofByte b) by lia.
    rewrite toUint8_mod. apply toUint8_ofByte.
Qed.

(** ** The encoder as a whole *)

(** X14.  [encodeElement] does not reset the accumulator: whenever two
    successive calls on the same converter return, the accumulator after
    the second is the accumulator before the first followed by the bytes
    of the first element and by the bytes of the second.  On an object
    without [attrs] the call throws a [TypeError].  (A call that uses up
    the call stack on a very deep tree does not return; the model has no
    such run.) *)
Theorem encodeElement_accumulates (encoder : string -> list byte)
    (this this1 this2 : XMLConverter) (t1 t2 : node) (content : string) :
  encodeElement encoder t1 this = Ok this1 ->
  encodeElement encoder t2 this1 = Ok this2 ->
  this2 = setAccumulator this
            (accumulator this ++
             wireElement encoder (swapEnabled this) t1 ++
             wireElement encoder (swapEnabled this) t2) /\
  encodeElement encoder (Text content) this = Throw TypeError.
Proof.
  intros H1 H2. split; [|reflexivity].
  destruct t1 as [n1 a1 c1|]; [|discriminate H1].
  destruct t2 as [n2 a2 c2|]; [|discriminate H2].
  rewrite encodeElement_app in H1 by reflexivity. inversion H1; subst this1.
  rewrite encodeElement_app in H2 by reflexivity. inversion H2; subst this2.
  cbn [accumulator setAccumulator swapEnabled]. rewrite <- app_assoc. reflexivity.
Qed.

Lemma encodeElement_accumulates_witness :
  setAccumulator (newXMLConverter swapOff [])
    [x01; x61; x00; x14; x00; x01; x62; x00; x0a; x01; x78]
  = setAccumulator (newXMLConverter swapOff [])
      (accumulator (newXMLConverter swapOff []) ++
       wireElement asciiEncoder (swapEnabled (newXMLConverter swapOff []))
         (Element "a" [] []) ++
       wireElement asciiEncoder (swapEnabled (newXMLConverter swapOff []))
         (Element "b" [] [Text "x"])) /\
  encodeElement asciiEncoder (Text "x") (newXMLConverter swapOff [])
  = Throw TypeError.
Proof.
  apply (encodeElement_accumulates asciiEncoder (newXMLConverter swapOff [])
           (setAccumulator (newXMLConverter swapOff [])
              [x01; x61; x00; x14; x00])
           (setAccumulator (newXMLConverter swapOff [])
              [x01; x61; x00; x14; x00; x01; x62; x00; x0a; x01; x78])
           (Element "a" [] []) (Element "b" [] [Text "x"]) "x"); reflexivity.
Defined.

Lemma wireAttrs_length_swap (encoder : string -> list byte)
    (attrs : list (string * string)) :
  List.length (wireAttrs encoder true attrs)
  = List.length (wireAttrs encoder false attrs).
Proof.
  unfold wireAttrs. induction attrs as [|kv attrs IH]; [reflexivity|].
  cbn [flat_map]. rewrite !length_app, IH. unfold wireAttr.
  rewrite !length_app, !wireString_length. reflexivity.
Qed.

Lemma flat_map_length_ext {A B} (f g : A -> list B) (l : list A) :
  Forall (fun a => List.length (f a) = List.length (g a)) l ->
  List.length (flat_map f l) = List.length (flat_map g l).
Proof.
  induction 1 as [|a l Ha _ IH]; [reflexivity|].
  cbn [flat_map]. rewrite !length_app, Ha, IH. reflexivity.
Qed.

Lemma wireElement_length_swap (encoder : string -> list byte) (t : node) :
  List.length (wireElement encoder true t)
  = List.length (wireElement encoder false t).
Proof.
  induction t as [name attrs children IH|content] using node_ind';
    [|reflexivity].
  rewrite !wireElement_unfold, !length_app, !wireHeader_length.
  rewrite !wireString_length, wireAttrs_length_swap.
  f_equal. destruct children as [|first others]; [reflexivity|].
  rewrite !length_app. f_equal.
  apply flat_map_length_ext.
  eapply Forall_impl; [|exact IH].
  intros c Hc. unfold wireChild.
  destruct (JS.truthy (nodeName c)); [exact Hc|].
  destruct (nodeContent c) as [s|]; [|reflexivity].
  destruct (JS.truthy (Some s)); [|reflexivity].
  rewrite !wireString_length. reflexivity.
Qed.

(** X15.  Of the options only [swapEnabled] reaches the encoder: two
    configurations with the same [swapEnabled] give the same bytes,
    whatever their [mapperModule] and [swapTags]; and two configurations
    that differ in [swapEnabled] give the same number of bytes. *)
Theorem encodeTree_options (encoder : string -> list byte) (o1 o2 : options)
    (t : node) :
  match encodeTree encoder o1 t, encodeTree encoder o2 t with
  | Ok b1, Ok b2 =>
      List.length b1 = List.length b2 /\
      (opt_swapEnabled o1 = opt_swapEnabled o2 -> b1 = b2)
  | Throw e1, Throw e2 => e1 = e2
  | _, _ => False
  end.
Proof.
  destruct t as [name attrs children|content]; [|reflexivity].
  unfold encodeTree. rewrite !encodeElement_app by reflexivity.
  cbn [bind accumulator setAccumulator newXMLConverter swapEnabled app].
  split.
  - destruct (opt_swapEnabled o1), (opt_swapEnabled o2);
      rewrite ?wireElement_length_swap; reflexivity.
  - intros ->. reflexivity.
Qed.

(** ** The decoder on arbitrary buffers *)

Lemma decodeNumberLoop_throws (fuel : nat) :
  forall (bin : list byte) (number shift : Z) (currentIndex : nat) (e : exn),
    decodeNumberLoop fuel bin number shift currentIndex = Throw e ->
    e = IncompleteNumber.
Proof.
  induction fuel as [|fuel IH]; intros bin number shift idx e H; [discriminate|].
  cbn [decodeNumberLoop] in H.
  destruct (JS.get bin idx) as [byte|]; [|inversion H; reflexivity].
  destruct (JS.and byte 128 =? 0); [discriminate|].
  destruct (shift + 7 <? 32); [eapply IH; eassumption | discriminate].
Qed.

Lemma decodeNumber_throws (this : XMLConverter) (e : exn) :
  decodeNumber this = Throw e -> e = IncompleteNumber.
Proof.
  unfold decodeNumber. intros H.
  destruct (JS.isZero (JS.get (binaryData this) 0)); [discriminate|].
  destruct (decodeNumberLoop 5 (binaryData this) 0 0 0) as [[n j]| |] eqn:E;
    try discriminate.
  cbn [bind] in H. inversion H; subst.
  eapply decodeNumberLoop_throws. eassumption.
Qed.

Lemma decodeString_throws (decoder : list byte -> string) (isFixed : bool)
    (this : XMLConverter) (e : exn) :
  decodeString decoder isFixed this = Throw e -> e = IncompleteNumber.
Proof.
  unfold decodeString. intros H.
  destruct (decodeNumber this) as [[n this1]| |] eqn:E; try discriminate.
  cbn [bind] in H. inversion H; subst. eapply decodeNumber_throws. eassumption.
Qed.

Lemma decodeAttr_throws (decoder : list byte -> string) (this : XMLConverter)
    (e : exn) :
  decodeAttr decoder this = Throw e -> e = IncompleteNumber.
Proof.
  unfold decodeAttr. intros H.
  destruct (decodeString decoder true this) as [[k this1]| |] eqn:E1;
    try discriminate.
  - cbn [bind] in H.
    destruct (decodeString decoder false this1) as [[v this2]| |] eqn:E2;
      try discriminate.
    cbn [bind] in H. inversion H; subst. eapply decodeString_throws. eassumption.
  - cbn [bind] in H. inversion H; subst. eapply decodeString_throws. eassumption.
Qed.

Lemma forLoop_throws {A} (body : XMLConverter -> result (A * XMLConverter)) :
  (forall this e, body this = Throw e -> e = IncompleteNumber) ->
  forall (count : nat) (this : XMLConverter) (e : exn),
    forLoop count body this = Throw e -> e = IncompleteNumber.
Proof.
  intros Hbody. induction count as [|count IH]; intros this e H; [discriminate|].
  cbn [forLoop] in H.
  destruct (body this) as [[a this1]| |] eqn:E1; try discriminate.
  - cbn [bind] in H.
    destruct (forLoop count body this1) as [[l this2]| |] eqn:E2;
      try discriminate.
    cbn [bind] in H. inversion H; subst. eapply IH. eassumption.
  - cbn [bind] in H. inversion H; subst. eapply Hbody. eassumption.
Qed.

Lemma decodeHeader_throws (decoder : list byte -> string) (this : XMLConverter)
    (e : exn) :
  decodeHeader decoder this = Throw e -> e = IncompleteNumber.
Proof.
  unfold decodeHeader. intros H.
  destruct (decodeString decoder true this) as [[name this1]| |] eqn:E1;
    try discriminate;
    [|cbn [bind] in H; inversion H; subst; eapply decodeString_throws; eassumption].
  cbn [bind] in H.
  destruct (decodeNumber this1) as [[attrCount this2]| |] eqn:E2;
    try discriminate;
    [|cbn [bind] in H; inversion H; subst; eapply decodeNumber_throws; eassumption].
  cbn [bind] in H.
  destruct (0 <? attrCount); [|discriminate].
  destruct (forLoop (Z.to_nat attrCount) (decodeAttr decoder) this2)
    as [[attrs this3]| |] eqn:E3; try discriminate.
  cbn [bind] in H. inversion H; subst.
  eapply (forLoop_throws _ (decodeAttr_throws decoder)). eassumption.
Qed.

Lemma decodeChildren_throws (decoder : list byte -> string)
    (self : XMLConverter -> result (node * XMLConverter))
    (name : string) (attrs : list (string * string)) :
  (forall this e, self this = Throw e -> e = IncompleteNumber) ->
  forall (this : XMLConverter) (e : exn),
    decodeChildren decoder self name attrs this = Throw e -> e = IncompleteNumber.
Proof.
  intros Hself this e H. unfold decodeChildren in H.
  destruct (decodeNumber this) as [[childrenType this1]| |] eqn:E1;
    try discriminate;
    [|cbn [bind] in H; inversion H; subst; eapply decodeNumber_throws; eassumption].
  cbn [bind] in H.
  destruct (childrenType =? IS_ELEMENT).
  - destruct (decodeNumber this1) as [[childCount this2]| |] eqn:E2;
      try discriminate;
      [|cbn [bind] in H; inversion H; subst; eapply decodeNumber_throws; eassumption].
    cbn [bind] in H.
    destruct (0 <? childCount); [|discriminate].
    destruct (forLoop (Z.to_nat childCount) self this2)
      as [[children this3]| |] eqn:E3; try discriminate.
    cbn [bind] in H. inversion H; subst.
    eapply (forLoop_throws _ Hself). eassumption.
  - destruct (childrenType =? IS_CONTENT); [|discriminate].
    destruct (decodeString decoder false this1) as [[content this2]| |] eqn:E2;
      try discriminate.
    cbn [bind] in H. inversion H; subst. eapply decodeString_throws. eassumption.
Qed.

Lemma decodeElementFuel_throws (decoder : list byte -> string) (fuel : nat) :
  forall (this : XMLConverter) (e : exn),
    decodeElementFuel decoder fuel this = Throw e -> e = IncompleteNumber.
Proof.
  induction fuel as [|fuel IH]; intros this e H; [discriminate|].
  rewrite decodeElementFuel_S in H.
  destruct (decodeHeader decoder this) as [[h this1]| |] eqn:E1;
    try discriminate.
  - cbn [bind] in H. eapply decodeChildren_throws; eassumption.
  - cbn [bind] in H. inversion H; subst. eapply decodeHeader_throws. eassumption.
Qed.

Lemma forLoop_fuel {A} (body1 body2 : XMLConverter -> result (A * XMLConverter)) :
  (forall this this' a, body1 this = Ok (a, this') ->
                        (remaining this' <= remaining this)%nat) ->
  forall (count : nat) (this : XMLConverter),
    (forall s, (remaining s <= remaining this)%nat -> body1 s = body2 s) ->
    forLoop count body1 this = forLoop count body2 this.
Proof.
  intros Hshrink. induction count as [|count IH]; intros this Hext; [reflexivity|].
  cbn [forLoop]. rewrite <- (Hext this) by lia.
  destruct (body1 this) as [[a this1]| |] eqn:E1; try reflexivity.
  cbn [bind]. apply Hshrink in E1.
  rewrite (IH this1); [reflexivity|]. intros s Hs. apply Hext. lia.
Qed.

Lemma decodeElementFuel_fuel (decoder : list byte -> string) (fuel1 : nat) :
  forall (fuel2 : nat) (this : XMLConverter),
    (remaining this < fuel1)%nat -> (remaining this < fuel2)%nat ->
    decodeElementFuel decoder fuel1 this = decodeElementFuel decoder fuel2 this.
Proof.
  induction fuel1 as [|fuel1 IH]; intros fuel2 this H1 H2; [lia|].
  destruct fuel2 as [|fuel2]; [lia|].
  rewrite !decodeElementFuel_S.
  destruct (decodeHeader decoder this) as [[h this1]| |] eqn:E1; try reflexivity.
  cbn [bind]. apply decodeHeader_shrinks in E1. unfold decodeChildren.
  destruct (decodeNumber this1) as [[childrenType this2]| |] eqn:E2;
    try reflexivity.
  cbn [bind]. apply decodeNumber_shrinks in E2.
  destruct (childrenType =? IS_ELEMENT); [|reflexivity].
  destruct (decodeNumber this2) as [[childCount this3]| |] eqn:E3;
    try reflexivity.
  cbn [bind]. apply decodeNumber_shrinks in E3.
  destruct (0 <? childCount); [|reflexivity].
  rewrite (forLoop_fuel (decodeElementFuel decoder fuel1)
             (decodeElementFuel decoder fuel2)); [reflexivity | |].
  - intros s s' a Hs. apply decodeElementFuel_shrinks in Hs. lia.
  - intros s Hs. apply IH; lia.
Qed.

Lemma forLoop_more {A} (body1 body2 : XMLConverter -> result (A * XMLConverter)) :
  (forall s, body1 s <> OutOfFuel -> body2 s = body1 s) ->
  forall (count : nat) (this : XMLConverter),
    forLoop count body1 this <> OutOfFuel ->
    forLoop count body2 this = forLoop count body1 this.
Proof.
  intros Hbody. induction count as [|count IH]; intros this Hrun; [reflexivity|].
  cbn [forLoop] in *.
  destruct (body1 this) as [[a this1]|e|] eqn:E1.
  - rewrite (Hbody this) by (rewrite E1; discriminate). rewrite E1.
    cbn [bind] in *.
    destruct (forLoop count body1 this1) as [[l this2]|e|] eqn:E2.
    + rewrite (IH this1) by (rewrite E2; discriminate). rewrite E2. reflexivity.
    + rewrite (IH this1) by (rewrite E2; discriminate). rewrite E2. reflexivity.
    + exfalso. apply Hrun. reflexivity.
  - rewrite (Hbody this) by (rewrite E1; discriminate). rewrite E1. reflexivity.
  - exfalso. apply Hrun. reflexivity.
Qed.

Lemma decodeElementFuel_more (decoder : list byte -> string) (fuel1 : nat) :
  forall (fuel2 : nat) (this : XMLConverter),
    (fuel1 <= fuel2)%nat ->
    decodeElementFuel decoder fuel1 this <> OutOfFuel ->
    decodeElementFuel decoder fuel2 this = decodeElementFuel decoder fuel1 this.
Proof.
  induction fuel1 as [|fuel1 IH]; intros fuel2 this Hle Hrun;
    [exfalso; apply Hrun; reflexivity|].
  destruct fuel2 as [|fuel2]; [lia|].
  rewrite !decodeElementFuel_S in *.
  destruct (decodeHeader decoder this) as [[h this1]| |]; try reflexivity.
  cbn [bind] in *. unfold decodeChildren in *.
  destruct (decodeNumber this1) as [[childrenType this2]| |]; try reflexivity.
  cbn [bind] in *.
  destruct (childrenType =? IS_ELEMENT); [|reflexivity].
  destruct (decodeNumber this2) as [[childCount this3]| |]; try reflexivity.
  cbn [bind] in *.
  destruct (0 <? childCount); [|reflexivity].
  rewrite (forLoop_more (decodeElementFuel decoder fuel1)
             (decodeElementFuel decoder fuel2)); [reflexivity | |].
  - intros s Hs. apply IH; [lia | assumption].
  - intros E. apply Hrun. rewrite E. reflexivity.
Qed.

(** X16.  The outcome of [decodeElement] under a recursion budget (in an
    engine, the call stack).  The only error thrown is the
    incomplete-number error; the one other way not to return a node is to
    use the budget up, which a budget above the buffer length excludes (the
    nesting is never deeper than the buffer is long); and a larger budget
    never changes an outcome that a smaller one reached. *)
Theorem decodeElement_outcome (decoder : list byte -> string)
    (this : XMLConverter) (budget : nat) :
  (forall e : exn,
     decodeElementFuel decoder budget this = Throw e -> e = IncompleteNumber) /\
  ((List.length (binaryData this) < budget)%nat ->
   decodeElementFuel decoder budget this <> OutOfFuel) /\
  (forall larger : nat,
     (budget <= larger)%nat ->
     decodeElementFuel decoder budget this <> OutOfFuel ->
     decodeElementFuel decoder larger this = decodeElementFuel decoder budget this).
Proof.
  split; [|split].
  - intros e. apply decodeElementFuel_throws.
  - intros H. apply decodeElementFuel_total. exact H.
  - intros larger. apply decodeElementFuel_more.
Qed.

Lemma decodeElement_outcome_witness :
  (forall e : exn,
     decodeElementFuel asciiDecoder 2
       (newXMLConverter swapOff [x01; x61; x00; x14; x01; x01; x62; x00; x14; x00])
     = Throw e -> e = IncompleteNumber) /\
  ((List.length
      (binaryData
         (newXMLConverter swapOff [x01; x61; x00; x14; x01; x01; x62; x00; x14; x00]))
    < 2)%nat ->
   decodeElementFuel asciiDecoder 2
     (newXMLConverter swapOff [x01; x61; x00; x14; x01; x01; x62; x00; x14; x00])
   <> OutOfFuel) /\
  (forall larger : nat,
     (2 <= larger)%nat ->
     decodeElementFuel asciiDecoder 2
       (newXMLConverter swapOff [x01; x61; x00; x14; x01; x01; x62; x00; x14; x00])
     <> OutOfFuel ->
     decodeElementFuel asciiDecoder larger
       (newXMLConverter swapOff [x01; x61; x00; x14; x01; x01; x62; x00; x14; x00])
     = decodeElementFuel asciiDecoder 2
         (newXMLConverter swapOff [x01; x61; x00; x14; x01; x01; x62; x00; x14; x00])).
Proof.
  exact (decodeElement_outcome asciiDecoder
           (newXMLConverter swapOff [x01; x61; x00; x14; x01; x01; x62; x00; x14; x00])
           2).
Defined.

Lemma forLoop_all {A} (P : A -> Prop)
    (body : XMLConverter -> result (A * XMLConverter)) :
  (forall this this' a, body this = Ok (a, this') -> P a) ->
  forall (count : nat) (this this' : XMLConverter) (l : list A),
    forLoop count body this = Ok (l, this') ->
    Forall P l /\ List.length l = count.
Proof.
  intros Hbody. induction count as [|count IH]; intros this this' l H.
  - inversion H; subst. split; [constructor | reflexivity].
  - cbn [forLoop] in H.
    destruct (body this) as [[a this1]| |] eqn:E1; try discriminate.
    cbn [bind] in H.
    destruct (forLoop count body this1) as [[l1 this2]| |] eqn:E2;
      try discriminate.
    cbn [bind] in H. inversion H; subst.
    apply Hbody in E1. apply IH in E2. destruct E2 as [Hall Hlen].
    split; [constructor; assumption | simpl; lia].
Qed.

Lemma homogeneous_children (children : list node) (name : string)
    (attrs : list (string * string)) :
  children <> [] ->
  Forall (fun c => homogeneous c = true) children ->
  homogeneous (Element name attrs children) = true.
Proof.
  intros Hne Hall. cbn [homogeneous].
  assert (Hb : forallb (fun c => match c with
                                 | Element _ _ _ => homogeneous c
                                 | Text _ => false
                                 end) children = true).
  { apply forallb_forall. intros c Hc.
    rewrite Forall_forall in Hall. specialize (Hall c Hc).
    destruct c; [assumption | discriminate]. }
  destruct children as [|first others]; [contradiction|].
  destruct first as [cname cattrs cchildren|content].
  - exact Hb.
  - inversion Hall; subst. discriminate.
Qed.

Lemma decodeElementFuel_homogeneous (decoder : list byte -> string) (fuel : nat) :
  forall (this this' : XMLConverter) (t : node),
    decodeElementFuel decoder fuel this = Ok (t, this') -> homogeneous t = true.
Proof.
  induction fuel as [|fuel IH]; intros this this' t H; [discriminate|].
  rewrite decodeElementFuel_S in H.
  destruct (decodeHeader decoder this) as [[h this1]| |]; try discriminate.
  cbn [bind] in H. unfold decodeChildren in H.
  destruct (decodeNumber this1) as [[childrenType this2]| |]; try discriminate.
  cbn [bind] in H.
  destruct (childrenType =? IS_ELEMENT).
  - destruct (decodeNumber this2) as [[childCount this3]| |]; try discriminate.
    cbn [bind] in H.
    destruct (Z.ltb_spec 0 childCount); [|inversion H; reflexivity].
    destruct (forLoop (Z.to_nat childCount) (decodeElementFuel decoder fuel) this3)
      as [[children this4]| |] eqn:E; try discriminate.
    cbn [bind] in H. inversion H; subst.
    apply (forLoop_all (fun c => homogeneous c = true)) in E; [|exact IH].
    destruct E as [Hall Hlen].
    apply homogeneous_children; [|assumption].
    intros ->. simpl in Hlen. lia.
  - destruct (childrenType =? IS_CONTENT); [|inversion H; reflexivity].
    destruct (decodeString decoder false this2) as [[content this3]| |];
      try discriminate.
    cbn [bind] in H. inversion H; reflexivity.
Qed.

(** X17.  Whatever the buffer holds, a node that [decodeElement] returns
    has children of one kind at every level: none, exactly one text node,
    or element nodes only. *)
Theorem decodeElement_homogeneous (decoder : list byte -> string)
    (this this' : XMLConverter) (t : node) :
  decodeElement decoder this = Ok (t, this') -> homogeneous t = true.
Proof.
  unfold decodeElement. apply decodeElementFuel_homogeneous.
Qed.

Lemma decodeElement_homogeneous_witness :
  homogeneous (Element "a" [] []) = true.
Proof.
  apply (decodeElement_homogeneous asciiDecoder strayBuffer
           (setBinaryData strayBuffer [x14; x00]) (Element "a" [] [])).
  reflexivity.
Defined.

Lemma forLoop_weight {A} (w : A -> nat)
    (body : XMLConverter -> result (A * XMLConverter)) :
  (forall this this' a, body this = Ok (a, this') ->
                        (w a + remaining this' <= remaining this)%nat) ->
  forall (count : nat) (this this' : XMLConverter) (l : list A),
    forLoop count body this = Ok (l, this') ->
    (list_sum (map w l) + remaining this' <= remaining this)%nat.
Proof.
  intros Hbody. induction count as [|count IH]; intros this this' l H.
  - inversion H; subst. simpl. lia.
  - cbn [forLoop] in H.
    destruct (body this) as [[a this1]| |] eqn:E1; try discriminate.
    cbn [bind] in H.
    destruct (forLoop count body this1) as [[l1 this2]| |] eqn:E2;
      try discriminate.
    cbn [bind] in H. inversion H; subst.
    apply Hbody in E1. apply IH in E2. cbn [map list_sum fold_right]. unfold list_sum in *. lia.
Qed.

Lemma list_sum_ones {A} (l : list A) : list_sum (map (fun _ => 1%nat) l) = List.length l.
Proof.
  induction l as [|a l IH]; [reflexivity|]. cbn [map list_sum fold_right List.length]. unfold list_sum in *. lia.
Qed.

Lemma decodeHeader_weight (decoder : list byte -> string)
    (this this' : XMLConverter) (h : string * list (string * string)) :
  decodeHeader decoder this = Ok (h, this') ->
  (2 + List.length (snd h) + remaining this' <= remaining this)%nat.
Proof.
  unfold decodeHeader. intros H.
  destruct (decodeString decoder true this) as [[name this1]| |] eqn:E1;
    try discriminate.
  cbn [bind] in H.
  destruct (decodeNumber this1) as [[attrCount this2]| |] eqn:E2;
    try discriminate.
  cbn [bind] in H.
  apply decodeString_shrinks in E1. apply decodeNumber_shrinks in E2.
  destruct (0 <? attrCount).
  - destruct (forLoop (Z.to_nat attrCount) (decodeAttr decoder) this2)
      as [[attrs this3]| |] eqn:E3; try discriminate.
    cbn [bind] in H. inversion H; subst. cbn [snd].
    apply (forLoop_weight (fun _ => 1%nat)) in E3.
    + rewrite list_sum_ones in E3. lia.
    + intros s s' a Ha. unfold decodeAttr in Ha.
      destruct (decodeString decoder true s) as [[k s1]| |] eqn:F1;
        try discriminate.
      cbn [bind] in Ha.
      destruct (decodeString decoder false s1) as [[v s2]| |] eqn:F2;
        try discriminate.
      cbn [bind] in Ha. inversion Ha; subst.
      apply decodeString_shrinks in F1, F2. lia.
  - cbn [bind] in H. inversion H; subst. simpl. lia.
Qed.

Lemma decodeElementFuel_weight (decoder : list byte -> string) (fuel : nat) :
  forall (this this' : XMLConverter) (t : node),
    decodeElementFuel decoder fuel this = Ok (t, this') ->
    (weight t + remaining this' <= remaining this)%nat.
Proof.
  induction fuel as [|fuel IH]; intros this this' t H; [discriminate|].
  rewrite decodeElementFuel_S in H.
  destruct (decodeHeader decoder this) as [[[name attrs] this1]| |] eqn:E1;
    try discriminate.
  cbn [bind fst snd] in H. apply decodeHeader_weight in E1. cbn [snd] in E1.
  unfold decodeChildren in H.
  destruct (decodeNumber this1) as [[childrenType this2]| |] eqn:E2;
    try discriminate.
  cbn [bind] in H. apply decodeNumber_shrinks in E2.
  destruct (childrenType =? IS_ELEMENT).
  - destruct (decodeNumber this2) as [[childCount this3]| |] eqn:E3;
      try discriminate.
    cbn [bind] in H. apply decodeNumber_shrinks in E3.
    destruct (0 <? childCount).
    + destruct (forLoop (Z.to_nat childCount) (decodeElementFuel decoder fuel) this3)
        as [[children this4]| |] eqn:E4; try discriminate.
      cbn [bind] in H. inversion H; subst.
      apply (forLoop_weight weight _ IH) in E4. cbn [weight]. lia.
    + inversion H; subst. cbn [weight map list_sum fold_right]. unfold list_sum in *. lia.
  - destruct (childrenType =? IS_CONTENT).
    + destruct (decodeString decoder false this2) as [[content this3]| |] eqn:E3;
        try discriminate.
      cbn [bind] in H. inversion H; subst.
      apply decodeString_shrinks in E3. cbn [weight map list_sum fold_right]. unfold list_sum in *. lia.
    + inversion H; subst. cbn [weight map list_sum fold_right]. unfold list_sum in *. lia.
Qed.

(** X18.  A node that [decodeElement] returns is never larger than the
    bytes it was read from: its nodes and attributes together number at
    most the bytes consumed, so a count field cannot make the decoder build
    more than the buffer holds. *)
Theorem decodeElement_bounded (decoder : list byte -> string)
    (this this' : XMLConverter) (t : node) :
  decodeElement decoder this = Ok (t, this') ->
  (weight t + List.length (binaryData this')
   <= List.length (binaryData this))%nat.
Proof.
  unfold decodeElement. intros H.
  apply decodeElementFuel_weight in H. exact H.
Qed.

Lemma decodeElement_bounded_witness :
  (weight (Element "a" [] [])
   + List.length (binaryData (setBinaryData strayBuffer [x14; x00]))
   <= List.length (binaryData strayBuffer))%nat.
Proof.
  apply (decodeElement_bounded asciiDecoder strayBuffer
           (setBinaryData strayBuffer [x14; x00]) (Element "a" [] [])).
  reflexivity.
Defined.

(** X19.  The encodings of well-formed trees can be told apart from the
    front: [decodeElement] on the encoding of a tree followed by any bytes
    returns the tree and leaves exactly those bytes (the bytes after an
    element are never looked at), so if the encodings of two trees,
    each followed by some bytes, are the same sequence, the trees are equal
    and so are the bytes that follow. *)
Theorem encoding_prefix_free (encoder : string -> list byte)
    (decoder : list byte -> string) (o : options) (t1 t2 : node)
    (b1 b2 r1 r2 : list byte) :
  wellFormed encoder decoder t1 = true ->
  wellFormed encoder decoder t2 = true ->
  encodeTree encoder o t1 = Ok b1 ->
  encodeTree encoder o t2 = Ok b2 ->
  b1 ++ r1 = b2 ++ r2 ->
  decodeElement decoder (newXMLConverter o (b1 ++ r1))
  = Ok (t1, newXMLConverter o r1) /\
  t1 = t2 /\ r1 = r2.
Proof.
  intros Hwf1 Hwf2 He1 He2 Heq.
  assert (Hread : forall t b r,
             wellFormed encoder decoder t = true ->
             encodeTree encoder o t = Ok b ->
             decodeElement decoder (newXMLConverter o (b ++ r))
             = Ok (t, newXMLConverter o r)).
  { intros t b r Hwf He. unfold encodeTree in He.
    rewrite encodeElement_app in He
      by (eapply wellFormed_isElement; eassumption).
    cbn [bind accumulator setAccumulator newXMLConverter swapEnabled app] in He.
    inversion He; subst b; clear He.
    pose proof (decodeElement_total decoder
                  (newXMLConverter o
                     (wireElement encoder (opt_swapEnabled o) t ++ r))) as Htot.
    unfold decodeElement in *.
    destruct (wellFormed_readsBack encoder decoder t
                (S (List.length
                      (binaryData
                         (newXMLConverter o
                            (wireElement encoder (opt_swapEnabled o) t ++ r)))))
                (newXMLConverter o []) r Hwf) as [E|E].
    - exfalso. apply Htot. exact E.
    - exact E. }
  pose proof (Hread t1 b1 r1 Hwf1 He1) as H1.
  pose proof (Hread t2 b2 r2 Hwf2 He2) as H2.
  split; [exact H1|].
  rewrite Heq, H2 in H1. inversion H1. split; reflexivity.
Qed.

Lemma encoding_prefix_free_witness :
  decodeElement asciiDecoder
    (newXMLConverter converterOptions
       ([x02; x37; xd6; x00; x14; x00] ++ [x2a]))
  = Ok (Element "sm" [] [], newXMLConverter converterOptions [x2a]) /\
  Element "sm" [] [] = Element "sm" [] [] /\ [x2a] = [x2a].
Proof.
  apply (encoding_prefix_free asciiEncoder asciiDecoder converterOptions
           (Element "sm" [] []) (Element "sm" [] [])
           [x02; x37; xd6; x00; x14; x00] [x02; x37; xd6; x00; x14; x00]
           [x2a] [x2a]); reflexivity.
Defined.

(** ** Rendering and the entry points *)

Lemma elementToString_unfold (name : string) (attrs : list (string * string))
    (children : list node) :
  elementToString (Element name attrs children)
  = let* inner := childrenToStrings children in
    Ok (String.concat ""%string
          ((["<"%string; name] ++
            (if 0 <? JS.len attrs
             then [" "%string; String.concat " "%string (map attrToString attrs)]
             else []) ++
            [">"%string]) ++
           inner ++ ["</"%string; name; ">"%string])).
Proof.
  reflexivity.
Qed.

Lemma childrenToStrings_ok (children : list node) :
  Forall (fun c => isElement c = true -> exists s, elementToString c = Ok s)
         children ->
  exists l, childrenToStrings children = Ok l.
Proof.
  induction 1 as [|c cs Hc _ [l IH]]; [exists []; reflexivity|].
  cbn [childrenToStrings]. rewrite IH.
  destruct c as [name attrs children|content].
  - cbn [nodeName nodeContent]. destruct (JS.truthy (Some name)).
    + destruct (Hc eq_refl) as [s Hs]. rewrite Hs. cbn [bind].
      eexists. reflexivity.
    + eexists. reflexivity.
  - cbn [nodeName nodeContent JS.truthy].
    destruct content; cbn [bind]; eexists; reflexivity.
Qed.

Lemma elementToString_ok (t : node) :
  isElement t = true -> exists s, elementToString t = Ok s.
Proof.
  induction t as [name attrs children IH|content] using node_ind';
    intros Helem; [|discriminate].
  rewrite elementToString_unfold.
  destruct (childrenToStrings_ok children IH) as [l Hl]. rewrite Hl.
  cbn [bind]. eexists. reflexivity.
Qed.

Lemma homogeneous_isElement (t : node) : homogeneous t = true -> isElement t = true.
Proof.
  destruct t; [reflexivity | discriminate].
Qed.

(** X20.  [decodeData] never raises a [TypeError]: what [decodeElement]
    returns is always an element object, all of whose nodes have the
    fields that [elementToString] reads.  (The errors it does raise are
    the decoder's incomplete-number error and, on deeply nested input, the
    engine's stack exhaustion, which has no counterpart in
    [elementToString].) *)
Theorem decodeData_outcome (decoder : list byte -> string)
    (arrayBuffer : list byte) :
  decodeData decoder arrayBuffer <> Throw TypeError.
Proof.
  unfold decodeData, decodeElement.
  destruct (decodeElementFuel decoder _ _) as [[t this']|e'|] eqn:E;
    cbn [bind]; intros H.
  - apply decodeElementFuel_homogeneous, homogeneous_isElement in E.
    destruct (elementToString_ok t E) as [s Hs]. rewrite Hs in H. discriminate.
  - inversion H; subst.
    apply decodeElementFuel_throws in E. discriminate E.
  - discriminate.
Qed.

Lemma domChildren_unfold (trim : string -> string) (name : string)
    (attributes : list (string * string)) (childNodes : list domNode) :
  domToJSObject trim (DomElement name attributes childNodes)
  = let* children := domChildren trim childNodes in
    Ok (Element name attributes children).
Proof.
  reflexivity.
Qed.

Lemma domChildren_texts (trim : string -> string) (p : string -> bool)
    (childNodes : list domNode) :
  (forall s, JS.truthy (Some (trim s)) = true -> p s = true) ->
  Forall (fun d => isDomElement d = true ->
                   exists t, domToJSObject trim d = Ok t /\
                             isElement t = true /\ textsSatisfy p t = true)
         childNodes ->
  exists children,
    domChildren trim childNodes = Ok children /\
    forallb (textsSatisfy p) children = true /\
    (List.length children <= List.length childNodes)%nat.
Proof.
  intros Hp. induction 1 as [|d ds Hd _ [children [IH [Hall Hlen]]]].
  - exists []. repeat split. simpl. lia.
  - cbn [domChildren]. rewrite IH.
    destruct d as [name attributes childNodes|nodeValue|].
    + destruct (Hd eq_refl) as [t [Ht [_ Htexts]]]. rewrite Ht. cbn [bind].
      exists (t :: children). cbn [forallb List.length].
      rewrite Htexts, Hall. repeat split. lia.
    + destruct (JS.truthy (Some (trim nodeValue))) eqn:E.
      * cbn [bind]. exists (Text nodeValue :: children).
        cbn [forallb textsSatisfy List.length].
        rewrite (Hp _ E), Hall. repeat split. lia.
      * exists children. cbn [List.length]. repeat split; [assumption | lia].
    + exists children. cbn [List.length]. repeat split; [assumption | lia].
Qed.

Lemma domToJSObject_texts (trim : string -> string) (p : string -> bool)
    (d : domNode) :
  (forall s, JS.truthy (Some (trim s)) = true -> p s = true) ->
  isDomElement d = true ->
  exists t, domToJSObject trim d = Ok t /\
            isElement t = true /\ textsSatisfy p t = true.
Proof.
  intros Hp.
  induction d as [name attributes childNodes IH|nodeValue|] using domNode_ind';
    intros Helem; try discriminate.
  rewrite domChildren_unfold.
  destruct (domChildren_texts trim p childNodes Hp IH) as [children [E [Hall _]]].
  rewrite E. cbn [bind]. exists (Element name attributes children).
  repeat split. exact Hall.
Qed.

(** X21.  What [domToJSObject] returns for an element node is an element
    object with the node's name and attributes and with at most as many
    children as the node has child nodes, and no text node anywhere in it
    has content that [trim] empties (such child nodes, and nodes that are
    neither elements nor text, are left out).  (A call that uses up the
    call stack on a very deep document does not return.) *)
Theorem domToJSObject_element (trim : string -> string) (name : string)
    (attributes : list (string * string)) (childNodes : list domNode)
    (domObject : node) :
  domToJSObject trim (DomElement name attributes childNodes) = Ok domObject ->
  exists children : list node,
    domObject = Element name attributes children /\
    (List.length children <= List.length childNodes)%nat /\
    textsSatisfy (fun content => JS.truthy (Some (trim content))) domObject = true.
Proof.
  rewrite domChildren_unfold.
  destruct (domChildren_texts trim
              (fun content => JS.truthy (Some (trim content))) childNodes)
    as [children [E [Hall Hlen]]].
  - intros s Hs. exact Hs.
  - apply Forall_forall. intros d _ Hd.
    apply domToJSObject_texts; [intros s Hs; exact Hs | assumption].
  - rewrite E. cbn [bind]. intros H. inversion H; subst.
    exists children. repeat split; assumption.
Qed.

Lemma domToJSObject_element_witness :
  exists children : list node,
    Element "a" [("k", "v")%string] [Text " hi "; Element "b" [] []]
    = Element "a" [("k", "v")%string] children /\
    (List.length children
     <= List.length [DomText "  "; DomOther; DomText " hi "; DomElement "b" [] []])%nat /\
    textsSatisfy (fun content => JS.truthy (Some (asciiTrim content)))
      (Element "a" [("k", "v")%string] [Text " hi "; Element "b" [] []]) = true.
Proof.
  apply (domToJSObject_element asciiTrim "a" [("k", "v")%string]
           [DomText "  "; DomOther; DomText " hi "; DomElement "b" [] []]).
  reflexivity.
Defined.

(** X22.  The tree that [encodeXmlString] encodes, the one [domToJSObject]
    returns for the parsed document, is an element object without any text
    node of empty content ([trim] leaving the empty string empty): the
    parser side never produces the text node that [encodeElement] would
    drop.  The bytes [encodeXmlString] returns are the layout of that
    tree with the swap on. *)
Theorem encodeXmlString_ok (trim : string -> string)
    (encoder : string -> list byte) (documentElement : domNode)
    (domObject : node) :
  trim EmptyString = EmptyString ->
  domToJSObject trim documentElement = Ok domObject ->
  isElement domObject = true /\
  textsSatisfy nonEmpty domObject = true /\
  (forall bin : list byte,
     encodeXmlString trim encoder documentElement = Ok bin ->
     bin = wireElement encoder true domObject).
Proof.
  intros Htrim Hdom.
  assert (Hroot : isDomElement documentElement = true)
    by (destruct documentElement; [reflexivity | discriminate | discriminate]).
  destruct (domToJSObject_texts trim nonEmpty documentElement)
    as [t [Ht [Helem Htexts]]]; [|assumption|].
  - intros s Hs. unfold nonEmpty. destruct s; [|reflexivity].
    rewrite Htrim in Hs. discriminate Hs.
  - rewrite Hdom in Ht. inversion Ht; subst t.
    repeat split; try assumption.
    intros bin. unfold encodeXmlString. rewrite Hdom. cbn [bind].
    unfold encodeTree. rewrite encodeElement_app by assumption.
    cbn [bind accumulator setAccumulator newXMLConverter swapEnabled app
         converterOptions opt_swapEnabled].
    intros H. inversion H. reflexivity.
Qed.

Lemma encodeXmlString_ok_witness :
  isElement (Element "a" [] [Element "b" [] [Text "hi"]]) = true /\
  textsSatisfy nonEmpty (Element "a" [] [Element "b" [] [Text "hi"]]) = true /\
  (forall bin : list byte,
     encodeXmlString asciiTrim asciiEncoder
       (DomElement "a" [] [DomText "  "; DomElement "b" [] [DomText "hi"]])
     = Ok bin ->
     bin = wireElement asciiEncoder true
             (Element "a" [] [Element "b" [] [Text "hi"]])).
Proof.
  apply (encodeXmlString_ok asciiTrim asciiEncoder
           (DomElement "a" [] [DomText "  "; DomElement "b" [] [DomText "hi"]])
           (Element "a" [] [Element "b" [] [Text "hi"]]));
    reflexivity.
Defined.

(** X23.  The two entry points compose: when the tree that [domToJSObject]
    builds from a parsed document is well formed, [decodeData] applied to
    the bytes of [encodeXmlString] returns the markup that
    [elementToString] renders for that tree. *)
Theorem decodeData_encodeXmlString (trim : string -> string)
    (encoder : string -> list byte) (decoder : list byte -> string)
    (documentElement : domNode) (domObject : node) :
  domToJSObject trim documentElement = Ok domObject ->
  wellFormed encoder decoder domObject = true ->
  exists (bin : list byte) (markup : string),
    encodeXmlString trim encoder documentElement = Ok bin /\
    elementToString domObject = Ok markup /\
    decodeData decoder bin = Ok markup.
Proof.
  intros Hdom Hwf.
  pose proof (wellFormed_isElement _ _ _ Hwf) as Helem.
  destruct (elementToString_ok domObject Helem) as [markup Hm].
  exists (wireElement encoder true domObject), markup.
  unfold encodeXmlString, decodeData. rewrite Hdom. cbn [bind].
  unfold encodeTree. rewrite encodeElement_app by assumption.
  cbn [bind accumulator setAccumulator newXMLConverter swapEnabled app
       converterOptions opt_swapEnabled].
  repeat split; [assumption|].
  change (newXMLConverter converterOptions (wireElement encoder true domObject))
    with (setBinaryData (newXMLConverter converterOptions [])
            (wireElement encoder
               (swapEnabled (newXMLConverter converterOptions [])) domObject)).
  rewrite (decodeElement_wireElement encoder decoder) by assumption.
  cbn [bind]. assumption.
Qed.

Lemma decodeData_encodeXmlString_witness :
  exists (bin : list byte) (markup : string),
    encodeXmlString asciiTrim asciiEncoder
      (DomElement "a" [("k", "v")%string]
         [DomText "  "; DomElement "b" [] [DomText "hi"]]) = Ok bin /\
    elementToString (Element "a" [("k", "v")%string] [Element "b" [] [Text "hi"]])
    = Ok markup /\
    decodeData asciiDecoder bin = Ok markup.
Proof.
  apply (decodeData_encodeXmlString asciiTrim asciiEncoder asciiDecoder
           (DomElement "a" [("k", "v")%string]
              [DomText "  "; DomElement "b" [] [DomText "hi"]])
           (Element "a" [("k", "v")%string] [Element "b" [] [Text "hi"]]));
    reflexivity.
Defined.

(** ** Cuts that are not detected *)

Lemma trailingLast_le (encoder : string -> list byte)
    (decoder : list byte -> string) (swap : bool) (cs : list node) :
  Forall (fun c => wellFormed encoder decoder c = true ->
                   (trailing encoder c
                    <= List.length (wireElement encoder swap c))%nat) cs ->
  forallb (fun c => isElement c && wellFormed encoder decoder c) cs = true ->
  (trailingLast encoder cs
   <= List.length (flat_map (wireChild encoder swap) cs))%nat.
Proof.
  induction 1 as [|c cs Hc _ IH]; intros Hwf; [simpl; lia|].
  cbn [forallb] in Hwf. apply andb_true_iff in Hwf. destruct Hwf as [Hc1 Hcs].
  cbn [flat_map]. rewrite length_app, (wireChild_element _ _ _ _ Hc1).
  apply andb_true_iff in Hc1. destruct Hc1 as [_ Hcwf].
  specialize (Hc Hcwf). specialize (IH Hcs).
  destruct cs as [|c2 cs].
  - cbn [trailingLast]. lia.
  - change (trailingLast encoder (c :: c2 :: cs))
      with (trailingLast encoder (c2 :: cs)). lia.
Qed.

Lemma trailing_le (encoder : string -> list byte)
    (decoder : list byte -> string) (swap : bool) (t : node) :
  wellFormed encoder decoder t = true ->
  (trailing encoder t <= List.length (wireElement encoder swap t))%nat.
Proof.
  induction t as [name attrs children IH|content] using node_ind';
    intros Hwf; [|discriminate].
  rewrite wireElement_unfold, length_app.
  cbn [wellFormed] in Hwf.
  apply andb_true_iff in Hwf. destruct Hwf as [_ Hchildren].
  destruct children as [|first others]; [simpl; lia|].
  destruct first as [cname cattrs cchildren|content].
  - assert (Hall : (JS.len (Element cname cattrs cchildren :: others) <? 2 ^ 31)
                   && forallb (fun c => isElement c && wellFormed encoder decoder c)
                              (Element cname cattrs cchildren :: others) = true)
      by exact Hchildren.
    apply andb_true_iff in Hall. destruct Hall as [_ Hall].
    change (trailing encoder
              (Element name attrs (Element cname cattrs cchildren :: others)))
      with (trailingLast encoder (Element cname cattrs cchildren :: others)).
    pose proof (trailingLast_le encoder decoder swap _ IH Hall).
    rewrite length_app. lia.
  - destruct others as [|second others].
    + apply andb_true_iff in Hchildren. destruct Hchildren as [Hne _].
      cbn [trailing nodeName JS.truthy flat_map]. unfold wireChild.
      cbn [nodeName nodeContent]. unfold nonEmpty in Hne. rewrite Hne.
      cbn [JS.truthy]. rewrite !length_app, wireString_length. lia.
    + apply andb_true_iff in Hchildren. destruct Hchildren as [_ Hall].
      discriminate Hall.
Qed.

Lemma forLoop_cutsSilently (encoder : string -> list byte)
    (decoder : list byte -> string) (fuel : nat) (children : list node) :
  Forall (cutsSilently encoder decoder) children ->
  forallb (fun c => isElement c && wellFormed encoder decoder c) children = true ->
  forall (this : XMLConverter) (k : nat),
    (List.length (flat_map (wireChild encoder (swapEnabled this)) children)
     - trailingLast encoder children <= k)%nat ->
    (k < List.length (flat_map (wireChild encoder (swapEnabled this)) children))%nat ->
    emptied
      (forLoop (List.length children) (decodeElementFuel decoder fuel)
         (setBinaryData this
            (firstn k (flat_map (wireChild encoder (swapEnabled this)) children)))).
Proof.
  induction 1 as [|c cs Hc _ IH]; intros Hwf this k Hlow Hk.
  - simpl in Hk. lia.
  - cbn [forallb] in Hwf. apply andb_true_iff in Hwf. destruct Hwf as [Hc1 Hcs].
    cbn [List.length forLoop flat_map] in *.
    rewrite (wireChild_element _ _ _ _ Hc1) in *.
    apply andb_true_iff in Hc1. destruct Hc1 as [_ Hcwf].
    rewrite length_app in *.
    destruct cs as [|c2 cs].
    + cbn [flat_map List.length trailingLast forLoop] in *.
      rewrite app_nil_r.
      specialize (Hc fuel this k Hcwf ltac:(lia) ltac:(lia)).
      destruct (decodeElementFuel decoder fuel _) as [[t' this']| |];
        cbn [bind emptied] in *; assumption.
    + change (trailingLast encoder (c :: c2 :: cs))
        with (trailingLast encoder (c2 :: cs)) in Hlow.
      assert (Hle : (trailingLast encoder (c2 :: cs)
                     <= List.length
                          (flat_map (wireChild encoder (swapEnabled this))
                             (c2 :: cs)))%nat).
      { apply (trailingLast_le encoder decoder); [|assumption].
        apply Forall_forall. intros x _ Hx. apply (trailing_le encoder decoder). assumption. }
      destruct (firstn_app_cases k (wireElement encoder (swapEnabled this) c)
                  (flat_map (wireChild encoder (swapEnabled this)) (c2 :: cs)))
        as [[Hlt _]|[Hge E]]; [lia|]. rewrite E; clear E.
      destruct (wellFormed_readsBack encoder decoder c fuel this
                  (firstn (k - List.length (wireElement encoder (swapEnabled this) c))
                          (flat_map (wireChild encoder (swapEnabled this)) (c2 :: cs)))
                  Hcwf) as [E|E]; rewrite E; cbn [bind]; [exact I|].
      specialize (IH Hcs this
                    (k - List.length (wireElement encoder (swapEnabled this) c))%nat
                    ltac:(lia) ltac:(lia)).
      destruct (forLoop _ _ _) as [[l this']| |]; cbn [bind emptied] in *;
        assumption.
Qed.

Lemma wellFormed_cutsSilently (encoder : string -> list byte)
    (decoder : list byte -> string) (t : node) : cutsSilently encoder decoder t.
Proof.
  induction t as [name attrs children IH|content] using node_ind';
    intros fuel this k Hwf Hlow Hk; [|discriminate].
  destruct fuel as [|fuel]; [exact I|].
  pose proof (trailing_le encoder decoder (swapEnabled this) _ Hwf) as Htl.
  cbn [wellFormed] in Hwf.
  apply andb_true_iff in Hwf. destruct Hwf as [Hwf Hchildren].
  apply andb_true_iff in Hwf. destruct Hwf as [Hwf Hattrs].
  apply andb_true_iff in Hwf. destruct Hwf as [Hwf Hcount].
  apply andb_true_iff in Hwf. destruct Hwf as [Hnonempty Hname].
  apply stringOk_spec in Hname. destruct Hname as [Hfits Hrecode].
  apply attrsOk_spec in Hattrs. destruct Hattrs as [Hattrs Hmap].
  rewrite decodeElementFuel_S. rewrite wireElement_unfold in *.
  rewrite length_app in *.
  destruct children as [|first others];
    [change (trailing encoder (Element name attrs [])) with 0%nat in Hlow; lia|].
  destruct first as [cname cattrs cchildren|content].
  - assert (Hall : (JS.len (Element cname cattrs cchildren :: others) <? 2 ^ 31)
                   && forallb (fun c => isElement c && wellFormed encoder decoder c)
                              (Element cname cattrs cchildren :: others) = true)
      by exact Hchildren.
    clear Hchildren. apply andb_true_iff in Hall. destruct Hall as [Hlen Hall].
    apply Z.ltb_lt in Hlen.
    assert (Htruthy : JS.truthy (nodeName (Element cname cattrs cchildren)) = true).
    { pose proof Hall as Hall'.
      cbn [forallb isElement wellFormed andb] in Hall'.
      repeat (apply andb_true_iff in Hall'; destruct Hall' as [Hall' ?]).
      exact Hall'. }
    rewrite Htruthy in *. rewrite <- app_assoc in *.
    rewrite !length_app in *.
    change (trailing encoder
              (Element name attrs (Element cname cattrs cchildren :: others)))
      with (trailingLast encoder (Element cname cattrs cchildren :: others)) in *.
    set (cs := Element cname cattrs cchildren :: others) in *.
    assert (Hpos : 0 < JS.len cs) by (unfold JS.len, cs; simpl; lia).
    pose proof (trailingLast_le encoder decoder (swapEnabled this) cs) as Hle.
    specialize (Hle ltac:(apply Forall_forall; intros x _ Hx;
                          apply (trailing_le encoder decoder); assumption) Hall).
    match goal with
    | |- context [firstn k (?h ++ ?d)] =>
        destruct (firstn_app_cases k h d) as [[Hlt _]|[Hge E]];
          [lia | rewrite E; clear E]
    end.
    rewrite (decodeHeader_wireHeader encoder decoder) by assumption.
    cbn [bind fst snd]. unfold decodeChildren.
    match goal with
    | |- context [firstn ?j (?h ++ ?d)] =>
        destruct (firstn_app_cases j h d) as [[Hlt _]|[Hge2 E]];
          [lia | rewrite E; clear E]
    end.
    rewrite decodeNumber_encodeNumber by (unfold IS_ELEMENT; lia).
    cbn [bind]. change (IS_ELEMENT =? IS_ELEMENT) with true. cbv iota.
    match goal with
    | |- context [firstn ?j (?h ++ ?d)] =>
        destruct (firstn_app_cases j h d) as [[Hlt _]|[Hge3 E]];
          [lia | rewrite E; clear E]
    end.
    rewrite decodeNumber_encodeNumber by lia. cbn [bind].
    destruct (Z.ltb_spec 0 (JS.len cs)) as [_|]; [|lia].
    replace (Z.to_nat (JS.len cs)) with (List.length cs)
      by (unfold JS.len; rewrite Nat2Z.id; reflexivity).
    match goal with
    | |- context [firstn ?j (flat_map _ cs)] =>
        pose proof (forLoop_cutsSilently encoder decoder fuel cs IH Hall this j
                      ltac:(lia) ltac:(lia)) as Hloop
    end.
    destruct (forLoop _ _ _) as [[l this']| |]; cbn [bind emptied] in *;
      assumption.
  - destruct others as [|second others].
    + apply andb_true_iff in Hchildren. destruct Hchildren as [Hne Hcontent].
      apply stringOk_spec in Hcontent. destruct Hcontent as [Hcfits Hcrecode].
      cbn [nodeName JS.truthy flat_map trailing] in *.
      unfold wireChild in *. cbn [nodeName nodeContent] in *.
      unfold nonEmpty in Hne. rewrite Hne in *.
      cbn [JS.truthy] in *. rewrite app_nil_r in *.
      rewrite length_app, wireString_length in *. unfold wireString.
      match goal with
      | |- context [firstn k (?h ++ ?d)] =>
          destruct (firstn_app_cases k h d) as [[Hlt _]|[Hge E]];
            [lia | rewrite E; clear E]
      end.
      rewrite (decodeHeader_wireHeader encoder decoder) by assumption.
      cbn [bind fst snd]. unfold decodeChildren.
      match goal with
      | |- context [firstn ?j (?h ++ ?d)] =>
          destruct (firstn_app_cases j h d) as [[Hlt _]|[Hge2 E]];
            [lia | rewrite E; clear E]
      end.
      rewrite decodeNumber_encodeNumber by (unfold IS_CONTENT; lia).
      cbn [bind]. change (IS_CONTENT =? IS_ELEMENT) with false.
      change (IS_CONTENT =? IS_CONTENT) with true. cbv iota.
      assert (Hplen : JS.len (payload encoder (swapEnabled this) content)
                      = JS.len (encoder content))
        by (unfold JS.len; rewrite payload_length; reflexivity).
      rewrite Hplen in *.
      match goal with
      | |- context [firstn ?j (?h ++ ?d)] =>
          destruct (firstn_app_cases j h d) as [[Hlt _]|[Hge3 E]];
            [lia | rewrite E; clear E]
      end.
      rewrite (decodeString_short encoder decoder) by (assumption || lia).
      reflexivity.
    + apply andb_true_iff in Hchildren. destruct Hchildren as [_ Hall].
      discriminate Hall.
Qed.

(** X24.  A buffer that stops inside the text payload at the end of the
    encoding of a well-formed tree is never rejected: [decodeElement]
    returns a node, with no error, at every such cut. *)
Theorem truncation_in_text_undetected (encoder : string -> list byte)
    (decoder : list byte -> string) (o : options) (t : node)
    (bin : list byte) (k : nat) :
  wellFormed encoder decoder t = true ->
  encodeTree encoder o t = Ok bin ->
  (List.length bin - trailing encoder t <= k)%nat ->
  (k < List.length bin)%nat ->
  exists t' : node, decodeTree decoder o (firstn k bin) = Ok t'.
Proof.
  intros Hwf Henc Hlow Hk. unfold encodeTree in Henc.
  rewrite encodeElement_app in Henc
    by (eapply wellFormed_isElement; eassumption).
  cbn [bind accumulator setAccumulator newXMLConverter swapEnabled app] in Henc.
  inversion Henc; subst bin; clear Henc.
  unfold decodeTree.
  pose proof (decodeElement_total decoder
                (newXMLConverter o
                   (firstn k (wireElement encoder (opt_swapEnabled o) t))))
    as Htotal.
  unfold decodeElement in *.
  pose proof (wellFormed_cutsSilently encoder decoder t
                (S (List.length
                      (binaryData
                         (newXMLConverter o
                            (firstn k (wireElement encoder (opt_swapEnabled o) t))))))
                (newXMLConverter o []) k Hwf) as Hcut.
  cbn [swapEnabled newXMLConverter] in Hcut.
  specialize (Hcut Hlow Hk).
  change (setBinaryData (mkXMLConverter [] (opt_mapperModule o)
                           (opt_swapEnabled o) (opt_swapTags o) [])
            (firstn k (wireElement encoder (opt_swapEnabled o) t)))
    with (newXMLConverter o
            (firstn k (wireElement encoder (opt_swapEnabled o) t))) in Hcut.
  destruct (decodeElementFuel decoder _ _) as [[t' this']| |];
    cbn [emptied bind] in *.
  - exists t'. reflexivity.
  - contradiction.
  - contradiction.
Qed.

Lemma truncation_in_text_undetected_witness :
  exists t' : node,
    decodeTree asciiDecoder converterOptions
      (firstn 7 [x01; x16; x00; x0a; x05; x05; xc4; x14; x94; xe4]) = Ok t'.
Proof.
  apply (truncation_in_text_undetected asciiEncoder asciiDecoder converterOptions
           (Element "a" [] [Text "PLAIN"])).
  - reflexivity.
  - vm_compute. reflexivity.
  - vm_compute. lia.
  - vm_compute. lia.
Defined.

(** ** Children after a leading text node *)

(** X25.  When the first child of an element is a text node with non-empty
    content, and the element with that text as its only child is well
    formed, the children after it do not survive a round trip: whatever
    they are, decoding the encoding of the element returns the element
    with that first text node as its only child. *)
Theorem later_siblings_lost (encoder : string -> list byte)
    (decoder : list byte -> string) (o : options) (name : string)
    (attrs : list (string * string)) (content : string) (others : list node) :
  wellFormed encoder decoder (Element name attrs [Text content]) = true ->
  exists bin : list byte,
    encodeTree encoder o (Element name attrs (Text content :: others)) = Ok bin /\
    decodeTree decoder o bin = Ok (Element name attrs [Text content]).
Proof.
  intros Hwf. cbn [wellFormed] in Hwf.
  apply andb_true_iff in Hwf. destruct Hwf as [Hwf Hchildren].
  apply andb_true_iff in Hwf. destruct Hwf as [Hwf Hattrs].
  apply andb_true_iff in Hwf. destruct Hwf as [Hwf Hcount].
  apply andb_true_iff in Hwf. destruct Hwf as [Hnonempty Hname].
  apply stringOk_spec in Hname. destruct Hname as [Hfits Hrecode].
  apply attrsOk_spec in Hattrs. destruct Hattrs as [Hattrs Hmap].
  apply andb_true_iff in Hchildren. destruct Hchildren as [Hne Hcontent].
  apply stringOk_spec in Hcontent. destruct Hcontent as [Hcfits Hcrecode].
  eexists. split.
  - unfold encodeTree. rewrite encodeElement_app by reflexivity.
    cbn [bind accumulator setAccumulator newXMLConverter swapEnabled app].
    reflexivity.
  - unfold decodeTree, decodeElement. rewrite decodeElementFuel_S.
    rewrite wireElement_unfold.
    change (newXMLConverter o ?b)
      with (setBinaryData (newXMLConverter o []) b).
    change (opt_swapEnabled o) with (swapEnabled (newXMLConverter o [])).
    rewrite (decodeHeader_wireHeader encoder decoder) by assumption.
    cbn [bind fst snd]. rewrite Hrecode, Hmap. unfold decodeChildren.
    cbn [nodeName JS.truthy flat_map]. unfold wireChild at 1.
    cbn [nodeName nodeContent]. unfold nonEmpty in Hne. rewrite Hne.
    cbn [JS.truthy]. rewrite <- ?app_assoc.
    rewrite decodeNumber_encodeNumber by (unfold IS_CONTENT; lia). cbn [bind].
    change (IS_CONTENT =? IS_ELEMENT) with false.
    change (IS_CONTENT =? IS_CONTENT) with true. cbv iota.
    rewrite (decodeString_wireString encoder decoder) by assumption.
    cbn [bind]. rewrite Hcrecode. reflexivity.
Qed.

Lemma later_siblings_lost_witness :
  exists bin : list byte,
    encodeTree asciiEncoder converterOptions
      (Element "a" [] [Text "hi"; Element "b" [] []; Text "yo"]) = Ok bin /\
    decodeTree asciiDecoder converterOptions bin = Ok (Element "a" [] [Text "hi"]).
Proof.
  apply (later_siblings_lost asciiEncoder asciiDecoder converterOptions
           "a" [] "hi" [Element "b" [] []; Text "yo"]).
  reflexivity.
Defined.
